(** * grafterm: the metric-gathering resilience and scheduling engine

    A shallow embedding of the Go sources

    - [internal/service/metric/cache.go]            (module [metric])
    - the two [QueryExecutor] files of package [metric] (module [metric])
    - [internal/service/metric/prometheus], enhanced gatherer (module [prometheus])
    - [internal/service/metric/datasource/datasource.go] (module [datasource])
    - [internal/view/page], [dashboard.Sync]         (module [page])
    - [internal/view/app.go], the application        (module [view])
    - [internal/view/page/widget], the gauge         (module [widget])
    - [internal/view/render/termdash/gauge.go]       (module [termdash])

    Conventions.  A [time.Time] is an instant in nanoseconds and a
    [time.Duration] a number of nanoseconds, both in [Z].  An [int64]
    counter is a [Z] whose increments are wrapped by [int64].  A finite
    [float64] is the rational it denotes, and every float64 operation
    rounds as IEEE 754 binary64 does (module [float64]).  A Go [error]
    is a value of [error]; the [nil] error is [None] of [option error].
    Go maps are stdpp [gmap]s.  Everything the code reads from its
    environment (the clock, the context, the backend, the scheduler) is
    passed in explicitly. *)

From Stdlib Require Import ZArith QArith Qround Qabs Qpower Lia Lqa.
From Stdlib Require Import String Ascii List Bool Permutation DecimalString.
From Stdlib Require Import PrimFloat FloatOps SpecFloat Uint63.
From stdpp Require Import gmap strings list fin_maps.

Local Open Scope string_scope.
Local Open Scope list_scope.
Local Open Scope Z_scope.

(** ** Go values shared by all packages *)

(** Two's complement wrap-around of a 64 bit signed integer. *)
Definition int64 (z : Z) : Z := (z + 2 ^ 63) mod 2 ^ 64 - 2 ^ 63.
Arguments int64 : simpl never.

Definition Nanosecond : Z := 1.
Definition Millisecond : Z := 1000000.
Definition Second : Z := 1000000000.
Definition Hour : Z := 3600 * Second.

(** The two sentinel errors of package [context]. *)
Module context.

Inductive sentinel : Type :=
| DeadlineExceeded
| Canceled.

(** [==] on the sentinels. *)
Definition eqb (s t : sentinel) : bool :=
  match s, t with
  | DeadlineExceeded, DeadlineExceeded => true
  | Canceled, Canceled => true
  | _, _ => false
  end.

End context.

(** [error]: a sentinel of package [context]; a value made by
    [errors.New], or by [fmt.Errorf] without a [%w] verb; a value made
    by [fmt.Errorf] with a trailing [%w] verb; and a value of any other
    error type, given by what its methods answer: [Error()], [Is] asked
    about a sentinel of [context] (false for a type without that
    method), and [Unwrap()] ([None] for a type without that method, and
    when it returns nil). *)
#[warnings="-register-all"]
Inductive error : Type :=
| Sentinel (s : context.sentinel)
| ErrorsNew (msg : string)
| Errorf (prefix : string) (wrapped : error)
| Custom (msg : string) (Is : context.sentinel -> bool)
         (unwrap : option error).

Abbreviation DeadlineExceeded := (Sentinel context.DeadlineExceeded).
Abbreviation Canceled := (Sentinel context.Canceled).

(** [err.Error()] *)
Fixpoint Error (e : error) : string :=
  match e with
  | DeadlineExceeded => "context deadline exceeded"
  | Canceled => "context canceled"
  | ErrorsNew msg => msg
  | Errorf prefix wrapped => prefix +:+ Error wrapped
  | Custom msg _ _ => msg
  end.

(** [errors.Unwrap(e)] *)
Definition Unwrap (e : error) : option error :=
  match e with
  | Errorf _ wrapped => Some wrapped
  | Custom _ _ unwrap => unwrap
  | _ => None
  end.

(** [errors.Is(e, target)] for a sentinel [target] of [context]: at each
    error of the chain, [==] with the target, then the [Is] method,
    then [Unwrap].  Only a sentinel is [==] to a sentinel. *)
Fixpoint errorsIs (e : error) (target : context.sentinel) : bool :=
  match e with
  | Sentinel s => context.eqb s target
  | ErrorsNew _ => false
  | Errorf _ wrapped => errorsIs wrapped target
  | Custom _ Is unwrap =>
      Is target
      || match unwrap with
         | Some wrapped => errorsIs wrapped target
         | None => false
         end
  end.

(** The error carries the deadline or cancellation signal of a context. *)
Definition carriesContextSignal (e : error) : bool :=
  errorsIs e context.DeadlineExceeded || errorsIs e context.Canceled.

(** [fmt.Errorf(p1 + "%w", fmt.Errorf(p2 + "%w", ... e))]: [e] behind
    the prefixes of as many [%w] wrappings. *)
Definition wrapAll (prefixes : list string) (e : error) : error :=
  fold_right Errorf e prefixes.

(** [strings.Contains(s, substr)] *)
Fixpoint Contains (s substr : string) : bool :=
  String.prefix substr s ||
  match s with
  | EmptyString => false
  | String _ rest => Contains rest substr
  end.

(** The [%d] verb on a non-negative integer. *)
Definition fmt_d (n : nat) : string := NilEmpty.string_of_uint (Nat.to_uint n).

(** A call that returns [(T, error)]. *)
Inductive result (T : Type) : Type :=
| Ok (v : T)
| Err (e : error).
Arguments Ok {T} v.
Arguments Err {T} e.

(** What [ctx.Err()] returns; [None] while the context is live. *)
Definition ctxErr := option error.

(** The branch taken by [select { case <-time.After(d): case <-ctx.Done(): }]. *)
Inductive selected : Type :=
| TimerFired
| CtxDone (e : error).

(** What a call does that can be observed from outside: the deadline it
    puts on its context, an attempt on the backend, a backoff slept in
    full. *)
Inductive event : Type :=
| WithTimeout (d : Z)
| Attempt (attempt : nat)
| Sleep (d : Z).

(** The number of attempts on the backend in a log. *)
Definition isAttempt (ev : event) : bool :=
  match ev with
  | Attempt _ => true
  | _ => false
  end.

Definition attemptsMade (log : list event) : nat :=
  length (List.filter isAttempt log).

(** The time spent in the backoffs a log records. *)
Definition slept (ev : event) : Z :=
  match ev with
  | Sleep d => d
  | _ => 0
  end.

Definition sleptTotal (log : list event) : Z :=
  fold_right (fun ev acc => slept ev + acc) 0 log.

(** [t.Sub(u)] of package [time]: the difference, saturated to an int64. *)
Definition Sub (t u : Z) : Z := Z.max (- 2 ^ 63) (Z.min (2 ^ 63 - 1) (t - u)).

(** ** float64

    A finite binary64 number is modelled by the rational it denotes; the
    two zeros are identified.  [rnd] rounds a rational to the nearest
    binary64 number, ties to even: 53 bits of significand, and the
    exponent of the last place never below -1074 (gradual underflow).
    An operation of Go on float64 is the exact operation followed by
    [rnd].  That is the IEEE 754 result whenever this result is finite,
    that is when no divisor is zero and the rounded value is below
    [2^1024] in magnitude ([finite]); these side conditions are proved
    where float64 is used ([Stats_defined],
    [calculateRangeTimeout_defined]).  The examples that close
    [float64_facts] compare the model with the binary64 arithmetic of
    the kernel. *)
Module float64.

(** The largest [e] with [2^e <= x], for [0 < x]. *)
Definition ilog2 (x : Q) : Z :=
  let l := Z.log2 (Qnum x) - Z.log2 (Zpos (Qden x)) in
  if Qle_bool (2 ^ l) x then l else l - 1.

(** The nearest integer, the even one on a tie. *)
Definition rne (y : Q) : Z :=
  let f := Qfloor y in
  match (y - inject_Z f ?= 1 # 2)%Q with
  | Lt => f
  | Gt => f + 1
  | Eq => if Z.even f then f else f + 1
  end.

(** The exponent of the unit in the last place of [rnd x], for [0 < x]. *)
Definition ulp_exp (x : Q) : Z := Z.max (ilog2 x - 52) (-1074).

Definition rnd_pos (x : Q) : Q :=
  (inject_Z (rne (x / 2 ^ ulp_exp x)) * 2 ^ ulp_exp x)%Q.

Definition rnd (x : Q) : Q :=
  match (x ?= 0)%Q with
  | Eq => 0%Q
  | Gt => rnd_pos x
  | Lt => (- rnd_pos (- x))%Q
  end.

(** The rounded value is a finite binary64 number (no overflow). *)
Definition finite (x : Q) : Prop := (Qabs x < 2 ^ 1024)%Q.

(** Half a unit in the last place of 1: the relative error of [rnd] on a
    normal number is at most [eps = 2^-53]. *)
Definition eps : Q := 1 # 9007199254740992.

(** [float64(z)] for an integer [z] *)
Definition of_int (z : Z) : Q := rnd (inject_Z z).
(** [x + y], [x * y], [x / y] on float64 *)
Definition add (x y : Q) : Q := rnd (x + y).
Definition mul (x y : Q) : Q := rnd (x * y).
Definition div (x y : Q) : Q := rnd (x / y).
(** [x > y] on float64 *)
Definition gtb (x y : Q) : bool := negb (Qle_bool x y).
(** [int64(x)]: the fraction is discarded. *)
Definition to_int (x : Q) : Z :=
  if Qle_bool 0 x then Qfloor x else Qceiling x.
(** [x - y] on float64 *)
Definition sub (x y : Q) : Q := rnd (x - y).
(** [x < y] on float64 *)
Definition ltb (x y : Q) : bool := negb (Qle_bool y x).

End float64.

(** The binary64 numbers of the kernel, read as rationals. *)
Module float64_check.

Definition SF2Q (f : spec_float) : Q :=
  match f with
  | S754_finite s m e =>
      ((if s then -1 else 1) * inject_Z (Zpos m) * 2 ^ e)%Q
  | _ => 0%Q
  end.

Definition prim2Q (f : float) : Q := SF2Q (Prim2SF f).

Definition prim (z : Z) : float := PrimFloat.of_uint63 (Uint63.of_Z z).

End float64_check.

(** ** Package [model] *)
Module model.

(** [Value] holds the bits of the float64; no function here reads it. *)
Record Metric : Type := { Value : Z; TS : Z }.

Record MetricSeries : Type :=
  { ID : string; Labels : list (string * string); Metrics : list Metric }.

Record TimeRange : Type := { Start : Z; End : Z }.

Record Query : Type := { Expr : string; DatasourceID : string }.

End model.

(** ** Package [metric]: the cache *)
Module metric.
Import model.

Record MetricCacheKey : Type :=
  { key_DatasourceID : string; key_Query : string; key_Range : Z }.

Record cacheEntry : Type :=
  { data : list MetricSeries; created : Z; expires : Z; entry_hits : Z }.

Record MetricCache : Type :=
  { entries : gmap string cacheEntry;
    maxSize : Z;
    maxAge : Z;
    hits : Z;
    misses : Z }.

Record CacheStats : Type :=
  { Hits : Z; Misses : Z; HitRate : Q; Size : Z }.

Section Cache.
(** [sha256hex s] is [fmt.Sprintf("%x", sha256.Sum256([]byte(s)))]: the
    digest function of the Go standard library, any function here. *)
Variable sha256hex : string -> string.
(** [tr.Range]: [model.TimeRange] as declared has no such field, so the
    duration [NewCacheKey] reads from the range is left open. *)
Variable timeRange_Range : TimeRange -> Z.

(** [NewCacheKey]: the digest [h] it feeds with the data source, the
    query and the two ends of the range is dropped; the key struct is
    all it returns. *)
Definition NewCacheKey (datasourceID query : string) (tr : TimeRange)
  : MetricCacheKey :=
  {| key_DatasourceID := datasourceID;
     key_Query := query;
     key_Range := timeRange_Range tr |}.

(** The string both [Get] and [Set] index [mc.entries] with:
    [fmt.Sprintf("%x", sha256.Sum256([]byte(fmt.Sprintf("%s:%s",
    key.DatasourceID, key.Query))))]. *)
Definition cacheKey (key : MetricCacheKey) : string :=
  sha256hex (key_DatasourceID key +:+ ":" +:+ key_Query key).

Definition NewMetricCache (maxSize maxAge : Z) : MetricCache :=
  {| entries := ∅; maxSize := maxSize; maxAge := maxAge;
     hits := 0; misses := 0 |}.

Definition bump (entry : cacheEntry) : cacheEntry :=
  {| data := data entry; created := created entry;
     expires := expires entry;
     entry_hits := int64 (entry_hits entry + 1) |}.

(** [MetricCache.Get]; [now] is the reading of [time.Now()]. *)
Definition MetricCache_Get (mc : MetricCache) (key : MetricCacheKey)
    (now : Z) : MetricCache * (list MetricSeries * bool) :=
  let k := cacheKey key in
  match entries mc !! k with
  | Some entry =>
      if now <? expires entry then
        ({| entries := <[k := bump entry]> (entries mc);
            maxSize := maxSize mc; maxAge := maxAge mc;
            hits := int64 (hits mc + 1); misses := misses mc |},
         (data entry, true))
      else
        ({| entries := delete k (entries mc);
            maxSize := maxSize mc; maxAge := maxAge mc;
            hits := hits mc; misses := int64 (misses mc + 1) |},
         ([], false))
  | None =>
      ({| entries := entries mc;
          maxSize := maxSize mc; maxAge := maxAge mc;
          hits := hits mc; misses := int64 (misses mc + 1) |},
       ([], false))
  end.

(** [evictOldEntries]: drop every entry with [now.After(entry.expires)]. *)
Definition evictOldEntries (mc : MetricCache) (now : Z) : MetricCache :=
  {| entries :=
       filter (λ kv : string * cacheEntry, ¬ (expires kv.2 < now))
              (entries mc);
     maxSize := maxSize mc; maxAge := maxAge mc;
     hits := hits mc; misses := misses mc |}.

(** The three readings of [time.Now()] a [Set] takes, in order: inside
    [evictOldEntries] (when it runs), for [created], for [expires]. *)
Record setClock : Type :=
  { nowEvict : Z; nowCreated : Z; nowExpires : Z }.

(** [MetricCache.Set] *)
Definition MetricCache_Set (mc : MetricCache) (key : MetricCacheKey)
    (d : list MetricSeries) (clk : setClock) : MetricCache :=
  let mc1 :=
    if maxSize mc <? int64 (int64 (Z.of_nat (size (entries mc))) * 2)
    then evictOldEntries mc (nowEvict clk) else mc in
  {| entries :=
       <[cacheKey key :=
           {| data := d; created := nowCreated clk;
              expires := nowExpires clk + maxAge mc;
              entry_hits := 0 |}]> (entries mc1);
     maxSize := maxSize mc1; maxAge := maxAge mc1;
     hits := hits mc1; misses := misses mc1 |}.

(** [MetricCache.Clear] *)
Definition MetricCache_Clear (mc : MetricCache) : MetricCache :=
  {| entries := ∅; maxSize := maxSize mc; maxAge := maxAge mc;
     hits := 0; misses := 0 |}.

(** [MetricCache.Stats] *)
Definition MetricCache_Stats (mc : MetricCache) : CacheStats :=
  let total := int64 (hits mc + misses mc) in
  let hitRate :=
    if 0 <? total
    then float64.mul
           (float64.div (float64.of_int (hits mc)) (float64.of_int total))
           (inject_Z 100)
    else 0%Q in
  {| Hits := hits mc; Misses := misses mc; HitRate := hitRate;
     Size := int64 (Z.of_nat (size (entries mc))) |}.

(** *** The query executor *)

Definition MaxConcurrentCalls : nat := 10.
Definition MaxRetransmission : nat := 3.
Definition DefaultTimeout : Z := 5 * Second.

Record ExecutionMetrics : Type :=
  { totalQueries : Z; cacheHits : Z; errors : Z; successes : Z }.

Definition NewExecutionMetrics : ExecutionMetrics :=
  {| totalQueries := 0; cacheHits := 0; errors := 0; successes := 0 |}.

Definition RecordCacheHit (em : ExecutionMetrics) : ExecutionMetrics :=
  {| totalQueries := int64 (totalQueries em + 1);
     cacheHits := int64 (cacheHits em + 1);
     errors := errors em; successes := successes em |}.

Definition RecordError (em : ExecutionMetrics) (err : error)
  : ExecutionMetrics :=
  {| totalQueries := int64 (totalQueries em + 1);
     cacheHits := cacheHits em;
     errors := int64 (errors em + 1); successes := successes em |}.

Definition RecordSuccess (em : ExecutionMetrics) : ExecutionMetrics :=
  {| totalQueries := int64 (totalQueries em + 1);
     cacheHits := cacheHits em;
     errors := errors em; successes := int64 (successes em + 1) |}.

(** The semaphore channel is left out of the state: a call that takes a
    slot gives it back before it returns. *)
Record QueryExecutor : Type :=
  { cache : MetricCache; metrics : ExecutionMetrics }.

Definition NewQueryExecutor (c : MetricCache) : QueryExecutor :=
  {| cache := c; metrics := NewExecutionMetrics |}.

(** [isContextError] of package [metric]: the message is that of one of
    the two context sentinels. *)
Definition isContextError (err : option error) : bool :=
  match err with
  | None => false
  | Some e =>
      String.eqb (Error e) (Error DeadlineExceeded)
      || String.eqb (Error e) (Error Canceled)
  end.

(** What one turn of the retry loop reads from outside: [ctx.Err()] at
    its top, the branch of the backoff [select], the answer of
    [gatherer.GatherSingle], and [ctx.Err()] after a failed attempt. *)
Record attemptEnv : Type :=
  { ctxAtTop : ctxErr;
    backoffSelect : selected;
    gathered : result (list MetricSeries);
    ctxAfter : ctxErr }.

(** The loop of [QueryExecutor.executeWithRetry], from turn [attempt]
    with [fuel] turns left. *)
Fixpoint retryLoop (env : nat -> attemptEnv) (fuel attempt : nat)
    (lastErr : option error) (log : list event)
  : list event * result (list MetricSeries) :=
  match fuel with
  | O =>
      (log,
       Err match lastErr with
           | Some e =>
               Errorf ("query failed after " +:+ fmt_d MaxRetransmission
                       +:+ " attempts: ") e
           | None =>
               ErrorsNew ("query failed after " +:+ fmt_d MaxRetransmission
                          +:+ " attempts: %!w(<nil>)")
           end)
  | S fuel' =>
      match ctxAtTop (env attempt) with
      | Some e => (log, Err e)
      | None =>
          let sleepTime :=
            Z.of_nat (attempt * attempt * 100) * Millisecond in
          let slept :=
            if (0 <? attempt)%nat
            then match backoffSelect (env attempt) with
                 | TimerFired => inl (log ++ [Sleep sleepTime])
                 | CtxDone e => inr e
                 end
            else inl log in
          match slept with
          | inr e => (log, Err e)
          | inl log1 =>
              let log2 := log1 ++ [Attempt attempt] in
              match gathered (env attempt) with
              | Ok r => (log2, Ok r)
              | Err err =>
                  if isContextError (Some err) then (log2, Err err)
                  else match ctxAfter (env attempt) with
                       | Some e => (log2, Err e)
                       | None =>
                           retryLoop env fuel' (S attempt) (Some err) log2
                       end
              end
          end
      end
  end.

Definition executeWithRetry (env : nat -> attemptEnv)
  : list event * result (list MetricSeries) :=
  retryLoop env MaxRetransmission 0%nat None [].

(** The [select] on the semaphore: a slot was taken, or [ctx.Done()]
    came first and [ctx.Err()] is [e]. *)
Inductive admission : Type :=
| SlotAcquired
| WaitCtxDone (e : error).

(** All that one [ExecuteQuery] reads from outside. *)
Record execEnv : Type :=
  { getNow : Z;
    admitted : admission;
    attempts : nat -> attemptEnv;
    setNow : setClock }.

(** The body shared by the two [ExecuteQuery]: [id] is
    [gatherer.ID()], [expr] the text of the query. *)
Definition ExecuteQuery_body (qe : QueryExecutor) (id expr : string)
    (tr : TimeRange) (env : execEnv)
  : QueryExecutor * list event * result (list MetricSeries) :=
  let key := NewCacheKey id expr tr in
  let '(c1, (cached, found)) := MetricCache_Get (cache qe) key (getNow env) in
  if found then
    ({| cache := c1; metrics := RecordCacheHit (metrics qe) |}, [], Ok cached)
  else
    match admitted env with
    | WaitCtxDone e =>
        ({| cache := c1; metrics := metrics qe |}, [],
         Err (Errorf "query execution timeout waiting for rate limit: " e))
    | SlotAcquired =>
        match executeWithRetry (attempts env) with
        | (log, Err err) =>
            ({| cache := c1; metrics := RecordError (metrics qe) err |},
             log, Err err)
        | (log, Ok r) =>
            ({| cache := MetricCache_Set c1 key r (setNow env);
                metrics := RecordSuccess (metrics qe) |},
             log, Ok r)
        end
    end.

(** [ExecuteQuery] of the executor that takes a [model.Query] and an
    instant: the range it caches under is [{Start: t, End: t}]. *)
Definition ExecuteQuery (qe : QueryExecutor) (id : string) (query : Query)
    (t : Z) (env : execEnv)
  : QueryExecutor * list event * result (list MetricSeries) :=
  ExecuteQuery_body qe id (Expr query) {| Start := t; End := t |} env.

(** [ExecuteQuery] of the executor that takes the query text and a
    [model.TimeRange]. *)
Definition ExecuteQuery_range (qe : QueryExecutor) (id query : string)
    (tr : TimeRange) (env : execEnv)
  : QueryExecutor * list event * result (list MetricSeries) :=
  ExecuteQuery_body qe id query tr env.

End Cache.

(** [ExecutionMetrics.Stats] *)
Record ExecutionStats : Type :=
  { TotalQueries : Z; CacheHits : Z; Errors : Z; Successes : Z }.

Definition ExecutionMetrics_Stats (em : ExecutionMetrics) : ExecutionStats :=
  {| TotalQueries := totalQueries em; CacheHits := cacheHits em;
     Errors := errors em; Successes := successes em |}.

(** Every query an executor has counted is counted under one heading. *)
Definition tallied (em : ExecutionMetrics) : Prop :=
  totalQueries em = int64 (cacheHits em + errors em + successes em).

(** *** A cache used by one caller at a time *)

(** [cleanupRoutine]: one pass of [evictOldEntries] per tick of its
    ticker; [ticks] are the instants the passes made so far have read,
    each pass taken to run between two calls on the cache. *)
Definition cleanupRoutine (mc : MetricCache) (ticks : list Z) : MetricCache :=
  fold_left evictOldEntries ticks mc.

(** A call on the cache with the clock readings it takes; [Tick] is a
    pass of [cleanupRoutine]. *)
Inductive cacheCall : Type :=
| CallGet (key : MetricCacheKey) (now : Z)
| CallSet (key : MetricCacheKey) (d : list MetricSeries) (clk : setClock)
| CallClear
| Tick (now : Z).

Section Calls.
Variable sha256hex : string -> string.

Definition call (mc : MetricCache) (c : cacheCall) : MetricCache :=
  match c with
  | CallGet key now => fst (MetricCache_Get sha256hex mc key now)
  | CallSet key d clk => MetricCache_Set sha256hex mc key d clk
  | CallClear => MetricCache_Clear mc
  | Tick now => evictOldEntries mc now
  end.

Definition calls (mc : MetricCache) (cs : list cacheCall) : MetricCache :=
  fold_left call cs mc.

End Calls.

(** The lookups in a list of calls that come after its last [Clear],
    on top of [n] counted before. *)
Definition lookupsSinceClear (n : Z) (cs : list cacheCall) : Z :=
  fold_left (fun n c =>
               match c with
               | CallGet _ _ => n + 1
               | CallClear => 0
               | _ => n
               end) cs n.

(** *** [ParallelQueryExecutor] *)

(** A widget of one [ExecuteWidgetQueries]: its ID, and what
    [pqe.qe.ExecuteQuery] returns to the goroutine started for it. *)
Record WidgetData : Type :=
  { widget_ID : string; widget_answer : result (list MetricSeries) }.

Record WidgetResult : Type :=
  { result_ID : string;
    result_Metrics : list MetricSeries;
    result_Error : option error }.

(** The [WidgetResult] a goroutine builds before its [select]. *)
Definition widgetResult (w : WidgetData) : WidgetResult :=
  match widget_answer w with
  | Ok metrics =>
      {| result_ID := widget_ID w; result_Metrics := metrics;
         result_Error := None |}
  | Err err =>
      {| result_ID := widget_ID w; result_Metrics := [];
         result_Error := Some err |}
  end.

(** A run in flight: the goroutines that have not reached the end of
    their [select], the buffer of [resultsCh] and its capacity, the map
    the collecting loop has filled so far, and whether [ctx.Done()] is
    closed. *)
Record fan : Type :=
  { workers : list WidgetData;
    resultsCh : list WidgetResult;
    results : gmap string WidgetResult;
    ctxDone : bool;
    chanCap : nat }.

(** [results := make(map...)], [resultsCh := make(chan WidgetResult,
    len(widgets))] and one goroutine per widget; [done] tells whether
    the context of the caller is done already. *)
Definition fanStart (widgets : list WidgetData) (done : bool) : fan :=
  {| workers := widgets; resultsCh := []; results := ∅;
     ctxDone := done; chanCap := length widgets |}.

(** A goroutine at its [select] sends its result while the buffer has
    room, or returns without sending once [ctx.Done()] is closed; when
    both cases are ready either may be taken.  The context of the caller
    may be done at any moment.  The collecting loop takes the results in
    the order they were sent: [results[result.ID] = result]. *)
Inductive fanStep : fan -> fan -> Prop :=
| fan_send before w after buf res done cap :
    (length buf < cap)%nat ->
    fanStep {| workers := before ++ w :: after; resultsCh := buf;
               results := res; ctxDone := done; chanCap := cap |}
            {| workers := before ++ after;
               resultsCh := buf ++ [widgetResult w];
               results := res; ctxDone := done; chanCap := cap |}
| fan_drop before w after buf res cap :
    fanStep {| workers := before ++ w :: after; resultsCh := buf;
               results := res; ctxDone := true; chanCap := cap |}
            {| workers := before ++ after; resultsCh := buf;
               results := res; ctxDone := true; chanCap := cap |}
| fan_cancel ws buf res cap :
    fanStep {| workers := ws; resultsCh := buf;
               results := res; ctxDone := false; chanCap := cap |}
            {| workers := ws; resultsCh := buf;
               results := res; ctxDone := true; chanCap := cap |}
| fan_collect ws r buf res done cap :
    fanStep {| workers := ws; resultsCh := r :: buf;
               results := res; ctxDone := done; chanCap := cap |}
            {| workers := ws; resultsCh := buf;
               results := <[result_ID r := r]> res;
               ctxDone := done; chanCap := cap |}.

Inductive fanSteps : fan -> fan -> Prop :=
| fanSteps_refl s : fanSteps s s
| fanSteps_step s1 s2 s3 : fanStep s1 s2 -> fanSteps s2 s3 -> fanSteps s1 s3.

(** The buffer has room for every goroutine that has not sent yet. *)
Definition fanRoomy (s : fan) : Prop :=
  (length (resultsCh s) + length (workers s) <= chanCap s)%nat.

(** The map the collecting loop makes of what the channel holds. *)
Definition collected (buf : list WidgetResult) (res : gmap string WidgetResult)
  : gmap string WidgetResult :=
  fold_left (fun res r => <[result_ID r := r]> res) buf res.

(** What the channel and the map hold came from the widgets, and while
    the context is live nothing a widget produced is lost. *)
Definition fanInv (widgets : list WidgetData) (s : fan) : Prop :=
  (forall w, w ∈ workers s -> w ∈ widgets) /\
  (forall r, r ∈ resultsCh s -> exists w, w ∈ widgets /\ r = widgetResult w) /\
  (forall id r, results s !! id = Some r ->
     exists w, w ∈ widgets /\ widget_ID w = id /\ r = widgetResult w) /\
  (ctxDone s = false ->
   forall w, w ∈ widgets ->
     w ∈ workers s \/
     (exists r, r ∈ resultsCh s /\ result_ID r = widget_ID w) \/
     is_Some (results s !! widget_ID w)).

(** [ExecuteWidgetQueries] returns [res], the context being done or not
    ([done]) by then: every goroutine has ended ([wg.Wait()]), the
    channel is closed and the loop over it has taken all it held. *)
Definition ExecuteWidgetQueries_returns (widgets : list WidgetData)
    (done0 : bool) (res : gmap string WidgetResult) (done : bool) : Prop :=
  exists s,
    fanSteps (fanStart widgets done0) s /\
    workers s = [] /\ resultsCh s = [] /\
    res = results s /\ done = ctxDone s.

(** One of the schedules, under a context that stays live: the
    goroutines send in the order of [widgets]. *)
Definition ExecuteWidgetQueries_in_order (widgets : list WidgetData)
  : gmap string WidgetResult :=
  fold_left (fun res w => <[widget_ID w := widgetResult w]> res) widgets ∅.

End metric.

(** ** Package [prometheus]: the enhanced gatherer *)
Module prometheus.
Import model.

Definition DefaultTimeout : Z := 5 * Second.
Definition MinTimeout : Z := 1 * Second.
Definition MaxTimeout : Z := 30 * Second.

Record gathererMetrics : Type :=
  { queriesTotal : Z;
    queriesSuccessful : Z;
    queriesFailed : Z;
    queriesTimeout : Z;
    averageExecTime : Z }.

(** [metrics] is a pointer that may be nil; [base], the wrapped
    gatherer, shows through the answers of [attemptEnv]. *)
Record enhancedGatherer : Type :=
  { id : string;
    timeout : Z;
    lastExecTime : Z;
    metrics : option gathererMetrics }.

Record GathererStats : Type :=
  { TotalQueries : Z;
    SuccessfulQueries : Z;
    FailedQueries : Z;
    TimeoutQueries : Z;
    AverageExecTime : Z;
    LastExecutionTime : Z;
    CurrentTimeout : Z }.

Definition NewEnhancedGatherer (datasourceID : string) : enhancedGatherer :=
  {| id := datasourceID;
     timeout := DefaultTimeout;
     lastExecTime := 0;
     metrics := Some {| queriesTotal := 0; queriesSuccessful := 0;
                        queriesFailed := 0; queriesTimeout := 0;
                        averageExecTime := 0 |} |}.

Definition ID (eg : enhancedGatherer) : string := id eg.

Definition SetTimeout (eg : enhancedGatherer) (duration : Z)
  : enhancedGatherer :=
  let d1 := if duration <=? 0 then DefaultTimeout else duration in
  let d2 := if 30 * Second <? d1 then 30 * Second else d1 in
  let d3 := if d2 <? Second then Second else d2 in
  {| id := id eg; timeout := d3; lastExecTime := lastExecTime eg;
     metrics := metrics eg |}.

Definition timeoutDuration (eg : enhancedGatherer) : Z := timeout eg.

Definition withMetrics (eg : enhancedGatherer) (m : gathererMetrics)
  : enhancedGatherer :=
  {| id := id eg; timeout := timeout eg; lastExecTime := lastExecTime eg;
     metrics := Some m |}.

Definition markSuccess (eg : enhancedGatherer) : enhancedGatherer :=
  match metrics eg with
  | None => eg
  | Some m =>
      withMetrics eg
        {| queriesTotal := int64 (queriesTotal m + 1);
           queriesSuccessful := int64 (queriesSuccessful m + 1);
           queriesFailed := queriesFailed m;
           queriesTimeout := queriesTimeout m;
           averageExecTime := averageExecTime m |}
  end.

Definition markFailure (eg : enhancedGatherer) : enhancedGatherer :=
  match metrics eg with
  | None => eg
  | Some m =>
      withMetrics eg
        {| queriesTotal := int64 (queriesTotal m + 1);
           queriesSuccessful := queriesSuccessful m;
           queriesFailed := int64 (queriesFailed m + 1);
           queriesTimeout := queriesTimeout m;
           averageExecTime := averageExecTime m |}
  end.

Definition markTimeout (eg : enhancedGatherer) : enhancedGatherer :=
  match metrics eg with
  | None => eg
  | Some m =>
      withMetrics eg
        {| queriesTotal := int64 (queriesTotal m + 1);
           queriesSuccessful := queriesSuccessful m;
           queriesFailed := queriesFailed m;
           queriesTimeout := int64 (queriesTimeout m + 1);
           averageExecTime := averageExecTime m |}
  end.

(** [if eg.metrics != nil { mark() }] *)
Definition ifMetrics (mark : enhancedGatherer -> enhancedGatherer)
    (eg : enhancedGatherer) : enhancedGatherer :=
  match metrics eg with
  | Some _ => mark eg
  | None => eg
  end.

(** [isContextError] of package [prometheus]: three words looked for in
    the message. *)
Definition isContextError (err : option error) : bool :=
  match err with
  | None => false
  | Some e =>
      Contains (Error e) "deadline exceeded"
      || Contains (Error e) "canceled"
      || Contains (Error e) "timeout"
  end.

Definition maxRetries : nat := 2.

(** What one turn of a retry loop reads from outside: [ctx.Err()] at its
    top, the answer of the wrapped gatherer, the branch of the backoff
    [select]. *)
Record attemptEnv : Type :=
  { ctxAtTop : ctxErr;
    queried : result (list MetricSeries);
    backoffSelect : selected }.

(** The loop of [executeWithRetry] and of [executeWithRetryForRange],
    which differ in the text [deadlineMsg] put before a context error
    found at the top of a turn and in the [step] of the backoff; from
    turn [retry] with [fuel] turns left. *)
Fixpoint retryLoop (deadlineMsg : string) (step : Z)
    (env : nat -> attemptEnv) (fuel retry : nat) (lastErr : option error)
    (eg : enhancedGatherer) (log : list event)
  : enhancedGatherer * list event * result (list MetricSeries) :=
  match fuel with
  | O =>
      (ifMetrics markFailure eg, log,
       match lastErr with
       | Some e => Err e
       | None => Ok []
       end)
  | S fuel' =>
      match ctxAtTop (env retry) with
      | Some e => (ifMetrics markTimeout eg, log, Err (Errorf deadlineMsg e))
      | None =>
          let log1 := log ++ [Attempt retry] in
          match queried (env retry) with
          | Ok r => (ifMetrics markSuccess eg, log1, Ok r)
          | Err err =>
              if isContextError (Some err) then
                (ifMetrics markTimeout eg, log1, Err err)
              else if (retry <? maxRetries - 1)%nat then
                let backoff := Z.of_nat (retry + 1) * Millisecond * step in
                match backoffSelect (env retry) with
                | TimerFired =>
                    retryLoop deadlineMsg step env fuel' (S retry)
                              (Some err) eg (log1 ++ [Sleep backoff])
                | CtxDone e => (eg, log1, Err e)
                end
              else
                retryLoop deadlineMsg step env fuel' (S retry)
                          (Some err) eg log1
          end
      end
  end.

Definition executeWithRetry (eg : enhancedGatherer) (env : nat -> attemptEnv)
  : enhancedGatherer * list event * result (list MetricSeries) :=
  retryLoop "query deadline exceeded: " 100 env maxRetries 0%nat None eg [].

Definition executeWithRetryForRange (eg : enhancedGatherer)
    (env : nat -> attemptEnv)
  : enhancedGatherer * list event * result (list MetricSeries) :=
  retryLoop "range query deadline exceeded: " 250 env maxRetries 0%nat
            None eg [].

(** [float64(rangeSize) / float64(1*time.Hour)] *)
Definition scaleFactor (rangeSize : Z) : Q :=
  float64.div (float64.of_int rangeSize) (float64.of_int (1 * Hour)).

Definition calculateRangeTimeout (eg : enhancedGatherer) (start end_ : Z)
  : Z :=
  let rangeSize := Sub end_ start in
  let baseTimeout := timeoutDuration eg in
  let scaleFactor := scaleFactor rangeSize in
  if float64.gtb scaleFactor 1 then
    let timeout :=
      float64.to_int (float64.mul (float64.of_int baseTimeout) scaleFactor) in
    if 30 * Second <? timeout then 30 * Second else timeout
  else baseTimeout.

Definition recordExecutionTime (eg : enhancedGatherer) (duration : Z)
  : enhancedGatherer :=
  match metrics eg with
  | None => eg
  | Some m =>
      withMetrics eg
        {| queriesTotal := queriesTotal m;
           queriesSuccessful := queriesSuccessful m;
           queriesFailed := queriesFailed m;
           queriesTimeout := queriesTimeout m;
           averageExecTime :=
             if 0 <? queriesSuccessful m then
               float64.to_int
                 (float64.div
                    (float64.add (float64.of_int (averageExecTime m))
                                 (float64.of_int duration))
                    2)
             else duration |}
  end.

Definition getLastExecutionTime (eg : enhancedGatherer) : Z :=
  match metrics eg with
  | None => 0
  | Some m => averageExecTime m
  end.

(** [GatherSingle]; [elapsed] is what [time.Since(start)] reads when the
    call returns. *)
Definition GatherSingle (eg : enhancedGatherer) (env : nat -> attemptEnv)
    (elapsed : Z)
  : enhancedGatherer * list event * result (list MetricSeries) :=
  let '(eg1, log, r) := executeWithRetry eg env in
  (recordExecutionTime eg1 elapsed, WithTimeout (timeoutDuration eg) :: log, r).

Definition GatherRange (eg : enhancedGatherer) (start end_ : Z)
    (env : nat -> attemptEnv) (elapsed : Z)
  : enhancedGatherer * list event * result (list MetricSeries) :=
  let adjustedTimeout := calculateRangeTimeout eg start end_ in
  let '(eg1, log, r) := executeWithRetryForRange eg env in
  (recordExecutionTime eg1 elapsed, WithTimeout adjustedTimeout :: log, r).

Definition GetMetrics (eg : enhancedGatherer) : GathererStats :=
  match metrics eg with
  | None =>
      {| TotalQueries := 0; SuccessfulQueries := 0; FailedQueries := 0;
         TimeoutQueries := 0; AverageExecTime := 0; LastExecutionTime := 0;
         CurrentTimeout := 0 |}
  | Some m =>
      {| TotalQueries := queriesTotal m;
         SuccessfulQueries := queriesSuccessful m;
         FailedQueries := queriesFailed m;
         TimeoutQueries := queriesTimeout m;
         AverageExecTime := averageExecTime m;
         LastExecutionTime := getLastExecutionTime eg;
         CurrentTimeout := timeoutDuration eg |}
  end.

(** The counters agree: [queriesTotal] is the sum, in int64, of the
    three outcomes. *)
Definition countersAgree (eg : enhancedGatherer) : Prop :=
  match metrics eg with
  | None => True
  | Some m =>
      queriesTotal m
      = int64 (queriesSuccessful m + queriesFailed m + queriesTimeout m)
  end.

(** The gatherers a program can hold: made by [NewEnhancedGatherer] and
    changed by [SetTimeout] only, as [timeout] is not exported. *)
Inductive reachable : enhancedGatherer -> Prop :=
| reachable_new datasourceID : reachable (NewEnhancedGatherer datasourceID)
| reachable_SetTimeout eg duration :
    reachable eg -> reachable (SetTimeout eg duration)
| reachable_mark eg mark :
    reachable eg -> In mark [markSuccess; markFailure; markTimeout] ->
    reachable (mark eg)
| reachable_record eg duration :
    reachable eg -> reachable (recordExecutionTime eg duration).

End prometheus.

(** ** Package [datasource]: the router *)
Module datasource.
Import model.

(** The four kinds of [model.Datasource], with the fields the default
    creators read. *)
Record PrometheusDatasource : Type := { prom_Address : string }.
Record GraphiteDatasource : Type := { graphite_Address : string }.
Record InfluxDBDatasource : Type :=
  { influx_Address : string; influx_Insecure : bool;
    influx_Username : string; influx_Password : string;
    influx_Database : string }.
Record FakeDatasource : Type := {}.

(** [model.Datasource]: an ID and one pointer per kind, nil when the
    data source is not of that kind. *)
Record Datasource : Type :=
  { ID : string;
    Prometheus : option PrometheusDatasource;
    Graphite : option GraphiteDatasource;
    InfluxDB : option InfluxDBDatasource;
    Fake : option FakeDatasource }.

(** Which of the two passes of [NewGatherer] made a gatherer. *)
Inductive origin : Type :=
| FromDashboard
| FromUser.

Section Router.
(** What a backend client is, and what it answers. *)
Variable client : Type.
Variable clientGatherSingle :
  client -> Query -> Z -> result (list MetricSeries).
Variable clientGatherRange :
  client -> Query -> Z -> Z -> Z -> result (list MetricSeries).
(** The creators that [defaults] installs; they build the clients of
    the backend libraries. *)
Variable defaultCreateFake : FakeDatasource -> result client.
Variable defaultCreatePrometheus : PrometheusDatasource -> result client.
Variable defaultCreateGraphite : GraphiteDatasource -> result client.
Variable defaultCreateInfluxDB : InfluxDBDatasource -> result client.

(** A [metric.Gatherer] held by the router is a pointer: the object
    made by the [index]-th call of [createGatherer] of one pass is told
    from every other by [made] and [index]. *)
Record Gatherer : Type :=
  { made : origin; index : nat; backend : client }.

Record ConfigGatherer : Type :=
  { DashboardDatasources : list Datasource;
    UserDatasources : list Datasource;
    Aliases : gmap string string;
    CreateFakeFunc : option (FakeDatasource -> result client);
    CreatePrometheusFunc : option (PrometheusDatasource -> result client);
    CreateGraphiteFunc : option (GraphiteDatasource -> result client);
    CreateInfluxDBFunc : option (InfluxDBDatasource -> result client) }.

Definition defaults (c : ConfigGatherer) : ConfigGatherer :=
  {| DashboardDatasources := DashboardDatasources c;
     UserDatasources := UserDatasources c;
     Aliases := Aliases c;
     CreateFakeFunc :=
       Some (default defaultCreateFake (CreateFakeFunc c));
     CreatePrometheusFunc :=
       Some (default defaultCreatePrometheus (CreatePrometheusFunc c));
     CreateGraphiteFunc :=
       Some (default defaultCreateGraphite (CreateGraphiteFunc c));
     CreateInfluxDBFunc :=
       Some (default defaultCreateInfluxDB (CreateInfluxDBFunc c)) |}.

(** [createGatherer]; [cfg] has been through [defaults]. *)
Definition createGatherer (cfg : ConfigGatherer) (ds : Datasource)
    (dsID : string) : result client :=
  match Prometheus ds, Graphite ds, InfluxDB ds, Fake ds with
  | Some p, _, _, _ =>
      default defaultCreatePrometheus (CreatePrometheusFunc cfg) p
  | None, Some g, _, _ =>
      default defaultCreateGraphite (CreateGraphiteFunc cfg) g
  | None, None, Some i, _ =>
      default defaultCreateInfluxDB (CreateInfluxDBFunc cfg) i
  | None, None, None, Some f =>
      default defaultCreateFake (CreateFakeFunc cfg) f
  | None, None, None, None => Err (ErrorsNew "not a valid datasource")
  end.

(** One pass over a list of data sources:
    [for _, ds := range dss { g, err := createGatherer(...); ...; gs[ds.ID] = g }]
    from the [i]-th creation on. *)
Fixpoint createAll (cfg : ConfigGatherer) (o : origin) (i : nat)
    (dss : list Datasource) (gs : gmap string Gatherer)
  : result (gmap string Gatherer) :=
  match dss with
  | [] => Ok gs
  | ds :: rest =>
      match createGatherer cfg ds (ID ds) with
      | Err e => Err e
      | Ok g =>
          createAll cfg o (S i) rest
                    (<[ID ds := {| made := o; index := i; backend := g |}]> gs)
      end
  end.

(** [for id := range gs { g, ok := ags[id]; if ok { gs[id] = g } }] *)
Definition useUserDatasources (ags gs : gmap string Gatherer)
  : gmap string Gatherer :=
  map_imap (λ id g, Some (default g (ags !! id))) gs.

(** [for id, alias := range cfg.Aliases { ... }], the entries taken in
    the order [order]. *)
Fixpoint applyAliases (order : list (string * string))
    (ags gs : gmap string Gatherer) : result (gmap string Gatherer) :=
  match order with
  | [] => Ok gs
  | (id, alias) :: rest =>
      match ags !! alias with
      | None =>
          Err (ErrorsNew ("alias " +:+ alias +:+ " for ID " +:+ id
                          +:+ " not found"))
      | Some ag => applyAliases rest ags (<[id := ag]> gs)
      end
  end.

(** The router. *)
Record gatherer : Type :=
  { cfg_ : ConfigGatherer; gatherers : gmap string Gatherer }.

(** [NewGatherer].  Go ranges over a map in an order of its own
    choosing: [order] is the order in which the entries of
    [cfg.Aliases] come, a permutation of [map_to_list (Aliases cfg)]. *)
Definition NewGatherer (cfg0 : ConfigGatherer)
    (order : list (string * string)) : result gatherer :=
  let cfg := defaults cfg0 in
  match createAll cfg FromDashboard 0 (DashboardDatasources cfg) ∅ with
  | Err e => Err e
  | Ok gs =>
      match createAll cfg FromUser 0 (UserDatasources cfg) ∅ with
      | Err e => Err e
      | Ok ags =>
          match applyAliases order ags (useUserDatasources ags gs) with
          | Err e => Err e
          | Ok gs' => Ok {| cfg_ := cfg; gatherers := gs' |}
          end
      end
  end.

Definition metricGatherer (g : gatherer) (id : string) : result Gatherer :=
  match gatherers g !! id with
  | None => Err (ErrorsNew ("datasource " +:+ id +:+ " does not exists"))
  | Some mg => Ok mg
  end.

Definition GatherSingle (g : gatherer) (query : Query) (t : Z)
  : result (list MetricSeries) :=
  match metricGatherer g (DatasourceID query) with
  | Err e => Err e
  | Ok dsg => clientGatherSingle (backend dsg) query t
  end.

Definition GatherRange (g : gatherer) (query : Query) (start end_ step : Z)
  : result (list MetricSeries) :=
  match metricGatherer g (DatasourceID query) with
  | Err e => Err e
  | Ok dsg => clientGatherRange (backend dsg) query start end_ step
  end.

End Router.

Arguments made {client} _.
Arguments index {client} _.
Arguments backend {client} _.
Arguments DashboardDatasources {client} _.
Arguments UserDatasources {client} _.
Arguments Aliases {client} _.
Arguments CreateFakeFunc {client} _.
Arguments CreatePrometheusFunc {client} _.
Arguments CreateGraphiteFunc {client} _.
Arguments CreateInfluxDBFunc {client} _.
Arguments cfg_ {client} _.
Arguments gatherers {client} _.
Arguments useUserDatasources {client} ags gs.
Arguments applyAliases {client} order ags gs.
Arguments metricGatherer {client} g id.
Arguments GatherSingle {client} clientGatherSingle g query t.
Arguments GatherRange {client} clientGatherRange g query start end_ step.

End datasource.

(** ** Package [page]: the dashboard *)
Module page.

(** What [widget.Sync(widgetCtx, r)] does in one wave: it returns [err],
    and [widgetCtx.Err()] read after that is [ctxAfter]; or it panics
    with a value printed as [v]. *)
Inductive widgetSync : Type :=
| Returned (err : option error) (ctxAfter : ctxErr)
| Panicked (v : string).

(** A widget of [d.widgets]; [None] is a nil [Syncer]. *)
Definition widget : Type := option widgetSync.

(** The body of the goroutine started for one widget: the error it
    sends to [errorChan], if any, before [wg.Done()]. *)
Definition widgetTask (w : widget) : option error :=
  match w with
  | None => Some (ErrorsNew "widget is nil, skipping sync")
  | Some (Panicked v) =>
      Some (ErrorsNew ("widget sync panic recovered: " +:+ v))
  | Some (Returned None _) => None
  | Some (Returned (Some err) (Some DeadlineExceeded)) =>
      Some (Errorf "widget sync timeout: " err)
  | Some (Returned (Some err) (Some Canceled)) =>
      Some (Errorf "widget sync canceled: " err)
  | Some (Returned (Some err) _) =>
      Some (Errorf "error syncing widget: " err)
  end.

(** The widget did not sync: it is nil, or its [Sync] panicked or
    returned an error. *)
Definition failed (w : widget) : bool :=
  match w with
  | Some (Returned None _) => false
  | _ => true
  end.

(** A wave in flight: the goroutines that have not finished, the
    buffer of [errorChan] and its capacity. *)
Record wave : Type :=
  { running : list widget; errorChan : list error; capacity : nat }.

(** [errorChan := make(chan error, len(d.widgets))] and one goroutine
    per widget. *)
Definition start (widgets : list widget) : wave :=
  {| running := widgets; errorChan := []; capacity := length widgets |}.

(** One goroutine runs to its end.  One that has an error to send can
    do so only while the buffer has room: nothing receives from
    [errorChan] before [wg.Wait()] returns. *)
Inductive step : wave -> wave -> Prop :=
| step_quiet before w after buf cap :
    widgetTask w = None ->
    step {| running := before ++ w :: after; errorChan := buf; capacity := cap |}
         {| running := before ++ after; errorChan := buf; capacity := cap |}
| step_send before w after buf cap e :
    widgetTask w = Some e ->
    (length buf < cap)%nat ->
    step {| running := before ++ w :: after; errorChan := buf; capacity := cap |}
         {| running := before ++ after; errorChan := buf ++ [e]; capacity := cap |}.

(** The buffer has room for every goroutine still running. *)
Definition roomy (s : wave) : Prop :=
  (length (errorChan s) + length (running s) <= capacity s)%nat.

Inductive steps : wave -> wave -> Prop :=
| steps_refl s : steps s s
| steps_step s1 s2 s3 : step s1 s2 -> steps s2 s3 -> steps s1 s3.

(** [dashboard.Sync] returns [ret] after logging [logged]: every
    goroutine is done ([wg.Wait()]), the channel is closed and drained
    into the logger, and the function returns nil. *)
Definition Sync_returns (widgets : list widget) (logged : list string)
    (ret : option error) : Prop :=
  exists s,
    steps (start widgets) s /\ running s = [] /\
    logged = map Error (errorChan s) /\ ret = None.

(** The goroutines run one after the other in the order of [d.widgets]:
    one of the schedules. *)
Definition Sync_in_order (widgets : list widget) : list string * option error :=
  (map Error (omap widgetTask widgets), None).

End page.

(** ** Package [view]: the application *)
Module view.

Record AppConfig : Type :=
  { RefreshInterval : Z;
    TimeRangeStart : Z;
    TimeRangeEnd : Z;
    RelativeTimeRange : Z }.

Definition defRelativeTimeRange : Z := 1 * Hour.
Definition defRefreshInterval : Z := 10 * Second.

(** [AppConfig.defaults] *)
Definition defaults (a : AppConfig) : AppConfig :=
  {| RefreshInterval :=
       if RefreshInterval a =? 0 then defRefreshInterval
       else RefreshInterval a;
     TimeRangeStart := TimeRangeStart a;
     TimeRangeEnd := TimeRangeEnd a;
     RelativeTimeRange :=
       if RelativeTimeRange a =? 0 then defRelativeTimeRange
       else RelativeTimeRange a |}.

(** The instants are counted from the zero [time.Time]: [t.IsZero()] *)
Definition IsZero (t : Z) : bool := t =? 0.

(** [viewsync.Request], without the template data made of its two
    instants. *)
Record Request : Type := { req_TimeRangeStart : Z; req_TimeRangeEnd : Z }.

(** What [a.syncer.Sync(ctx, r)] does in one sync: it returns [err], and
    [ctx.Err()] read after that is [ctxAfter]; or it panics with a value
    printed as [v]. *)
Inductive syncOutcome : Type :=
| SyncReturned (err : option error) (ctxAfter : ctxErr)
| SyncPanicked (v : string).

(** A [viewsync.Syncer]: what its [k]-th call does with the request. *)
Definition Syncer : Type := nat -> Request -> syncOutcome.

Record App : Type :=
  { syncer : option Syncer; cfg : AppConfig; running : bool }.

(** [NewApp] *)
Definition NewApp (cfg : AppConfig) (syncer : option Syncer) : App :=
  {| syncer := syncer; cfg := defaults cfg; running := false |}.

(** [App.syncRequest]; [now] is the reading of [time.Now().UTC()]. *)
Definition syncRequest (a : App) (now : Z) : Request :=
  let end_ :=
    if IsZero (TimeRangeEnd (cfg a)) then now else TimeRangeEnd (cfg a) in
  let start :=
    if IsZero (TimeRangeStart (cfg a))
    then end_ + int64 (-1 * RelativeTimeRange (cfg a))
    else TimeRangeStart (cfg a) in
  {| req_TimeRangeStart := start; req_TimeRangeEnd := end_ |}.

(** What a run of the application shows: a call of the syncer with its
    request, a line given to [a.logger.Errorf]. *)
Inductive appEvent : Type :=
| SyncCalled (r : Request)
| Logged (line : string).

(** [App.sync], the [k]-th of a run. *)
Definition sync (a : App) (k : nat) (now : Z) : list appEvent :=
  match syncer a with
  | None => [Logged "syncer is nil, cannot sync"]
  | Some s =>
      let r := syncRequest a now in
      SyncCalled r ::
      match s k r with
      | SyncPanicked v => [Logged ("app sync panic recovered: " +:+ v)]
      | SyncReturned None _ => []
      | SyncReturned (Some err) (Some DeadlineExceeded) =>
          [Logged ("app sync timeout after 8s: " +:+ Error err)]
      | SyncReturned (Some err) (Some Canceled) =>
          [Logged ("app sync canceled: " +:+ Error err)]
      | SyncReturned (Some err) _ =>
          [Logged ("app level error, syncer failed sync: " +:+ Error err)]
      end
  end.

(** How [App.Run] ends: it returns [err], or the panic of
    [time.NewTicker] on an interval that is not positive goes through
    it. *)
Inductive runOutcome : Type :=
| RunReturned (err : option error)
| RunPanicked (v : string).

(** [App.Run] on a context that is done after [ticks] ticks of the
    ticker have been taken by the [select]; [nows k] is the clock read
    by the [k]-th sync. *)
Definition Run (a : App) (nows : nat -> Z) (ticks : nat)
  : App * list appEvent * runOutcome :=
  if running a then
    (a, [], RunReturned (Some (ErrorsNew "already running")))
  else
    let a1 := {| syncer := syncer a; cfg := cfg a; running := true |} in
    let first := sync a1 0 (nows 0%nat) in
    if RefreshInterval (cfg a1) <=? 0 then
      (a1, first, RunPanicked "non-positive interval for NewTicker")
    else
      (a1,
       first ++ concat (map (fun k => sync a1 k (nows k)) (seq 1 ticks)),
       RunReturned None).

(** The requests the syncer was called with. *)
Definition requests (evs : list appEvent) : list Request :=
  omap (fun ev => match ev with SyncCalled r => Some r | _ => None end) evs.

End view.

(** ** Package [widget]: the gauge *)
Module widget.

(** The fields of [model.Widget.Gauge] read here; [Max] and [Min] are
    integers of the machine word, converted where they meet a float64. *)
Record GaugeWidgetSource : Type :=
  { PercentValue : bool; Max : Z; Min : Z }.

(** [gauge.getPercentValue] *)
Definition getPercentValue (g : GaugeWidgetSource) (val : Q) : Q :=
  let val1 :=
    if negb (Max g =? 0) then
      let val' := float64.sub val (float64.of_int (Min g)) in
      let cap := int64 (Max g - Min g) in
      float64.mul (float64.div val' (float64.of_int cap)) (inject_Z 100)
    else val in
  let val2 := if float64.gtb val1 (inject_Z 100) then inject_Z 100 else val1 in
  if float64.ltb val2 0 then 0%Q else val2.


(** [gauge.changeWidgetColor] and [singlestat.changeWidgetColor], which
    read alike.  [picked] is the answer of
    [widgetColorManager{}.GetColorFromThresholds] and [setColor] that of
    [rendererWidget.SetColor]; the result is the new [currentColor], the
    colours [SetColor] was called with, and the error returned. *)
Definition changeWidgetColor (thresholds : nat) (currentColor : string)
    (picked : result string) (setColor : string -> option error)
  : string * list string * option error :=
  if (thresholds =? 0)%nat then (currentColor, [], None)
  else
    match picked with
    | Err err =>
        (currentColor, [], Some (Errorf "error getting threshold color: " err))
    | Ok color =>
        if String.eqb color currentColor then (currentColor, [], None)
        else
          match setColor color with
          | Some err =>
              (currentColor, [color],
               Some (Errorf "error setting color on view widget: " err))
          | None => (color, [color], None)
          end
    end.

End widget.

(** ** Package [termdash]: the gauge on the terminal *)
Module termdash.



End termdash.

(** ** Inputs of the examples *)
Module samples.
Import model.

(** In the examples a digest that returns its input stands for
    [sha256hex], and the length of a range for [tr.Range]: no result
    below depends on the choice. *)
Definition plainDigest (s : string) : string := s.
Definition span (tr : TimeRange) : Z := End tr - Start tr.

Definition upSeries : list MetricSeries :=
  [{| ID := "up"; Labels := []; Metrics := [{| Value := 1; TS := 0 |}] |}].

Definition firstMinute : TimeRange := {| Start := 0; End := 60 * Second |}.
Definition laterMinute : TimeRange :=
  {| Start := 3600 * Second; End := 3660 * Second |}.

Definition atZero : metric.setClock :=
  {| metric.nowEvict := 0; metric.nowCreated := 0; metric.nowExpires := 0 |}.

Definition upKey (tr : TimeRange) : metric.MetricCacheKey :=
  metric.NewCacheKey span "prom" "up" tr.

(** A cache with a TTL of 30s that holds [upSeries] for the query [up]
    on [prom], stored at instant 0. *)
Definition warmCache : metric.MetricCache :=
  metric.MetricCache_Set plainDigest (metric.NewMetricCache 100 (30 * Second))
    (upKey {| Start := 0; End := 0 |}) upSeries atZero.

(** A backend that refuses every connection, under a context that
    stays live. *)
Definition refusing (n : nat) : metric.attemptEnv :=
  {| metric.ctxAtTop := None; metric.backoffSelect := TimerFired;
     metric.gathered := Err (ErrorsNew "connection refused");
     metric.ctxAfter := None |}.

(** A query at 31s, when the entry of [warmCache] has expired. *)
Definition refusedAt31s : metric.execEnv :=
  {| metric.getNow := 31 * Second; metric.admitted := metric.SlotAcquired;
     metric.attempts := refusing; metric.setNow := atZero |}.

Definition upQuery : Query := {| Expr := "up"; DatasourceID := "prom" |}.

(** The entry of [warmCache], and a second query on the same data
    source. *)
Definition upEntry : metric.cacheEntry :=
  {| metric.data := upSeries; metric.created := 0;
     metric.expires := 30 * Second; metric.entry_hits := 0 |}.

Definition downKey : metric.MetricCacheKey :=
  metric.NewCacheKey span "prom" "down" firstMinute.

(** A cache made for one entry that holds one. *)
Definition fullCache : metric.MetricCache :=
  metric.MetricCache_Set plainDigest (metric.NewMetricCache 1 (30 * Second))
    (upKey firstMinute) upSeries atZero.

(** Two lookups, a store, a [Clear], a pass of the cleanup and a last
    lookup. *)
Definition someCalls : list metric.cacheCall :=
  [metric.CallGet (upKey firstMinute) Second;
   metric.CallSet (upKey firstMinute) upSeries atZero;
   metric.CallGet (upKey firstMinute) (2 * Second);
   metric.CallClear;
   metric.Tick (40 * Second);
   metric.CallGet downKey (41 * Second)].

(** The same backend behind the enhanced gatherer. *)
Definition refusingProm (n : nat) : prometheus.attemptEnv :=
  {| prometheus.ctxAtTop := None;
     prometheus.queried := Err (ErrorsNew "connection refused");
     prometheus.backoffSelect := TimerFired |}.

(** The first attempt is refused and the deadline of the context falls
    during the backoff that follows. *)
Definition deadlineInBackoff (n : nat) : prometheus.attemptEnv :=
  {| prometheus.ctxAtTop := None;
     prometheus.queried := Err (ErrorsNew "connection refused");
     prometheus.backoffSelect := CtxDone DeadlineExceeded |}.

(** The backend answers with an error of its own that speaks of a
    timeout. *)
Definition requestTimeout (n : nat) : prometheus.attemptEnv :=
  {| prometheus.ctxAtTop := None;
     prometheus.queried := Err (ErrorsNew "request timeout");
     prometheus.backoffSelect := TimerFired |}.

(** A cache that has served one hit and two misses. *)
Definition oneHitTwoMisses : metric.MetricCache :=
  {| metric.entries := ∅; metric.maxSize := 100;
     metric.maxAge := 30 * Second; metric.hits := 1; metric.misses := 2 |}.

(** Clients that are told apart by the address they were made for. *)
Definition fakeClient (ds : datasource.FakeDatasource) : result string :=
  Ok "fake".
Definition promClient (ds : datasource.PrometheusDatasource) : result string :=
  Ok (datasource.prom_Address ds).
Definition graphiteClient (ds : datasource.GraphiteDatasource)
  : result string := Ok (datasource.graphite_Address ds).
Definition influxClient (ds : datasource.InfluxDBDatasource) : result string :=
  Ok (datasource.influx_Address ds).

Definition promDatasource (id address : string) : datasource.Datasource :=
  {| datasource.ID := id;
     datasource.Prometheus := Some {| datasource.prom_Address := address |};
     datasource.Graphite := None;
     datasource.InfluxDB := None;
     datasource.Fake := None |}.

(** The dashboard names [prometheus] and [prom2]; the user has a
    [prometheus] and a [localprom] of their own, and [aliases] on top. *)
Definition routerConfig (aliases : gmap string string)
  : datasource.ConfigGatherer string :=
  {| datasource.DashboardDatasources :=
       [promDatasource "prometheus" "http://dashboard:9090";
        promDatasource "prom2" "http://dashboard2:9090"];
     datasource.UserDatasources :=
       [promDatasource "prometheus" "http://user:9090";
        promDatasource "localprom" "http://127.0.0.1:9090"];
     datasource.Aliases := aliases;
     datasource.CreateFakeFunc := None;
     datasource.CreatePrometheusFunc := None;
     datasource.CreateGraphiteFunc := None;
     datasource.CreateInfluxDBFunc := None |}.

Definition newRouter (aliases : gmap string string)
  : result (datasource.gatherer string) :=
  datasource.NewGatherer string fakeClient promClient graphiteClient
    influxClient (routerConfig aliases) (map_to_list aliases).


(** A backend that answers at once, behind the executor and behind the
    enhanced gatherer. *)
Definition answering (n : nat) : metric.attemptEnv :=
  {| metric.ctxAtTop := None; metric.backoffSelect := TimerFired;
     metric.gathered := Ok upSeries; metric.ctxAfter := None |}.

Definition answeringProm (n : nat) : prometheus.attemptEnv :=
  {| prometheus.ctxAtTop := None; prometheus.queried := Ok upSeries;
     prometheus.backoffSelect := TimerFired |}.

(** An enhanced gatherer whose own deadline has passed, seen from the
    executor, whose context lives on. *)
Definition gathererTimedOut (n : nat) : metric.attemptEnv :=
  {| metric.ctxAtTop := None; metric.backoffSelect := TimerFired;
     metric.gathered :=
       Err (Errorf "query deadline exceeded: " DeadlineExceeded);
     metric.ctxAfter := None |}.

(** A call made under a context that was cancelled before. *)
Definition cancelled (n : nat) : prometheus.attemptEnv :=
  {| prometheus.ctxAtTop := Some Canceled;
     prometheus.queried := Ok upSeries;
     prometheus.backoffSelect := TimerFired |}.

(** A first query on a new cache, answered; the same query 29s later,
    when the backend refuses; a query that finds no free slot. *)
Definition answeredAtZero : metric.execEnv :=
  {| metric.getNow := 0; metric.admitted := metric.SlotAcquired;
     metric.attempts := answering; metric.setNow := atZero |}.

Definition refusedAt29s : metric.execEnv :=
  {| metric.getNow := 29 * Second; metric.admitted := metric.SlotAcquired;
     metric.attempts := refusing; metric.setNow := atZero |}.

Definition noSlotAt31s : metric.execEnv :=
  {| metric.getNow := 31 * Second;
     metric.admitted := metric.WaitCtxDone DeadlineExceeded;
     metric.attempts := refusing; metric.setNow := atZero |}.

(** A gatherer that has recorded 100ms and then one success. *)
Definition oneSuccess : prometheus.enhancedGatherer :=
  prometheus.markSuccess
    (prometheus.recordExecutionTime (prometheus.NewEnhancedGatherer "test-ds")
       (100 * Millisecond)).

(** A data source that sets none of the four kinds. *)
Definition emptyDatasource (id : string) : datasource.Datasource :=
  {| datasource.ID := id;
     datasource.Prometheus := None;
     datasource.Graphite := None;
     datasource.InfluxDB := None;
     datasource.Fake := None |}.

Definition routerOf (dashboard user : list datasource.Datasource)
    (aliases : gmap string string) : datasource.ConfigGatherer string :=
  {| datasource.DashboardDatasources := dashboard;
     datasource.UserDatasources := user;
     datasource.Aliases := aliases;
     datasource.CreateFakeFunc := None;
     datasource.CreatePrometheusFunc := None;
     datasource.CreateGraphiteFunc := None;
     datasource.CreateInfluxDBFunc := None |}.

Definition newRouterOf (cfg : datasource.ConfigGatherer string)
    (order : list (string * string)) : result (datasource.gatherer string) :=
  datasource.NewGatherer string fakeClient promClient graphiteClient
    influxClient cfg order.

(** The dashboard declares [prometheus] twice. *)
Definition twicePrometheus : datasource.ConfigGatherer string :=
  routerOf [promDatasource "prometheus" "http://first:9090";
            promDatasource "prometheus" "http://second:9090"] [] ∅.

(** A data source of the user that is unused and not valid. *)
Definition unusedBroken : datasource.ConfigGatherer string :=
  routerOf [promDatasource "prometheus" "http://dashboard:9090"]
           [emptyDatasource "spare"] ∅.

Definition twoAliases : gmap string string :=
  {["prom2" := "localprom"; "prometheus" := "localprom"]}.

(** An application with no setting of its own. *)
Definition plainConfig : view.AppConfig :=
  {| view.RefreshInterval := 0; view.TimeRangeStart := 0;
     view.TimeRangeEnd := 0; view.RelativeTimeRange := 0 |}.

(** A gauge from 100 to 200 shown in percent. *)
Definition percentGauge : widget.GaugeWidgetSource :=
  {| widget.PercentValue := true; widget.Max := 200; widget.Min := 100 |}.

(** An error of a type of the backend's own: its message is its own,
    it has no [Is] method, and it unwraps to the deadline error of the
    context. *)
Definition unreachable : error :=
  Custom "backend unreachable" (fun _ => false) (Some DeadlineExceeded).

End samples.

(** * Properties *)

(** ** Go values *)

Lemma int64_small (z : Z) : - 2 ^ 63 <= z < 2 ^ 63 -> int64 z = z.
Proof.
  intros Hz. unfold int64.
  rewrite Z.mod_small by lia. lia.
Qed.

Lemma int64_range (z : Z) : - 2 ^ 63 <= int64 z < 2 ^ 63.
Proof.
  unfold int64.
  pose proof (Z.mod_pos_bound (z + 2 ^ 63) (2 ^ 64) ltac:(lia)). lia.
Qed.

(** Wrapping twice is wrapping once: counters may be added before or
    after they wrap. *)
Lemma int64_add_l (a b : Z) : int64 (int64 a + b) = int64 (a + b).
Proof.
  unfold int64. f_equal.
  replace (((a + 2 ^ 63) mod 2 ^ 64 - 2 ^ 63 + b) + 2 ^ 63)
    with ((a + 2 ^ 63) mod 2 ^ 64 + b) by lia.
  rewrite Zplus_mod_idemp_l. f_equal. lia.
Qed.

Lemma Contains_append (p s sub : string) :
  Contains s sub = true -> Contains (p +:+ s) sub = true.
Proof.
  intros Hs. induction p as [|c p IH]; simpl.
  - exact Hs.
  - simpl in IH. rewrite IH. apply orb_true_r.
Qed.

(** A sentinel behind [%w] wrappings: [errors.Is] finds it, and the
    message ends with the message of the sentinel. *)
Lemma errorsIs_wrapAll prefixes e target :
  errorsIs (wrapAll prefixes e) target = errorsIs e target.
Proof. induction prefixes as [|p ps IH]; [reflexivity | exact IH]. Qed.

Lemma carriesContextSignal_wrapAll prefixes s :
  carriesContextSignal (wrapAll prefixes (Sentinel s)) = true.
Proof.
  unfold carriesContextSignal. rewrite !errorsIs_wrapAll.
  destruct s; reflexivity.
Qed.

Lemma Contains_wrapAll prefixes e sub :
  Contains (Error e) sub = true ->
  Contains (Error (wrapAll prefixes e)) sub = true.
Proof.
  intros He. induction prefixes as [|p ps IH]; [exact He|].
  cbn [wrapAll fold_right Error]. apply Contains_append. exact IH.
Qed.

Lemma Contains_sentinel s :
  Contains (Error (Sentinel s)) "deadline exceeded"
  || Contains (Error (Sentinel s)) "canceled" = true.
Proof. destruct s; reflexivity. Qed.

(** ** float64: rounding *)
Module float64_facts.
Import float64.
Local Open Scope Q_scope.

Lemma pow2_pos (z : Z) : 0 < 2 ^ z.
Proof. apply Qpower_0_lt. reflexivity. Qed.

Lemma pow2_add (a b : Z) : 2 ^ (a + b) == 2 ^ a * 2 ^ b.
Proof. apply Qpower_plus. discriminate. Qed.

Lemma pow2_le (a b : Z) : (a <= b)%Z -> 2 ^ a <= 2 ^ b.
Proof. intros H. apply Qpower_le_compat_l; [exact H | discriminate]. Qed.

Lemma pow2_lt (a b : Z) : (a < b)%Z -> 2 ^ a < 2 ^ b.
Proof. intros H. apply Qpower_lt_compat_l; [exact H | reflexivity]. Qed.

Lemma pow2_lt_inv (a b : Z) : 2 ^ a < 2 ^ b -> (a < b)%Z.
Proof. intros H. apply (Qpower_lt_compat_l_inv 2); [exact H | reflexivity]. Qed.

Lemma pow2_inject (n : Z) : (0 <= n)%Z -> 2 ^ n == inject_Z (2 ^ n).
Proof. intros H. rewrite Zpower_Qpower by exact H. reflexivity. Qed.

Lemma pow2_sub (a b : Z) : 2 ^ (a - b) == 2 ^ a / 2 ^ b.
Proof.
  unfold Z.sub. rewrite pow2_add, Qpower_opp. reflexivity.
Qed.

(** *** The nearest integer *)
Lemma rne_floor (y : Q) : (Qfloor y <= rne y <= Qfloor y + 1)%Z.
Proof.
  unfold rne; cbv zeta. destruct (y - inject_Z (Qfloor y) ?= 1 # 2); [|lia|lia].
  destruct (Z.even (Qfloor y)); lia.
Qed.

Lemma rne_Z (k : Z) : rne (inject_Z k) = k.
Proof.
  unfold rne; cbv zeta. rewrite Qfloor_Z.
  destruct (Qcompare_spec (inject_Z k - inject_Z k) (1 # 2)) as [H|H|H];
    [exfalso; lra | reflexivity | exfalso; lra].
Qed.

Lemma rne_le (x y : Q) : x <= y -> (rne x <= rne y)%Z.
Proof.
  intros Hxy.
  pose proof (Qfloor_resp_le _ _ Hxy) as Hf.
  pose proof (rne_floor x) as Hx. pose proof (rne_floor y) as Hy.
  destruct (Z.eq_dec (Qfloor x) (Qfloor y)) as [Heq|Hne]; [|lia].
  unfold rne; cbv zeta. rewrite <- Heq.
  destruct (Qcompare_spec (x - inject_Z (Qfloor x)) (1 # 2)) as [Hcx|Hcx|Hcx];
  destruct (Qcompare_spec (y - inject_Z (Qfloor x)) (1 # 2)) as [Hcy|Hcy|Hcy];
    try lia; try (destruct (Z.even (Qfloor x)); lia); exfalso; lra.
Qed.

#[export] Instance rne_compat : Proper (Qeq ==> eq) rne.
Proof.
  intros x y Hxy. apply Z.le_antisymm; apply rne_le; rewrite Hxy; apply Qle_refl.
Qed.

Lemma rne_ge (k : Z) (y : Q) : inject_Z k <= y -> (k <= rne y)%Z.
Proof. intros H. rewrite <- (rne_Z k). apply rne_le. exact H. Qed.

Lemma rne_ub (k : Z) (y : Q) : y <= inject_Z k -> (rne y <= k)%Z.
Proof. intros H. rewrite <- (rne_Z k). apply rne_le. exact H. Qed.

(** *** The binary logarithm *)
Lemma ilog2_spec (x : Q) :
  0 < x -> 2 ^ ilog2 x <= x /\ x < 2 ^ (ilog2 x + 1).
Proof.
  intros Hx. unfold ilog2; cbv zeta.
  destruct x as [n d]. cbn [Qnum Qden].
  assert (Hn : (0 < n)%Z).
  { unfold Qlt in Hx. cbn in Hx. lia. }
  set (a := Z.log2 n). set (b := Z.log2 (Z.pos d)).
  assert (Ha : (0 <= a)%Z) by apply Z.log2_nonneg.
  assert (Hb : (0 <= b)%Z) by apply Z.log2_nonneg.
  destruct (Z.log2_spec n Hn) as [Ha1 Ha2].
  destruct (Z.log2_spec (Z.pos d) ltac:(lia)) as [Hb1 Hb2].
  fold a in Ha1, Ha2. fold b in Hb1, Hb2.
  rewrite Z.pow_succ_r in Ha2, Hb2 by assumption.
  assert (HA1 : 2 ^ a <= inject_Z n).
  { rewrite pow2_inject by exact Ha. rewrite <- Zle_Qle. exact Ha1. }
  assert (HA2 : inject_Z n < 2 * 2 ^ a).
  { rewrite pow2_inject by exact Ha.
    change 2 with (inject_Z 2) at 1. rewrite <- inject_Z_mult, <- Zlt_Qlt.
    exact Ha2. }
  assert (HB1 : 2 ^ b <= inject_Z (Z.pos d)).
  { rewrite pow2_inject by exact Hb. rewrite <- Zle_Qle. exact Hb1. }
  assert (HB2 : inject_Z (Z.pos d) < 2 * 2 ^ b).
  { rewrite pow2_inject by exact Hb.
    change 2 with (inject_Z 2) at 1. rewrite <- inject_Z_mult, <- Zlt_Qlt.
    exact Hb2. }
  assert (HD : 0 < inject_Z (Z.pos d)) by (rewrite <- (Zlt_Qlt 0); lia).
  assert (Hx' : (n # d) * inject_Z (Z.pos d) == inject_Z n).
  { rewrite (Qmake_Qdiv n d). field. lra. }
  set (x := n # d) in *.
  pose proof (pow2_pos a) as HpA. pose proof (pow2_pos b) as HpB.
  pose proof (pow2_pos (a - b)) as HpL.
  assert (HL : 2 ^ (a - b) * 2 ^ b == 2 ^ a).
  { rewrite <- pow2_add. replace (a - b + b)%Z with a by lia. reflexivity. }
  assert (Hup : 2 ^ (a - b + 1) == 2 * 2 ^ (a - b)).
  { rewrite pow2_add. change (2 ^ 1) with 2. ring. }
  assert (Hdown : 2 * 2 ^ (a - b - 1) == 2 ^ (a - b)).
  { replace (a - b)%Z with ((a - b - 1) + 1)%Z at 2 by lia.
    rewrite pow2_add. change (2 ^ 1) with 2. ring. }
  generalize dependent (inject_Z (Z.pos d)). generalize dependent (inject_Z n).
  intros N HN1 HN2 D HD1 HD2 HD Hx'.
  assert (Hlow : 2 ^ (a - b - 1) < x).
  { assert (2 ^ (a - b - 1) * D < x * D) by nra. nra. }
  assert (Hhigh : x < 2 * 2 ^ (a - b)).
  { assert (x * D < 2 * 2 ^ (a - b) * D) by nra. nra. }
  destruct (Qle_bool (2 ^ (a - b)) x) eqn:Hcmp.
  - apply Qle_bool_iff in Hcmp. split; [exact Hcmp|]. rewrite Hup. exact Hhigh.
  - assert (Hlt : x < 2 ^ (a - b)).
    { apply Qnot_le_lt. intros H. apply Qle_bool_iff in H. congruence. }
    split; [lra|]. replace (a - b - 1 + 1)%Z with (a - b)%Z by lia. exact Hlt.
Qed.

Lemma ilog2_le (x y : Q) : 0 < x -> x <= y -> (ilog2 x <= ilog2 y)%Z.
Proof.
  intros Hx Hxy.
  destruct (ilog2_spec x Hx) as [Hx1 Hx2].
  destruct (ilog2_spec y ltac:(lra)) as [Hy1 Hy2].
  assert (H : 2 ^ ilog2 x < 2 ^ (ilog2 y + 1)) by lra.
  apply pow2_lt_inv in H. lia.
Qed.

(** The exponent [e] with [2^e <= x < 2^(e+1)] is [ilog2 x]. *)
Lemma ilog2_unique (x : Q) (e : Z) :
  2 ^ e <= x -> x < 2 ^ (e + 1) -> ilog2 x = e.
Proof.
  intros H1 H2. pose proof (pow2_pos e) as He.
  destruct (ilog2_spec x ltac:(lra)) as [Hx1 Hx2].
  assert (Ha : 2 ^ ilog2 x < 2 ^ (e + 1)) by lra.
  assert (Hb : 2 ^ e < 2 ^ (ilog2 x + 1)) by lra.
  apply pow2_lt_inv in Ha, Hb. lia.
Qed.

(** *** Rounding a positive number *)
Lemma ulp_exp_ge (x : Q) : (ilog2 x - 52 <= ulp_exp x)%Z.
Proof. unfold ulp_exp. lia. Qed.

Lemma ulp_exp_le (x y : Q) : 0 < x -> x <= y -> (ulp_exp x <= ulp_exp y)%Z.
Proof.
  intros Hx Hxy. pose proof (ilog2_le x y Hx Hxy). unfold ulp_exp. lia.
Qed.

Lemma rnd_pos_eq (x : Q) :
  rnd_pos x == inject_Z (rne (x / 2 ^ ulp_exp x)) * 2 ^ ulp_exp x.
Proof. reflexivity. Qed.

(** The significand has at most 53 bits. *)
Lemma rnd_pos_ub (x : Q) : 0 < x -> rnd_pos x <= 2 ^ (ulp_exp x + 53).
Proof.
  intros Hx. destruct (ilog2_spec x Hx) as [_ Hhi].
  pose proof (ulp_exp_ge x) as Hu. pose proof (pow2_pos (ulp_exp x)) as Hp.
  assert (Hs : x / 2 ^ ulp_exp x <= inject_Z (2 ^ 53)).
  { apply Qle_shift_div_r; [exact Hp|].
    rewrite <- pow2_inject by lia. rewrite <- pow2_add.
    apply Qlt_le_weak, (Qlt_le_trans _ _ _ Hhi). apply pow2_le. lia. }
  apply rne_ub in Hs. rewrite Zle_Qle in Hs.
  rewrite rnd_pos_eq, Z.add_comm, pow2_add.
  rewrite (pow2_inject 53) by lia.
  apply Qmult_le_compat_r; [exact Hs | lra].
Qed.

(** A normal number keeps its leading bit. *)
Lemma rnd_pos_lb (x : Q) :
  0 < x -> ulp_exp x = (ilog2 x - 52)%Z -> 2 ^ ilog2 x <= rnd_pos x.
Proof.
  intros Hx Hu. destruct (ilog2_spec x Hx) as [Hlo _].
  pose proof (pow2_pos (ulp_exp x)) as Hp.
  assert (Hs : inject_Z (2 ^ 52) <= x / 2 ^ ulp_exp x).
  { apply Qle_shift_div_l; [exact Hp|].
    rewrite <- pow2_inject by lia. rewrite <- pow2_add.
    rewrite Hu. replace (52 + (ilog2 x - 52))%Z with (ilog2 x) by lia.
    exact Hlo. }
  apply rne_ge in Hs. rewrite Zle_Qle in Hs.
  rewrite rnd_pos_eq.
  replace (ilog2 x) with (52 + ulp_exp x)%Z at 1 by lia.
  rewrite pow2_add, (pow2_inject 52) by lia.
  apply Qmult_le_compat_r; [exact Hs | lra].
Qed.

Lemma rnd_pos_nonneg (x : Q) : 0 < x -> 0 <= rnd_pos x.
Proof.
  intros Hx. pose proof (pow2_pos (ulp_exp x)) as Hp.
  assert (Hs : inject_Z 0 <= x / 2 ^ ulp_exp x).
  { apply Qle_shift_div_l; [exact Hp|]. change (inject_Z 0) with 0. lra. }
  apply rne_ge in Hs. rewrite Zle_Qle in Hs. change (inject_Z 0) with 0 in Hs.
  rewrite rnd_pos_eq. nra.
Qed.

Lemma rnd_pos_le (x y : Q) : 0 < x -> x <= y -> rnd_pos x <= rnd_pos y.
Proof.
  intros Hx Hxy. assert (Hy : 0 < y) by lra.
  pose proof (ulp_exp_le x y Hx Hxy) as Hu.
  destruct (Z.eq_dec (ulp_exp x) (ulp_exp y)) as [Heq|Hne].
  - rewrite !rnd_pos_eq, <- Heq.
    pose proof (pow2_pos (ulp_exp x)) as Hp.
    apply Qmult_le_compat_r; [|lra].
    rewrite <- Zle_Qle. apply rne_le.
    apply Qle_shift_div_l; [exact Hp|].
    assert (E : x / 2 ^ ulp_exp x * 2 ^ ulp_exp x == x) by (field; lra).
    rewrite E. exact Hxy.
  - assert (Hnormal : ulp_exp y = (ilog2 y - 52)%Z).
    { unfold ulp_exp in *. lia. }
    apply (Qle_trans _ _ _ (rnd_pos_ub x Hx)).
    apply (Qle_trans _ (2 ^ ilog2 y)); [|apply (rnd_pos_lb y Hy Hnormal)].
    apply pow2_le. lia.
Qed.

(** *** Rounding is monotone *)
Lemma rnd_le (x y : Q) : x <= y -> rnd x <= rnd y.
Proof.
  intros Hxy. unfold rnd.
  destruct (Qcompare_spec x 0) as [Hx|Hx|Hx];
    destruct (Qcompare_spec y 0) as [Hy|Hy|Hy]; try (exfalso; lra).
  - lra.
  - apply rnd_pos_nonneg. exact Hy.
  - pose proof (rnd_pos_nonneg (- x)). lra.
  - pose proof (rnd_pos_le (- y) (- x)). lra.
  - pose proof (rnd_pos_nonneg (- x)). pose proof (rnd_pos_nonneg y). lra.
  - apply rnd_pos_le; assumption.
Qed.

#[export] Instance rnd_compat : Proper (Qeq ==> Qeq) rnd.
Proof.
  intros x y Hxy. apply Qle_antisym; apply rnd_le; rewrite Hxy; apply Qle_refl.
Qed.

Lemma rnd_nonneg (x : Q) : 0 <= x -> 0 <= rnd x.
Proof. intros Hx. change 0 with (rnd 0) at 1. apply rnd_le. exact Hx. Qed.

(** A number whose quotient by its last place is an integer is kept. *)
Lemma rnd_pos_exact (x : Q) (k : Z) :
  0 < x -> x / 2 ^ ulp_exp x == inject_Z k -> rnd_pos x == x.
Proof.
  intros Hx Hk. pose proof (pow2_pos (ulp_exp x)) as Hp.
  rewrite rnd_pos_eq, Hk, rne_Z, <- Hk. field. lra.
Qed.

(** The integers up to [2^53] are binary64 numbers. *)
Lemma rnd_pos_int (n : Z) :
  (0 < n <= 2 ^ 53)%Z -> rnd_pos (inject_Z n) == inject_Z n.
Proof.
  intros Hn.
  assert (Hx : 0 < inject_Z n) by (rewrite <- (Zlt_Qlt 0); lia).
  destruct (ilog2_spec _ Hx) as [Hlo Hhi].
  assert (He0 : (0 <= ilog2 (inject_Z n))%Z).
  { assert (H : 2 ^ 0 < 2 ^ (ilog2 (inject_Z n) + 1)).
    { apply (Qle_lt_trans _ (inject_Z n)); [|exact Hhi].
      change (2 ^ 0) with (inject_Z 1). rewrite <- Zle_Qle. lia. }
    apply pow2_lt_inv in H. lia. }
  assert (He53 : (ilog2 (inject_Z n) <= 53)%Z).
  { assert (H : 2 ^ ilog2 (inject_Z n) < 2 ^ 54).
    { apply (Qle_lt_trans _ (inject_Z n)); [exact Hlo|].
      rewrite (pow2_inject 54) by lia. rewrite <- Zlt_Qlt. lia. }
    apply pow2_lt_inv in H. lia. }
  assert (Hu : ulp_exp (inject_Z n) = (ilog2 (inject_Z n) - 52)%Z).
  { unfold ulp_exp. lia. }
  destruct (Z.eq_dec (ilog2 (inject_Z n)) 53%Z) as [E53|N53].
  - assert (Hn53 : n = (2 ^ 53)%Z).
    { rewrite E53, (pow2_inject 53), <- Zle_Qle in Hlo by lia. lia. }
    apply (rnd_pos_exact _ (2 ^ 52)); [exact Hx|].
    rewrite Hu, E53, Hn53. reflexivity.
  - apply (rnd_pos_exact _ (n * 2 ^ (52 - ilog2 (inject_Z n)))); [exact Hx|].
    rewrite Hu, inject_Z_mult, <- pow2_inject by lia.
    replace (52 - ilog2 (inject_Z n))%Z with (- (ilog2 (inject_Z n) - 52))%Z
      by lia.
    rewrite Qpower_opp. reflexivity.
Qed.

Lemma rnd_int (n : Z) :
  (- 2 ^ 53 <= n <= 2 ^ 53)%Z -> rnd (inject_Z n) == inject_Z n.
Proof.
  intros Hn. unfold rnd.
  destruct (Qcompare_spec (inject_Z n) 0) as [H0|Hneg|Hpos].
  - symmetry. exact H0.
  - change 0 with (inject_Z 0) in Hneg. rewrite <- Zlt_Qlt in Hneg.
    rewrite <- inject_Z_opp, rnd_pos_int by lia.
    rewrite inject_Z_opp. ring.
  - change 0 with (inject_Z 0) in Hpos. rewrite <- Zlt_Qlt in Hpos.
    apply rnd_pos_int. lia.
Qed.

(** *** Conversion to an integer *)
Lemma to_int_Z (n : Z) : to_int (inject_Z n) = n.
Proof.
  unfold to_int. destruct (Qle_bool 0 (inject_Z n));
    [apply Qfloor_Z | apply Qceiling_Z].
Qed.

Lemma to_int_le (x y : Q) : x <= y -> (to_int x <= to_int y)%Z.
Proof.
  intros Hxy. unfold to_int.
  destruct (Qle_bool 0 x) eqn:Hx; destruct (Qle_bool 0 y) eqn:Hy.
  - apply Qfloor_resp_le. exact Hxy.
  - apply Qle_bool_iff in Hx.
    assert (~ 0 <= y) by (intros H; apply Qle_bool_iff in H; congruence).
    exfalso. lra.
  - assert (Hneg : ~ 0 <= x) by (intros H; apply Qle_bool_iff in H; congruence).
    apply Qle_bool_iff in Hy.
    assert (Hc : (Qceiling x <= 0)%Z).
    { rewrite <- (Qceiling_Z 0). apply Qceiling_resp_le.
      change (inject_Z 0) with 0. lra. }
    assert (Hf : (0 <= Qfloor y)%Z).
    { rewrite <- (Qfloor_Z 0). apply Qfloor_resp_le. exact Hy. }
    lia.
  - apply Qceiling_resp_le. exact Hxy.
Qed.

#[export] Instance to_int_compat : Proper (Qeq ==> eq) to_int.
Proof.
  intros x y Hxy. apply Z.le_antisymm; apply to_int_le; rewrite Hxy;
    apply Qle_refl.
Qed.

(** *** The operations *)
Lemma of_int_le (a b : Z) : (a <= b)%Z -> of_int a <= of_int b.
Proof. intros H. apply rnd_le. rewrite <- Zle_Qle. exact H. Qed.

Lemma of_int_small (n : Z) :
  (- 2 ^ 53 <= n <= 2 ^ 53)%Z -> of_int n == inject_Z n.
Proof. apply rnd_int. Qed.

Lemma div_le (x y d : Q) : 0 < d -> x <= y -> div x d <= div y d.
Proof.
  intros Hd Hxy. apply rnd_le.
  apply Qle_shift_div_l; [exact Hd|].
  assert (E : x / d * d == x) by (field; lra). rewrite E. exact Hxy.
Qed.

Lemma mul_le (b x y : Q) : 0 <= b -> x <= y -> mul b x <= mul b y.
Proof. intros Hb Hxy. apply rnd_le. nra. Qed.

Lemma gtb_true (x y : Q) : gtb x y = true <-> y < x.
Proof.
  unfold gtb. rewrite negb_true_iff. split.
  - intros H. apply Qnot_le_lt. intros Hle. apply Qle_bool_iff in Hle. congruence.
  - intros H. destruct (Qle_bool x y) eqn:E; [|reflexivity].
    apply Qle_bool_iff in E. exfalso. lra.
Qed.

Lemma gtb_false (x y : Q) : gtb x y = false <-> x <= y.
Proof.
  unfold gtb. rewrite negb_false_iff. apply Qle_bool_iff.
Qed.

Lemma finite_bounds (x lo hi : Q) :
  lo <= x -> x <= hi -> - 2 ^ 1024 < lo -> hi < 2 ^ 1024 -> finite x.
Proof.
  intros H1 H2 H3 H4. unfold finite.
  apply Qabs_case; intros _; lra.
Qed.

Lemma of_int_pos (n : Z) : (0 < n)%Z -> 1 <= of_int n.
Proof.
  intros Hn. pose proof (of_int_small 1 ltac:(lia)) as E1.
  change (inject_Z 1) with 1%Q in E1.
  apply (Qle_trans _ (of_int 1)); [rewrite E1; apply Qle_refl|].
  apply of_int_le. lia.
Qed.

Lemma of_int_nonneg (n : Z) : (0 <= n)%Z -> 0 <= of_int n.
Proof.
  intros Hn. apply rnd_nonneg. rewrite <- (Zle_Qle 0). exact Hn.
Qed.


(** *** The error of rounding *)

Lemma rne_err (y : Q) :
  - (1 # 2) <= inject_Z (rne y) - y <= 1 # 2.
Proof.
  pose proof (Qfloor_le y) as Hlo. pose proof (Qlt_floor y) as Hhi.
  rewrite inject_Z_plus in Hhi. change (inject_Z 1) with 1 in Hhi.
  unfold rne; cbv zeta.
  destruct (Qcompare_spec (y - inject_Z (Qfloor y)) (1 # 2)) as [H|H|H].
  - destruct (Z.even (Qfloor y)).
    + lra.
    + rewrite inject_Z_plus. change (inject_Z 1) with 1. lra.
  - lra.
  - rewrite inject_Z_plus. change (inject_Z 1) with 1. lra.
Qed.

Lemma rnd_pos_err (x : Q) :
  0 < x -> ulp_exp x = (ilog2 x - 52)%Z ->
  x * (1 - eps) <= rnd_pos x <= x * (1 + eps).
Proof.
  intros Hx Hu. destruct (ilog2_spec x Hx) as [Hlo _].
  pose proof (pow2_pos (ulp_exp x)) as Hp.
  pose proof (rne_err (x / 2 ^ ulp_exp x)) as Herr.
  assert (Hxs : x == x / 2 ^ ulp_exp x * 2 ^ ulp_exp x) by (field; lra).
  assert (HU : inject_Z (2 ^ 52) * 2 ^ ulp_exp x <= x).
  { rewrite <- pow2_inject by lia. rewrite <- pow2_add, Hu.
    replace (52 + (ilog2 x - 52))%Z with (ilog2 x) by lia. exact Hlo. }
  rewrite rnd_pos_eq.
  set (U := 2 ^ ulp_exp x) in *. set (s := x / U) in *.
  set (m := inject_Z (rne s)) in *.
  change (inject_Z (2 ^ 52)) with (4503599627370496 # 1) in HU.
  unfold eps.
  assert (H1 : (m - s) * U <= (1 # 2) * U) by (apply Qmult_le_compat_r; lra).
  assert (H2 : - (1 # 2) * U <= (m - s) * U) by (apply Qmult_le_compat_r; lra).
  split; lra.
Qed.

(** A number of the normal range is rounded with a relative error of at
    most [2^-53]. *)
Lemma rnd_err (x : Q) :
  2 ^ (-1022) <= x -> x * (1 - eps) <= rnd x <= x * (1 + eps).
Proof.
  intros Hx. pose proof (pow2_pos (-1022)) as Hp.
  assert (Hpos : 0 < x) by lra.
  unfold rnd. destruct (Qcompare_spec x 0) as [H|H|H]; try (exfalso; lra).
  apply rnd_pos_err; [exact Hpos|].
  destruct (ilog2_spec x Hpos) as [_ Hhi].
  assert (Hlt : 2 ^ (-1022) < 2 ^ (ilog2 x + 1)) by lra.
  apply pow2_lt_inv in Hlt. unfold ulp_exp. lia.
Qed.

Lemma to_int_floor (x : Q) :
  0 <= x -> x - 1 < inject_Z (to_int x) <= x.
Proof.
  intros Hx. unfold to_int.
  apply Qle_bool_iff in Hx. rewrite Hx.
  pose proof (Qfloor_le x) as Hlo. pose proof (Qlt_floor x) as Hhi.
  rewrite inject_Z_plus in Hhi. change (inject_Z 1) with 1 in Hhi.
  split; lra.
Qed.

Lemma three_roundings (b x0 x1 x2 x3 : Q) :
  1 <= b -> 1 <= x0 ->
  x0 * (1 - eps) <= x1 <= x0 * (1 + eps) ->
  x1 * (1 - eps) <= x2 <= x1 * (1 + eps) ->
  b * x2 * (1 - eps) <= x3 <= b * x2 * (1 + eps) ->
  b * x0 * (1 - 4 * eps) <= x3 <= b * x0 * (1 + 4 * eps).
Proof.
  unfold eps. intros Hb H0 [L1 U1] [L2 U2] [L3 U3].
  assert (E1 : 0 <= 1 - (1 # 9007199254740992)) by lra.
  assert (E2 : 0 <= 1 + (1 # 9007199254740992)) by lra.
  assert (Hx1 : 0 <= x1) by nra.
  assert (Hx2 : 0 <= x2) by nra.
  set (lo := 1 - (1 # 9007199254740992)) in *.
  set (hi := 1 + (1 # 9007199254740992)) in *.
  assert (Hb0 : 0 <= b) by lra.
  assert (U2' : x2 <= x0 * hi * hi).
  { apply (Qle_trans _ _ _ U2). apply Qmult_le_compat_r; assumption. }
  assert (L2' : x0 * lo * lo <= x2).
  { apply (Qle_trans _ (x1 * lo)); [|exact L2].
    apply Qmult_le_compat_r; assumption. }
  assert (U3' : x3 <= b * (x0 * hi * hi) * hi).
  { apply (Qle_trans _ _ _ U3). apply Qmult_le_compat_r; [|exact E2].
    rewrite !(Qmult_comm b). apply Qmult_le_compat_r; assumption. }
  assert (L3' : b * (x0 * lo * lo) * lo <= x3).
  { apply (Qle_trans _ (b * x2 * lo)); [|exact L3].
    apply Qmult_le_compat_r; [|exact E1].
    rewrite !(Qmult_comm b). apply Qmult_le_compat_r; assumption. }
  assert (Hhi : hi * hi * hi <= 1 + 4 * (1 # 9007199254740992))
    by (unfold hi; lra).
  assert (Hlo : 1 - 4 * (1 # 9007199254740992) <= lo * lo * lo)
    by (unfold lo; lra).
  assert (Hbx : 0 <= b * x0) by (apply Qmult_le_0_compat; lra).
  assert (Elo : b * x0 * (lo * lo * lo) == b * (x0 * lo * lo) * lo) by ring.
  assert (Ehi : b * x0 * (hi * hi * hi) == b * (x0 * hi * hi) * hi) by ring.
  split.
  - apply (Qle_trans _ (b * x0 * (lo * lo * lo))).
    + rewrite !(Qmult_comm (b * x0)). apply Qmult_le_compat_r; assumption.
    + rewrite Elo. exact L3'.
  - apply (Qle_trans _ (b * x0 * (hi * hi * hi))).
    + rewrite Ehi. exact U3'.
    + rewrite !(Qmult_comm (b * x0)). apply Qmult_le_compat_r; assumption.
Qed.

Lemma pow2_tiny : 2 ^ (-1022) <= 1 # 2.
Proof. change (1 # 2) with (2 ^ (-1)). apply pow2_le. lia. Qed.

Lemma of_int_int64 (r : Z) :
  (- 2 ^ 63 <= r <= 2 ^ 63 - 1)%Z ->
  - inject_Z (2 ^ 63) <= of_int r <= inject_Z (2 ^ 63).
Proof.
  intros Hr. split.
  - apply (Qle_trans _ (of_int (- 2 ^ 63))); [|apply of_int_le; lia].
    apply Qle_bool_iff. vm_compute. reflexivity.
  - apply (Qle_trans _ (of_int (2 ^ 63 - 1))); [apply of_int_le; lia|].
    apply Qle_bool_iff. vm_compute. reflexivity.
Qed.


(** The model and the binary64 arithmetic of the kernel agree on these
    conversions, quotients and products. *)
Example of_int_agrees :
  forallb (fun z => Qeq_bool (of_int z)
                      (float64_check.prim2Q (float64_check.prim z)))
          [0; 1; 100; 3600000000000; 3600000000001; 2 ^ 53 + 1; 2 ^ 53 + 3;
           2 ^ 62 + 12345; 2 ^ 63 - 1]%Z
  = true.
Proof. vm_compute. reflexivity. Qed.

Example div_agrees :
  forallb (fun '(a, b) =>
             Qeq_bool (div (of_int a) (of_int b))
               (float64_check.prim2Q
                  (float64_check.prim a / float64_check.prim b)%float))
          [(1, 3); (2, 3); (7, 9); (3600000000001, 3600000000000);
           (86400000000000, 3600000000000); (2 ^ 63 - 1, 3600000000000);
           (1, 2 ^ 62 + 1)]%Z
  = true.
Proof. vm_compute. reflexivity. Qed.

Example add_agrees :
  forallb (fun '(a, b) =>
             Qeq_bool (div (add (of_int a) (of_int b)) 2)
               (float64_check.prim2Q
                  ((float64_check.prim a + float64_check.prim b)
                   / float64_check.prim 2)%float))
          [(100000000, 200000000); (1, 2); (2 ^ 53, 1); (2 ^ 53 + 2, 1);
           (2 ^ 62, 2 ^ 62 - 1)]%Z
  = true.
Proof. vm_compute. reflexivity. Qed.

Example mul_agrees :
  forallb (fun '(a, b, c) =>
             Qeq_bool (mul (of_int c) (div (of_int a) (of_int b)))
               (float64_check.prim2Q
                  (float64_check.prim c
                   * (float64_check.prim a / float64_check.prim b))%float))
          [(1, 3, 100); (2, 3, 100); (7, 9, 100);
           (3600000000001, 3600000000000, 5000000000);
           (7200000000001, 3600000000000, 5000000000);
           (2 ^ 63 - 1, 3600000000000, 30000000000)]%Z
  = true.
Proof. vm_compute. reflexivity. Qed.

End float64_facts.

(** ** The cache *)
Module metric_facts.
Import model metric float64_facts.
Import float64.

Section Cache.
Variable sha256hex : string -> string.
Variable timeRange_Range : TimeRange -> Z.

Abbreviation NewCacheKey := (NewCacheKey timeRange_Range).
Abbreviation cacheKey := (cacheKey sha256hex).
Abbreviation MetricCache_Get := (MetricCache_Get sha256hex).
Abbreviation MetricCache_Set := (MetricCache_Set sha256hex).

(** Equal triples index the same entry. *)
Lemma cacheKey_deterministic ds1 q1 tr1 ds2 q2 tr2 :
  (ds1, q1, tr1) = (ds2, q2, tr2) ->
  cacheKey (NewCacheKey ds1 q1 tr1) = cacheKey (NewCacheKey ds2 q2 tr2).
Proof. intros [= -> -> ->]. reflexivity. Qed.

(** The range plays no part in the index. *)
Lemma cacheKey_ignores_range ds q tr1 tr2 :
  cacheKey (NewCacheKey ds q tr1) = cacheKey (NewCacheKey ds q tr2).
Proof. reflexivity. Qed.

(** Nor does the place of the colon between data source and query. *)
Lemma cacheKey_separator_collision tr :
  cacheKey (NewCacheKey "a:b" "c" tr) = cacheKey (NewCacheKey "a" "b:c" tr).
Proof. reflexivity. Qed.

Lemma entries_Set mc key d clk :
  entries (MetricCache_Set mc key d clk) !! cacheKey key =
  Some {| data := d; created := nowCreated clk;
          expires := nowExpires clk + maxAge mc; entry_hits := 0 |}.
Proof.
  unfold metric.MetricCache_Set. cbn [entries].
  rewrite lookup_insert_eq. reflexivity.
Qed.

(** A [Get] that comes before the entry of the [Set] expires finds it. *)
Lemma Get_after_Set mc key key' d clk now :
  cacheKey key' = cacheKey key ->
  now < nowExpires clk + maxAge mc ->
  snd (MetricCache_Get (MetricCache_Set mc key d clk) key' now) = (d, true).
Proof.
  intros Hk Hnow. unfold metric.MetricCache_Get.
  rewrite Hk, entries_Set. cbn [expires data].
  apply Z.ltb_lt in Hnow. rewrite Hnow. reflexivity.
Qed.

(** A [Get] that comes when the entry of the [Set] has expired misses. *)
Lemma Get_after_Set_expired mc key d clk now :
  nowExpires clk + maxAge mc <= now ->
  snd (MetricCache_Get (MetricCache_Set mc key d clk) key now) = ([], false).
Proof.
  intros Hnow. unfold metric.MetricCache_Get.
  rewrite entries_Set. cbn [expires data].
  apply Z.ltb_ge in Hnow. rewrite Hnow. reflexivity.
Qed.


(** The counters of a cache start at 0 and go up one at a time. *)
Lemma Get_counters mc key now :
  0 <= hits mc < 2 ^ 63 - 1 ->
  0 <= misses mc < 2 ^ 63 - 1 ->
  let mc' := fst (MetricCache_Get mc key now) in
  0 <= hits mc' /\ 0 <= misses mc' /\
  hits mc' + misses mc' = hits mc + misses mc + 1.
Proof.
  intros Hh Hm. unfold metric.MetricCache_Get. cbv zeta.
  destruct (entries mc !! cacheKey key) as [entry|];
    [destruct (now <? expires entry)|];
    cbn [fst hits misses]; rewrite int64_small by lia; lia.
Qed.

Lemma Set_counters mc key d clk :
  hits (MetricCache_Set mc key d clk) = hits mc /\
  misses (MetricCache_Set mc key d clk) = misses mc.
Proof.
  unfold metric.MetricCache_Set. cbv zeta. cbn [hits misses].
  destruct (maxSize mc <? _); split; reflexivity.
Qed.

(** C1, where the code departs from it: the string that [Set] and [Get]
    index the entries with is made of the data source and the query
    alone, so an entry stored for the first minute is returned to a
    [Get] for a minute one hour later. *)
Theorem C1_entry_served_for_another_range :
  let k1 := NewCacheKey "prom" "up" samples.firstMinute in
  let k2 := NewCacheKey "prom" "up" samples.laterMinute in
  let mc := NewMetricCache 100 (30 * Second) in
  samples.firstMinute <> samples.laterMinute /\
  cacheKey k1 = cacheKey k2 /\
  snd (MetricCache_Get (MetricCache_Set mc k1 samples.upSeries samples.atZero)
                       k2 Second)
  = (samples.upSeries, true).
Proof.
  cbv zeta. split; [discriminate|]. split; [reflexivity|].
  apply Get_after_Set; [reflexivity|]. reflexivity.
Qed.

(** C7, as the code has it: a [Set] followed by a [Get] with the same
    key returns the stored data and [true] when the [Get] reads the
    clock before the instant at which the entry expires, which is
    [maxAge] after the reading of the [Set]. *)
Theorem C7_Set_then_Get mc key d clk now :
  now < nowExpires clk + maxAge mc ->
  snd (MetricCache_Get (MetricCache_Set mc key d clk) key now) = (d, true).
Proof. intros Hnow. apply Get_after_Set; [reflexivity | exact Hnow]. Qed.

(** What an [ExecuteQuery] that returns an error leaves behind. *)
Lemma ExecuteQuery_body_error qe id expr tr env qe' log e :
  ExecuteQuery_body sha256hex timeRange_Range qe id expr tr env
    = (qe', log, Err e) ->
  let key := NewCacheKey id expr tr in
  cache qe' = fst (MetricCache_Get (cache qe) key (getNow env)) /\
  (entries (cache qe') = entries (cache qe) \/
   entries (cache qe') = delete (cacheKey key) (entries (cache qe))) /\
  successes (metrics qe') = successes (metrics qe) /\
  (admitted env = SlotAcquired ->
   metrics qe' = RecordError (metrics qe) e).
Proof.
  unfold ExecuteQuery_body, metric.MetricCache_Get. cbv zeta.
  destruct (entries (cache qe) !! _) as [entry|] eqn:Hentry.
  - destruct (getNow env <? expires entry); [discriminate|].
    destruct (admitted env).
    + destruct (executeWithRetry (attempts env)) as [l [r|err]];
        intros [= <- <- <-]; cbn; auto.
    + intros [= <- <- <-]; cbn. repeat split; auto. discriminate.
  - destruct (admitted env).
    + destruct (executeWithRetry (attempts env)) as [l [r|err]];
        intros [= <- <- <-]; cbn; auto.
    + intros [= <- <- <-]; cbn. repeat split; auto. discriminate.
Qed.

(** C9, as the code has it: an [ExecuteQuery] that returns an error has
    not called [Set].  The cache it leaves is the one its opening
    [Get] left: no entry is added or replaced, and the entry under the
    key is deleted if it was there and had expired.  No success is
    recorded, and when the error comes out of the retry loop an error
    is recorded. *)
Theorem C9_error_skips_Set qe id env qe' log e :
  (forall query t,
     ExecuteQuery sha256hex timeRange_Range qe id query t env
       = (qe', log, Err e) ->
     let key := NewCacheKey id (Expr query) {| Start := t; End := t |} in
     cache qe' = fst (MetricCache_Get (cache qe) key (getNow env)) /\
     (entries (cache qe') = entries (cache qe) \/
      entries (cache qe') = delete (cacheKey key) (entries (cache qe))) /\
     successes (metrics qe') = successes (metrics qe) /\
     (admitted env = SlotAcquired ->
      metrics qe' = RecordError (metrics qe) e)) /\
  (forall query tr,
     ExecuteQuery_range sha256hex timeRange_Range qe id query tr env
       = (qe', log, Err e) ->
     let key := NewCacheKey id query tr in
     cache qe' = fst (MetricCache_Get (cache qe) key (getNow env)) /\
     (entries (cache qe') = entries (cache qe) \/
      entries (cache qe') = delete (cacheKey key) (entries (cache qe))) /\
     successes (metrics qe') = successes (metrics qe) /\
     (admitted env = SlotAcquired ->
      metrics qe' = RecordError (metrics qe) e)).
Proof.
  split; intros query t H; exact (ExecuteQuery_body_error _ _ _ _ _ _ _ _ H).
Qed.

End Cache.

(** The entry point C1 fails at, run on the sample digest. *)
Example C1_failing_input :
  snd (MetricCache_Get samples.plainDigest
         (MetricCache_Set samples.plainDigest
            (NewMetricCache 100 (30 * Second))
            (samples.upKey samples.firstMinute) samples.upSeries samples.atZero)
         (samples.upKey samples.laterMinute) Second)
  = (samples.upSeries, true).
Proof. vm_compute. reflexivity. Qed.

(** C7 fails as stated: on a cache made with [maxAge = 0] the entry has
    expired by the time it is stored, and a [Get] at the very instant of
    the [Set] misses. *)
Lemma C7_counterexample :
  snd (MetricCache_Get samples.plainDigest
         (MetricCache_Set samples.plainDigest (NewMetricCache 100 0)
            (samples.upKey samples.firstMinute) samples.upSeries samples.atZero)
         (samples.upKey samples.firstMinute) 0)
  = ([], false).
Proof. vm_compute. reflexivity. Qed.

Lemma C7_witness :
  Second < nowExpires samples.atZero + maxAge (NewMetricCache 100 (30 * Second)) /\
  snd (MetricCache_Get samples.plainDigest
         (MetricCache_Set samples.plainDigest (NewMetricCache 100 (30 * Second))
            (samples.upKey samples.firstMinute) samples.upSeries samples.atZero)
         (samples.upKey samples.firstMinute) Second)
  = (samples.upSeries, true).
Proof.
  split; [reflexivity|].
  apply (C7_Set_then_Get samples.plainDigest
           (NewMetricCache 100 (30 * Second))
           (samples.upKey samples.firstMinute) samples.upSeries samples.atZero
           Second).
  reflexivity.
Defined.

(** C9 fails as stated: the query finds the entry of [warmCache]
    expired, every attempt is refused, the call returns an error, and
    the entry that was in the cache is gone. *)
Lemma C9_counterexample :
  let run :=
    ExecuteQuery samples.plainDigest samples.span
      (NewQueryExecutor samples.warmCache) "prom" samples.upQuery 0
      samples.refusedAt31s in
  snd run = Err (Errorf "query failed after 3 attempts: "
                        (ErrorsNew "connection refused")) /\
  is_Some (entries samples.warmCache !! "prom:up") /\
  entries (cache (fst (fst run))) !! "prom:up" = None /\
  entries (cache (fst (fst run))) <> entries samples.warmCache.
Proof.
  cbv zeta.
  assert (Hgone :
    entries (cache (fst (fst
      (ExecuteQuery samples.plainDigest samples.span
         (NewQueryExecutor samples.warmCache) "prom" samples.upQuery 0
         samples.refusedAt31s)))) !! "prom:up" = None)
    by (vm_compute; reflexivity).
  assert (Hthere : is_Some (entries samples.warmCache !! "prom:up"))
    by (vm_compute; eauto).
  split; [vm_compute; reflexivity|].
  split; [exact Hthere|]. split; [exact Hgone|].
  intros Heq. rewrite Heq in Hgone. rewrite Hgone in Hthere.
  destruct Hthere as [x Hx]. discriminate.
Qed.

Lemma C9_witness :
  let run :=
    ExecuteQuery samples.plainDigest samples.span
      (NewQueryExecutor samples.warmCache) "prom" samples.upQuery 0
      samples.refusedAt31s in
  exists e, snd run = Err e /\
    successes (metrics (fst (fst run))) = 0 /\
    metrics (fst (fst run)) = RecordError NewExecutionMetrics e.
Proof.
  cbv zeta.
  destruct (ExecuteQuery samples.plainDigest samples.span
              (NewQueryExecutor samples.warmCache) "prom" samples.upQuery 0
              samples.refusedAt31s) as [[qe' log] r] eqn:Hrun.
  assert (Hr : r = Err (Errorf "query failed after 3 attempts: "
                               (ErrorsNew "connection refused"))).
  { change r with (snd (qe', log, r)). rewrite <- Hrun.
    vm_compute. reflexivity. }
  subst r. eexists. split; [reflexivity|].
  destruct (proj1 (C9_error_skips_Set samples.plainDigest samples.span
                     _ _ _ _ _ _) _ _ Hrun) as (_ & _ & Hs & He).
  split; [exact Hs | apply He; reflexivity].
Defined.

(** *** The statistics *)

Lemma hitRate_bounds (h t : Z) :
  0 <= h <= t -> 0 < t ->
  (0 <= mul (div (of_int h) (of_int t)) (inject_Z 100) <= 100)%Q.
Proof.
  intros Hh Ht.
  pose proof (of_int_pos t Ht) as HT.
  pose proof (of_int_nonneg h ltac:(lia)) as HH.
  pose proof (of_int_le h t ltac:(lia)) as HHT.
  assert (Hq0 : (0 <= of_int h / of_int t)%Q).
  { apply Qle_shift_div_l; lra. }
  assert (Hq1 : (of_int h / of_int t <= 1)%Q).
  { apply Qle_shift_div_r; lra. }
  assert (Hd0 : (0 <= div (of_int h) (of_int t))%Q) by (apply rnd_nonneg; exact Hq0).
  assert (Hd1 : (div (of_int h) (of_int t) <= 1)%Q).
  { pose proof (rnd_int 1 ltac:(lia)) as E1.
    change (inject_Z 1) with 1%Q in E1.
    apply (Qle_trans _ (rnd 1)); [apply rnd_le; exact Hq1|].
    rewrite E1. apply Qle_refl. }
  pose proof (rnd_int 100 ltac:(lia)) as E100.
  change (inject_Z 100) with 100%Q in *.
  split.
  - apply rnd_nonneg. nra.
  - apply (Qle_trans _ (rnd 100)); [apply rnd_le; nra|].
    rewrite E100. apply Qle_refl.
Qed.

(** The float64 operations of [Stats] stay in the domain of the model:
    the divisor is not zero and nothing overflows. *)
Lemma Stats_defined (h t : Z) :
  0 <= h <= t -> 0 < t < 2 ^ 63 ->
  ~ (of_int t == 0)%Q /\
  finite (of_int h) /\ finite (of_int t) /\
  finite (div (of_int h) (of_int t)) /\
  finite (mul (div (of_int h) (of_int t)) (inject_Z 100)).
Proof.
  intros Hh Ht.
  pose proof (of_int_pos t ltac:(lia)) as HT.
  pose proof (of_int_nonneg h ltac:(lia)) as HH.
  pose proof (of_int_le h t ltac:(lia)) as HHT.
  pose proof (of_int_int64 h ltac:(lia)) as [_ Bh].
  pose proof (of_int_int64 t ltac:(lia)) as [_ Bt].
  pose proof (hitRate_bounds h t Hh ltac:(lia)) as [R0 R1].
  assert (Hq0 : (0 <= div (of_int h) (of_int t))%Q).
  { apply rnd_nonneg. apply Qle_shift_div_l; lra. }
  assert (Hq1 : (div (of_int h) (of_int t) <= rnd 1)%Q).
  { apply rnd_le. apply Qle_shift_div_r; lra. }
  assert (HT0 : (0 <= of_int t)%Q) by lra.
  split; [lra|].
  split; [apply (finite_bounds _ _ _ HH Bh); reflexivity|].
  split; [apply (finite_bounds _ _ _ HT0 Bt); reflexivity|].
  split; [apply (finite_bounds _ _ _ Hq0 Hq1); vm_compute; reflexivity|].
  apply (finite_bounds _ _ _ R0 R1); reflexivity.
Qed.



(** One hit in three lookups: the binary64 number next to 33.3333. *)
Example hitRate_one_third :
  Qred (HitRate (MetricCache_Stats samples.oneHitTwoMisses))
  = (2345624805922133 # 70368744177664)%Q.
Proof. vm_compute. reflexivity. Qed.

End metric_facts.

(** ** The enhanced gatherer: retries and counters *)
Module prometheus_facts.
Import model prometheus float64_facts.
Import float64.

Lemma ifMetrics_mark mark eg : In mark [markSuccess; markFailure; markTimeout] ->
  ifMetrics mark eg = mark eg.
Proof.
  unfold ifMetrics. intros Hin.
  destruct (metrics eg) eqn:Hm; [reflexivity|].
  simpl in Hin.
  destruct Hin as [<-|[<-|[<-|[]]]];
    unfold markSuccess, markFailure, markTimeout; rewrite Hm; reflexivity.
Qed.

Lemma attemptsMade_app l1 l2 :
  attemptsMade (l1 ++ l2) = (attemptsMade l1 + attemptsMade l2)%nat.
Proof.
  unfold attemptsMade. rewrite List.filter_app, length_app. reflexivity.
Qed.

(** Each turn of the loop makes at most one attempt. *)
Lemma retryLoop_attempts msg step env fuel : forall retry lastErr eg log,
  (attemptsMade (snd (fst (retryLoop msg step env fuel retry lastErr eg log)))
   <= attemptsMade log + fuel)%nat.
Proof.
  induction fuel as [|fuel IH]; intros retry lastErr eg log;
    cbn [retryLoop].
  - cbn [fst snd]. lia.
  - destruct (ctxAtTop (env retry)); cbn [fst snd]; [lia|].
    destruct (queried (env retry)) as [r|err]; cbn [fst snd].
    { rewrite attemptsMade_app. unfold attemptsMade; simpl; lia. }
    destruct (isContextError (Some err)); cbn [fst snd].
    { rewrite attemptsMade_app. unfold attemptsMade; simpl; lia. }
    destruct (retry <? maxRetries - 1)%nat.
    + destruct (backoffSelect (env retry)); cbn [fst snd].
      * etransitivity; [apply IH|].
        rewrite !attemptsMade_app. unfold attemptsMade; simpl; lia.
      * rewrite attemptsMade_app. unfold attemptsMade; simpl; lia.
    + etransitivity; [apply IH|].
      rewrite attemptsMade_app. unfold attemptsMade; simpl; lia.
Qed.

(** The loop whose two attempts are refused while the context lives. *)
Lemma retryLoop_exhausted msg step env eg e0 e1 :
  ctxAtTop (env 0%nat) = None ->
  queried (env 0%nat) = Err e0 ->
  isContextError (Some e0) = false ->
  backoffSelect (env 0%nat) = TimerFired ->
  ctxAtTop (env 1%nat) = None ->
  queried (env 1%nat) = Err e1 ->
  isContextError (Some e1) = false ->
  retryLoop msg step env maxRetries 0%nat None eg []
  = (markFailure eg,
     [Attempt 0; Sleep (1 * Millisecond * step); Attempt 1], Err e1).
Proof.
  intros Hc0 Hq0 Hi0 Hb0 Hc1 Hq1 Hi1.
  unfold maxRetries. cbn [retryLoop].
  rewrite Hc0, Hq0, Hi0. cbn [Nat.ltb Nat.leb Nat.sub maxRetries].
  rewrite Hb0, Hc1, Hq1, Hi1. cbn [Nat.ltb Nat.leb Nat.sub maxRetries].
  rewrite ifMetrics_mark by (simpl; auto). reflexivity.
Qed.

(** The loop whose attempt meets a context-classified error. *)
Lemma retryLoop_context_error msg step env eg e :
  ctxAtTop (env 0%nat) = None ->
  queried (env 0%nat) = Err e ->
  isContextError (Some e) = true ->
  retryLoop msg step env maxRetries 0%nat None eg []
  = (markTimeout eg, [Attempt 0], Err e).
Proof.
  intros Hc0 Hq0 Hi0.
  unfold maxRetries. cbn [retryLoop].
  rewrite Hc0, Hq0, Hi0.
  rewrite ifMetrics_mark by (simpl; auto). reflexivity.
Qed.

Lemma GetMetrics_recordExecutionTime eg d :
  let s := GetMetrics eg in
  let s' := GetMetrics (recordExecutionTime eg d) in
  TotalQueries s' = TotalQueries s /\
  SuccessfulQueries s' = SuccessfulQueries s /\
  FailedQueries s' = FailedQueries s /\
  TimeoutQueries s' = TimeoutQueries s.
Proof.
  unfold GetMetrics, recordExecutionTime.
  destruct (metrics eg) as [m|] eqn:Hm; cbn; rewrite ?Hm; cbn; auto.
Qed.

Lemma GetMetrics_markFailure eg m :
  metrics eg = Some m ->
  let s := GetMetrics eg in
  let s' := GetMetrics (markFailure eg) in
  TotalQueries s' = int64 (TotalQueries s + 1) /\
  SuccessfulQueries s' = SuccessfulQueries s /\
  FailedQueries s' = int64 (FailedQueries s + 1) /\
  TimeoutQueries s' = TimeoutQueries s.
Proof.
  intros Hm. unfold GetMetrics, markFailure. rewrite Hm. cbn. auto.
Qed.

Lemma GetMetrics_markTimeout eg m :
  metrics eg = Some m ->
  let s := GetMetrics eg in
  let s' := GetMetrics (markTimeout eg) in
  TotalQueries s' = int64 (TotalQueries s + 1) /\
  SuccessfulQueries s' = SuccessfulQueries s /\
  FailedQueries s' = FailedQueries s /\
  TimeoutQueries s' = int64 (TimeoutQueries s + 1).
Proof.
  intros Hm. unfold GetMetrics, markTimeout. rewrite Hm. cbn. auto.
Qed.

Lemma GetMetrics_markSuccess eg m :
  metrics eg = Some m ->
  let s := GetMetrics eg in
  let s' := GetMetrics (markSuccess eg) in
  TotalQueries s' = int64 (TotalQueries s + 1) /\
  SuccessfulQueries s' = int64 (SuccessfulQueries s + 1) /\
  FailedQueries s' = FailedQueries s /\
  TimeoutQueries s' = TimeoutQueries s.
Proof.
  intros Hm. unfold GetMetrics, markSuccess. rewrite Hm. cbn. auto.
Qed.

(** *** The counters agree at all times *)

Lemma int64_sum_succ (a b c : Z) :
  int64 (int64 (a + b + c) + 1) = int64 (int64 (a + 1) + b + c).
Proof.
  rewrite int64_add_l.
  replace (int64 (a + 1) + b + c) with (int64 (a + 1) + (b + c)) by lia.
  rewrite int64_add_l. f_equal. lia.
Qed.

Lemma countersAgree_new datasourceID :
  countersAgree (NewEnhancedGatherer datasourceID).
Proof. reflexivity. Qed.

Lemma countersAgree_markSuccess eg :
  countersAgree eg -> countersAgree (markSuccess eg).
Proof.
  unfold countersAgree, markSuccess.
  destruct (metrics eg) as [m|] eqn:Hm; [|rewrite Hm; auto].
  cbn. intros ->. apply int64_sum_succ.
Qed.

Lemma countersAgree_markFailure eg :
  countersAgree eg -> countersAgree (markFailure eg).
Proof.
  unfold countersAgree, markFailure.
  destruct (metrics eg) as [m|] eqn:Hm; [|rewrite Hm; auto].
  cbn. intros ->.
  replace (queriesSuccessful m + int64 (queriesFailed m + 1) + queriesTimeout m)
    with (int64 (queriesFailed m + 1) + queriesSuccessful m + queriesTimeout m)
    by lia.
  rewrite <- int64_sum_succ. do 3 f_equal. lia.
Qed.

Lemma countersAgree_markTimeout eg :
  countersAgree eg -> countersAgree (markTimeout eg).
Proof.
  unfold countersAgree, markTimeout.
  destruct (metrics eg) as [m|] eqn:Hm; [|rewrite Hm; auto].
  cbn. intros ->.
  replace (queriesSuccessful m + queriesFailed m + int64 (queriesTimeout m + 1))
    with (int64 (queriesTimeout m + 1) + queriesSuccessful m + queriesFailed m)
    by lia.
  rewrite <- int64_sum_succ. do 3 f_equal. lia.
Qed.

Lemma countersAgree_recordExecutionTime eg d :
  countersAgree eg -> countersAgree (recordExecutionTime eg d).
Proof.
  unfold countersAgree, recordExecutionTime.
  destruct (metrics eg) as [m|] eqn:Hm; [|rewrite Hm; auto].
  cbn. auto.
Qed.

Lemma countersAgree_SetTimeout eg d :
  countersAgree eg -> countersAgree (SetTimeout eg d).
Proof. unfold countersAgree, SetTimeout. cbn. auto. Qed.

Lemma countersAgree_ifMetrics mark eg :
  (countersAgree eg -> countersAgree (mark eg)) ->
  countersAgree eg -> countersAgree (ifMetrics mark eg).
Proof. unfold ifMetrics. destruct (metrics eg); auto. Qed.

Lemma countersAgree_retryLoop msg step env fuel :
  forall retry lastErr eg log,
    countersAgree eg ->
    countersAgree (fst (fst (retryLoop msg step env fuel retry lastErr eg log))).
Proof.
  induction fuel as [|fuel IH]; intros retry lastErr eg log Heg;
    cbn [retryLoop].
  - apply countersAgree_ifMetrics; auto using countersAgree_markFailure.
  - destruct (ctxAtTop (env retry)); cbn [fst snd].
    { apply countersAgree_ifMetrics; auto using countersAgree_markTimeout. }
    destruct (queried (env retry)) as [r|err]; cbn [fst snd].
    { apply countersAgree_ifMetrics; auto using countersAgree_markSuccess. }
    destruct (isContextError (Some err)); cbn [fst snd].
    { apply countersAgree_ifMetrics; auto using countersAgree_markTimeout. }
    destruct (retry <? maxRetries - 1)%nat; [|apply IH; exact Heg].
    destruct (backoffSelect (env retry)); cbn [fst snd]; [apply IH|];
      exact Heg.
Qed.

Lemma reachable_countersAgree eg : reachable eg -> countersAgree eg.
Proof.
  induction 1 as [ds|eg d _ IH|eg mark _ IH Hin|eg d _ IH].
  - apply countersAgree_new.
  - apply countersAgree_SetTimeout. exact IH.
  - cbn in Hin. destruct Hin as [<-|[<-|[<-|[]]]];
      auto using countersAgree_markSuccess, countersAgree_markFailure,
                 countersAgree_markTimeout.
  - apply countersAgree_recordExecutionTime. exact IH.
Qed.

(** Whatever a call meets, the total it leaves is the sum of the three
    outcomes. *)
Lemma countersAgree_Gather eg env elapsed start end_ :
  countersAgree eg ->
  countersAgree (fst (fst (GatherSingle eg env elapsed))) /\
  countersAgree (fst (fst (GatherRange eg start end_ env elapsed))).
Proof.
  intros Heg. unfold GatherSingle, GatherRange, executeWithRetry,
    executeWithRetryForRange.
  split.
  - pose proof (countersAgree_retryLoop "query deadline exceeded: " 100 env
                  maxRetries 0%nat None eg [] Heg) as H.
    destruct (retryLoop _ _ _ _ _ _ _ _) as [[eg1 log] r]. cbn in *.
    apply countersAgree_recordExecutionTime. exact H.
  - pose proof (countersAgree_retryLoop "range query deadline exceeded: " 250
                  env maxRetries 0%nat None eg [] Heg) as H.
    destruct (retryLoop _ _ _ _ _ _ _ _) as [[eg1 log] r]. cbn in *.
    apply countersAgree_recordExecutionTime. exact H.
Qed.

(** *** The claims on the retry loop *)

Lemma GatherSingle_attempts eg env elapsed :
  (attemptsMade (snd (fst (GatherSingle eg env elapsed))) <= 2)%nat.
Proof.
  unfold GatherSingle, executeWithRetry.
  pose proof (retryLoop_attempts "query deadline exceeded: " 100 env
                maxRetries 0%nat None eg []) as H.
  destruct (retryLoop _ _ _ _ _ _ _ _) as [[eg1 log] r]. cbn [fst snd] in *.
  change (WithTimeout (timeoutDuration eg) :: log)
    with ([WithTimeout (timeoutDuration eg)] ++ log).
  rewrite attemptsMade_app. exact H.
Qed.

(** C2, as the code has it: [GatherSingle] makes at most two attempts,
    the first try and one retry.  When both are refused with errors that
    are not context-classified and the context stays live, it sleeps
    100ms between them, returns the last error as it is, and records a
    failure. *)
Theorem C2_one_retry_then_failure eg m env elapsed e0 e1 :
  metrics eg = Some m ->
  ctxAtTop (env 0%nat) = None ->
  queried (env 0%nat) = Err e0 ->
  isContextError (Some e0) = false ->
  backoffSelect (env 0%nat) = TimerFired ->
  ctxAtTop (env 1%nat) = None ->
  queried (env 1%nat) = Err e1 ->
  isContextError (Some e1) = false ->
  let run := GatherSingle eg env elapsed in
  (forall env', (attemptsMade (snd (fst (GatherSingle eg env' elapsed))) <= 2)%nat) /\
  snd (fst run) = [WithTimeout (timeoutDuration eg); Attempt 0;
                   Sleep (100 * Millisecond); Attempt 1] /\
  snd run = Err e1 /\
  TotalQueries (GetMetrics (fst (fst run)))
    = int64 (TotalQueries (GetMetrics eg) + 1) /\
  FailedQueries (GetMetrics (fst (fst run)))
    = int64 (FailedQueries (GetMetrics eg) + 1) /\
  SuccessfulQueries (GetMetrics (fst (fst run)))
    = SuccessfulQueries (GetMetrics eg) /\
  TimeoutQueries (GetMetrics (fst (fst run)))
    = TimeoutQueries (GetMetrics eg).
Proof.
  intros Hm Hc0 Hq0 Hi0 Hb0 Hc1 Hq1 Hi1. cbv zeta.
  split; [intros env'; apply GatherSingle_attempts|].
  unfold GatherSingle, executeWithRetry.
  rewrite (retryLoop_exhausted _ _ _ _ _ _ Hc0 Hq0 Hi0 Hb0 Hc1 Hq1 Hi1).
  cbn [fst snd].
  split; [reflexivity|]. split; [reflexivity|].
  destruct (GetMetrics_recordExecutionTime (markFailure eg) elapsed)
    as (-> & -> & -> & ->).
  destruct (GetMetrics_markFailure eg m Hm) as (-> & -> & -> & ->).
  auto.
Qed.

(** What [isContextError] reads is the message, nothing else. *)
Lemma isContextError_words e :
  isContextError (Some e) = true <->
  Contains (Error e) "deadline exceeded" = true \/
  Contains (Error e) "canceled" = true \/
  Contains (Error e) "timeout" = true.
Proof.
  unfold isContextError. rewrite !orb_true_iff. tauto.
Qed.

(** A context sentinel behind [%w] wrappings is context-classified: each
    wrapping keeps the message of what it wraps. *)
Lemma isContextError_wrapAll prefixes s :
  isContextError (Some (wrapAll prefixes (Sentinel s))) = true.
Proof.
  apply isContextError_words.
  destruct (orb_prop _ _ (Contains_sentinel s)) as [H|H];
    [left | right; left]; apply Contains_wrapAll; exact H.
Qed.

(** C5, as the code has it: an error is context-classified exactly when
    its message holds one of the words "deadline exceeded", "canceled",
    "timeout"; the classification of two errors with the same message
    is the same, whatever they wrap.  A context sentinel, bare or behind
    [%w] wrappings, is so classified, and so are other errors with such
    a message.  When the first attempt of [GatherSingle] or
    [GatherRange] returns such an error, that attempt is the only one,
    the error is returned as it is, and the timeout counter, not the
    failure counter, goes up by one. *)
Theorem C5_context_error_not_retried eg m env elapsed start end_ e :
  metrics eg = Some m ->
  ctxAtTop (env 0%nat) = None ->
  queried (env 0%nat) = Err e ->
  isContextError (Some e) = true ->
  let single := GatherSingle eg env elapsed in
  let range := GatherRange eg start end_ env elapsed in
  (forall e',
     isContextError (Some e') = true <->
     Contains (Error e') "deadline exceeded" = true \/
     Contains (Error e') "canceled" = true \/
     Contains (Error e') "timeout" = true) /\
  (forall e1 e2,
     Error e1 = Error e2 ->
     isContextError (Some e1) = isContextError (Some e2)) /\
  (forall prefixes s,
     carriesContextSignal (wrapAll prefixes (Sentinel s)) = true /\
     isContextError (Some (wrapAll prefixes (Sentinel s))) = true) /\
  snd (fst single) = [WithTimeout (timeoutDuration eg); Attempt 0] /\
  snd (fst range)
    = [WithTimeout (calculateRangeTimeout eg start end_); Attempt 0] /\
  snd single = Err e /\ snd range = Err e /\
  fst (fst range) = fst (fst single) /\
  TotalQueries (GetMetrics (fst (fst single)))
    = int64 (TotalQueries (GetMetrics eg) + 1) /\
  TimeoutQueries (GetMetrics (fst (fst single)))
    = int64 (TimeoutQueries (GetMetrics eg) + 1) /\
  FailedQueries (GetMetrics (fst (fst single)))
    = FailedQueries (GetMetrics eg) /\
  SuccessfulQueries (GetMetrics (fst (fst single)))
    = SuccessfulQueries (GetMetrics eg).
Proof.
  intros Hm Hc0 Hq0 Hi0. cbv zeta.
  split; [exact isContextError_words|].
  split.
  { intros e1 e2 He. unfold isContextError. rewrite He. reflexivity. }
  split.
  { intros prefixes s. split;
      [apply carriesContextSignal_wrapAll | apply isContextError_wrapAll]. }
  unfold GatherSingle, GatherRange, executeWithRetry, executeWithRetryForRange.
  rewrite !(retryLoop_context_error _ _ _ _ _ Hc0 Hq0 Hi0).
  cbn [fst snd].
  do 5 (split; [reflexivity|]).
  destruct (GetMetrics_recordExecutionTime (markTimeout eg) elapsed)
    as (-> & -> & -> & ->).
  destruct (GetMetrics_markTimeout eg m Hm) as (-> & -> & -> & ->).
  auto.
Qed.

(** The context that ends during the backoff: the loop returns its
    error and no counter moves. *)
Lemma retryLoop_deadline_in_backoff msg step env eg e c :
  ctxAtTop (env 0%nat) = None ->
  queried (env 0%nat) = Err e ->
  isContextError (Some e) = false ->
  backoffSelect (env 0%nat) = CtxDone c ->
  retryLoop msg step env maxRetries 0%nat None eg []
  = (eg, [Attempt 0], Err c).
Proof.
  intros Hc0 Hq0 Hi0 Hb0.
  unfold maxRetries. cbn [retryLoop].
  rewrite Hc0, Hq0, Hi0. cbn [Nat.ltb Nat.leb Nat.sub maxRetries].
  rewrite Hb0. reflexivity.
Qed.

(** C3, where the code departs from it: the first attempt is refused
    and the deadline of the context falls during the backoff.  The call
    ends there with the error of the context and none of the four
    counters has moved, for [GatherSingle] and for [GatherRange]. *)
Theorem C3_no_outcome_recorded :
  let eg := NewEnhancedGatherer "prom" in
  let single := GatherSingle eg samples.deadlineInBackoff Second in
  let range := GatherRange eg 0 Hour samples.deadlineInBackoff Second in
  snd single = Err DeadlineExceeded /\
  snd range = Err DeadlineExceeded /\
  attemptsMade (snd (fst single)) = 1%nat /\
  GetMetrics (fst (fst range)) = GetMetrics (fst (fst single)) /\
  TotalQueries (GetMetrics (fst (fst single))) = 0 /\
  SuccessfulQueries (GetMetrics (fst (fst single))) = 0 /\
  FailedQueries (GetMetrics (fst (fst single))) = 0 /\
  TimeoutQueries (GetMetrics (fst (fst single))) = 0.
Proof.
  cbv zeta. unfold GatherSingle, GatherRange, executeWithRetry,
    executeWithRetryForRange.
  rewrite !(retryLoop_deadline_in_backoff _ _ samples.deadlineInBackoff _
              (ErrorsNew "connection refused") DeadlineExceeded)
    by reflexivity.
  cbn [fst snd]. repeat split; reflexivity.
Qed.

(** C2 fails as stated: with a backend that refuses every connection
    and a context that stays live, [GatherSingle] makes two attempts, not
    three, and returns the last error bare. *)
Lemma C2_counterexample :
  let run :=
    GatherSingle (NewEnhancedGatherer "prom") samples.refusingProm Second in
  attemptsMade (snd (fst run)) = 2%nat /\
  attemptsMade (snd (fst run)) <> 3%nat /\
  snd run = Err (ErrorsNew "connection refused").
Proof. vm_compute. repeat split. discriminate. Qed.

Lemma C2_witness :
  let run :=
    GatherSingle (NewEnhancedGatherer "prom") samples.refusingProm Second in
  snd (fst run) = [WithTimeout (5 * Second); Attempt 0;
                   Sleep (100 * Millisecond); Attempt 1] /\
  snd run = Err (ErrorsNew "connection refused") /\
  FailedQueries (GetMetrics (fst (fst run))) = 1.
Proof.
  destruct (C2_one_retry_then_failure (NewEnhancedGatherer "prom") _
              samples.refusingProm Second
              (ErrorsNew "connection refused") (ErrorsNew "connection refused")
              eq_refl eq_refl eq_refl eq_refl eq_refl eq_refl eq_refl eq_refl)
    as (_ & Hlog & Hr & _ & Hf & _).
  cbv zeta. split; [exact Hlog|]. split; [exact Hr|]. exact Hf.
Defined.

(** C5 fails as stated, both ways: an error of the backend that no
    context made is context-classified because its message speaks of a
    timeout; and an error of a type of its own that unwraps to the
    deadline error of the context, under a message without the three
    words, is not. *)
Lemma C5_counterexample :
  (carriesContextSignal (ErrorsNew "request timeout") = false /\
   isContextError (Some (ErrorsNew "request timeout")) = true) /\
  (carriesContextSignal samples.unreachable = true /\
   isContextError (Some samples.unreachable) = false).
Proof. repeat split; reflexivity. Qed.

Lemma C5_witness :
  let run :=
    GatherSingle (NewEnhancedGatherer "prom") samples.requestTimeout Second in
  snd (fst run) = [WithTimeout (5 * Second); Attempt 0] /\
  snd run = Err (ErrorsNew "request timeout") /\
  TimeoutQueries (GetMetrics (fst (fst run))) = 1 /\
  FailedQueries (GetMetrics (fst (fst run))) = 0.
Proof.
  destruct (C5_context_error_not_retried (NewEnhancedGatherer "prom") _
              samples.requestTimeout Second 0 Hour
              (ErrorsNew "request timeout")
              eq_refl eq_refl eq_refl eq_refl)
    as (_ & _ & _ & Hlog & _ & Hr & _ & _ & _ & Ht & Hf & _).
  cbv zeta. split; [exact Hlog|]. split; [exact Hr|].
  split; [exact Ht | exact Hf].
Defined.

(** *** The timeout of a range query *)

Lemma reachable_timeout eg :
  reachable eg -> MinTimeout <= timeout eg <= MaxTimeout.
Proof.
  induction 1 as [ds|eg d _ IH|eg mark _ IH Hin|eg d _ IH].
  - cbn. unfold MinTimeout, MaxTimeout, DefaultTimeout, Second. lia.
  - unfold SetTimeout. cbn [timeout].
    unfold MinTimeout, MaxTimeout, DefaultTimeout, Second in *.
    destruct (d <=? 0) eqn:E1;
      repeat match goal with
             | |- context [if ?c then _ else _] => destruct c eqn:?
             end; lia.
  - cbn in Hin. destruct Hin as [<-|[<-|[<-|[]]]];
      unfold markSuccess, markFailure, markTimeout;
      destruct (metrics eg); exact IH.
  - unfold recordExecutionTime. destruct (metrics eg); exact IH.
Qed.

Lemma Sub_le (t u t' u' : Z) : t - u <= t' - u' -> Sub t u <= Sub t' u'.
Proof. unfold Sub. lia. Qed.

Lemma Sub_range (t u : Z) : - 2 ^ 63 <= Sub t u <= 2 ^ 63 - 1.
Proof. unfold Sub. lia. Qed.

Lemma of_int_Hour : (float64.of_int (1 * Hour) == inject_Z Hour)%Q.
Proof.
  replace (1 * Hour) with Hour by lia.
  apply of_int_small. unfold Hour, Second. lia.
Qed.

Lemma scaleFactor_le (r r' : Z) : r <= r' -> (scaleFactor r <= scaleFactor r')%Q.
Proof.
  intros H. unfold scaleFactor. apply div_le; [|apply of_int_le; exact H].
  rewrite of_int_Hour. change 0%Q with (inject_Z 0). rewrite <- Zlt_Qlt.
  unfold Hour, Second. lia.
Qed.

Lemma scaleFactor_Hour : (scaleFactor Hour == 1)%Q.
Proof. vm_compute. reflexivity. Qed.

Lemma scaleFactor_past_Hour : (1 < scaleFactor (Hour + 1))%Q.
Proof. vm_compute. reflexivity. Qed.

Lemma calculateRangeTimeout_eq eg start end_ :
  calculateRangeTimeout eg start end_
  = if gtb (scaleFactor (Sub end_ start)) 1
    then Z.min (30 * Second)
               (to_int (mul (of_int (timeoutDuration eg))
                            (scaleFactor (Sub end_ start))))
    else timeoutDuration eg.
Proof.
  unfold calculateRangeTimeout, scaleFactor; cbv zeta.
  destruct (gtb _ 1); [|reflexivity].
  destruct (30 * Second <? _) eqn:E.
  - apply Z.ltb_lt in E. lia.
  - apply Z.ltb_ge in E. lia.
Qed.

(** Scaled by a factor above one, the timeout does not fall below the base. *)
Lemma scaled_ge_base (base : Z) (s : Q) :
  0 <= base <= 2 ^ 53 -> (1 <= s)%Q ->
  base <= to_int (mul (of_int base) s).
Proof.
  intros Hb Hs.
  assert (HB : (of_int base == inject_Z base)%Q) by (apply of_int_small; lia).
  assert (H0 : (0 <= inject_Z base)%Q) by (rewrite <- (Zle_Qle 0); lia).
  rewrite <- (to_int_Z base) at 1. apply to_int_le.
  rewrite <- (rnd_int base) by lia. apply rnd_le.
  rewrite HB. nra.
Qed.

Lemma scaled_le (base : Z) (s s' : Q) :
  0 <= base <= 2 ^ 53 -> (s <= s')%Q ->
  to_int (mul (of_int base) s) <= to_int (mul (of_int base) s').
Proof.
  intros Hb Hs. apply to_int_le, mul_le; [|exact Hs].
  rewrite of_int_small by lia. rewrite <- (Zle_Qle 0). lia.
Qed.

Local Open Scope Q_scope.

(** *** The float64 arithmetic of the timeout *)

Lemma scaleFactor_int64 (r : Z) :
  (- 2 ^ 63 <= r <= 2 ^ 63 - 1)%Z ->
  - inject_Z (2 ^ 22) <= scaleFactor r <= inject_Z (2 ^ 22).
Proof.
  intros Hr. split.
  - apply (Qle_trans _ (scaleFactor (- 2 ^ 63))); [|apply scaleFactor_le; lia].
    apply Qle_bool_iff. vm_compute. reflexivity.
  - apply (Qle_trans _ (scaleFactor (2 ^ 63 - 1))); [apply scaleFactor_le; lia|].
    apply Qle_bool_iff. vm_compute. reflexivity.
Qed.

(** The float64 operations of [calculateRangeTimeout] stay in the domain
    of the model: no division by zero, no overflow, and the product fits
    the int64 it is converted to. *)
Lemma calculateRangeTimeout_defined eg start end_ :
  reachable eg ->
  let r := Sub end_ start in
  let product := mul (of_int (timeoutDuration eg)) (scaleFactor r) in
  ~ of_int (1 * Hour) == 0 /\
  finite (of_int r) /\ finite (scaleFactor r) /\
  finite (of_int (timeoutDuration eg)) /\ finite product /\
  (- 2 ^ 63 <= to_int product < 2 ^ 63)%Z.
Proof.
  intros Heg. cbv zeta.
  pose proof (reachable_timeout eg Heg) as Hbase.
  unfold timeoutDuration, MinTimeout, MaxTimeout in *.
  set (b := timeout eg) in *. set (r := Sub end_ start).
  pose proof (Sub_range end_ start) as Hr. fold r in Hr.
  pose proof (of_int_int64 r Hr) as HR.
  pose proof (scaleFactor_int64 r Hr) as HS.
  assert (HB : of_int b == inject_Z b).
  { apply of_int_small. unfold Second in *. lia. }
  assert (Hb : 0 <= inject_Z b <= inject_Z (2 ^ 35)).
  { rewrite <- (Zle_Qle 0), <- Zle_Qle. unfold Second in *. lia. }
  assert (HP : - inject_Z (2 ^ 57) <= mul (of_int b) (scaleFactor r)
               <= inject_Z (2 ^ 57)).
  { unfold mul. rewrite HB.
    change (inject_Z (2 ^ 22)) with (4194304 # 1) in HS.
    change (inject_Z (2 ^ 35)) with (34359738368 # 1) in Hb.
    split.
    - apply (Qle_trans _ (rnd (- inject_Z (2 ^ 57)))).
      + apply Qle_bool_iff. vm_compute. reflexivity.
      + apply rnd_le. change (inject_Z (2 ^ 57)) with (144115188075855872 # 1).
        nra.
    - apply (Qle_trans _ (rnd (inject_Z (2 ^ 57)))).
      + apply rnd_le. change (inject_Z (2 ^ 57)) with (144115188075855872 # 1).
        nra.
      + apply Qle_bool_iff. vm_compute. reflexivity. }
  split; [|split; [|split; [|split; [|split]]]].
  - rewrite of_int_Hour. intros H.
    assert (Hpos : 0 < inject_Z Hour)
      by (rewrite <- (Zlt_Qlt 0); unfold Hour, Second; lia).
    lra.
  - apply (finite_bounds _ _ _ (proj1 HR) (proj2 HR)); reflexivity.
  - apply (finite_bounds _ _ _ (proj1 HS) (proj2 HS)); reflexivity.
  - rewrite <- HB in Hb.
    apply (finite_bounds _ _ _ (proj1 Hb) (proj2 Hb)); reflexivity.
  - apply (finite_bounds _ _ _ (proj1 HP) (proj2 HP)); reflexivity.
  - destruct HP as [Plo Phi].
    apply to_int_le in Plo, Phi.
    rewrite <- inject_Z_opp, to_int_Z in Plo. rewrite to_int_Z in Phi. lia.
Qed.

Lemma scaled_timeout_accuracy eg start end_ :
  reachable eg -> (Hour < end_ - start)%Z ->
  let r := Sub end_ start in
  let exact := inject_Z (timeoutDuration eg) * (inject_Z r / inject_Z Hour) in
  let scaled :=
    to_int (mul (of_int (timeoutDuration eg)) (scaleFactor r)) in
  exact * (1 - 4 * eps) - 1 < inject_Z scaled <= exact * (1 + 4 * eps).
Proof.
  intros Heg Hlong. cbv zeta.
  pose proof (reachable_timeout eg Heg) as Hbase.
  unfold timeoutDuration, MinTimeout, MaxTimeout in *.
  set (b := timeout eg) in *. set (r := Sub end_ start).
  assert (Hr : (Hour + 1 <= r)%Z).
  { unfold r, Sub. unfold Hour, Second in *. lia. }
  assert (HH : 0 < inject_Z Hour).
  { rewrite <- (Zlt_Qlt 0). unfold Hour, Second. lia. }
  assert (Hb1 : 1 <= inject_Z b).
  { change 1 with (inject_Z 1). rewrite <- Zle_Qle. unfold Second in *. lia. }
  assert (HB : of_int b == inject_Z b).
  { apply of_int_small. unfold Second in *. lia. }
  assert (Hx0 : 1 <= inject_Z r / inject_Z Hour).
  { apply Qle_shift_div_l; [exact HH|]. rewrite Qmult_1_l, <- Zle_Qle. lia. }
  pose proof pow2_tiny as Htiny. unfold eps in *.
  (* the conversion of the range *)
  assert (Hr1 : 1 <= inject_Z r).
  { change 1 with (inject_Z 1). rewrite <- Zle_Qle.
    unfold Hour, Second in Hr. lia. }
  pose proof (rnd_err (inject_Z r) ltac:(lra)) as [LR UR].
  fold (of_int r) in LR, UR. unfold eps in LR, UR.
  (* the quotient *)
  assert (Hx1 : inject_Z r / inject_Z Hour * (1 - eps)
                <= of_int r / inject_Z Hour
                <= inject_Z r / inject_Z Hour * (1 + eps)).
  { unfold eps. split.
    - apply Qle_shift_div_l; [exact HH|].
      assert (E : inject_Z r / inject_Z Hour
                  * (1 - (1 # 9007199254740992)) * inject_Z Hour
                  == inject_Z r * (1 - (1 # 9007199254740992)))
        by (field; lra).
      rewrite E. exact LR.
    - apply Qle_shift_div_r; [exact HH|].
      assert (E : inject_Z r / inject_Z Hour
                  * (1 + (1 # 9007199254740992)) * inject_Z Hour
                  == inject_Z r * (1 + (1 # 9007199254740992)))
        by (field; lra).
      rewrite E. exact UR. }
  unfold eps in Hx1.
  assert (Hx1pos : 2 ^ (-1022) <= of_int r / inject_Z Hour).
  { destruct Hx1 as [L _].
    apply (Qle_trans _ (1 # 2)); [exact Htiny|].
    apply (Qle_trans _ (inject_Z r / inject_Z Hour
                        * (1 - (1 # 9007199254740992)))); [|exact L].
    apply (Qle_trans _ (1 * (1 - (1 # 9007199254740992)))); [lra|].
    apply Qmult_le_compat_r; [exact Hx0 | lra]. }
  assert (ES : scaleFactor r == rnd (of_int r / inject_Z Hour)).
  { unfold scaleFactor, div. rewrite of_int_Hour. reflexivity. }
  pose proof (rnd_err _ Hx1pos) as Hx2. rewrite <- ES in Hx2.
  assert (Hs1 : 1 <= scaleFactor r).
  { apply (Qle_trans _ (scaleFactor (Hour + 1)));
      [apply Qlt_le_weak, scaleFactor_past_Hour | apply scaleFactor_le; exact Hr]. }
  (* the product *)
  assert (EP : mul (of_int b) (scaleFactor r)
               == rnd (inject_Z b * scaleFactor r)).
  { unfold mul. rewrite HB. reflexivity. }
  assert (Hprod : 1 <= inject_Z b * scaleFactor r).
  { apply (Qle_trans _ (1 * scaleFactor r)); [lra|].
    apply Qmult_le_compat_r; lra. }
  pose proof (rnd_err (inject_Z b * scaleFactor r) ltac:(lra)) as Hx3.
  rewrite <- EP in Hx3.
  pose proof (three_roundings _ _ _ _ _ Hb1 Hx0 Hx1 Hx2 Hx3) as [L U].
  unfold eps in L, U.
  assert (HP0 : 0 <= mul (of_int b) (scaleFactor r)).
  { destruct Hx3 as [L3 _]. unfold eps in L3.
    apply (Qle_trans _ (inject_Z b * scaleFactor r
                        * (1 - (1 # 9007199254740992)))); [|exact L3].
    apply Qmult_le_0_compat; lra. }
  destruct (to_int_floor _ HP0) as [Tl Tu].
  split; lra.
Qed.

Local Close Scope Q_scope.

(** C6: for a gatherer made by [NewEnhancedGatherer] and changed by
    [SetTimeout], the timeout of a range query does not decrease when the
    range gets longer and never exceeds 30s; a range of one hour or less
    gets the base timeout; a longer one gets, capped at 30s, the base
    timeout multiplied in float64 by the quotient of the range by one
    hour, the fraction dropped, which is the exact product to within one
    nanosecond and a relative [2^-51]. *)
Theorem C6_range_timeout eg start end_ start' end_' :
  reachable eg ->
  end_ - start <= end_' - start' ->
  let t := calculateRangeTimeout eg start end_ in
  let t' := calculateRangeTimeout eg start' end_' in
  let scaled :=
    to_int (mul (of_int (timeoutDuration eg)) (scaleFactor (Sub end_ start))) in
  let exact :=
    (inject_Z (timeoutDuration eg)
     * (inject_Z (Sub end_ start) / inject_Z Hour))%Q in
  t <= t' /\
  t <= MaxTimeout /\
  (end_ - start <= Hour -> t = timeoutDuration eg) /\
  (Hour < end_ - start ->
   t = Z.min MaxTimeout scaled /\
   (exact * (1 - 4 * eps) - 1 < inject_Z scaled <= exact * (1 + 4 * eps))%Q).
Proof.
  intros Heg Hlen. cbv zeta.
  pose proof (reachable_timeout eg Heg) as Hbase.
  pose proof (scaled_timeout_accuracy eg start end_ Heg) as Hacc.
  cbv zeta in Hacc.
  unfold MinTimeout, MaxTimeout in *. unfold timeoutDuration in *.
  assert (Hb53 : 0 <= timeout eg <= 2 ^ 53) by (unfold Second in *; lia).
  pose proof (scaleFactor_le _ _ (Sub_le _ _ _ _ Hlen)) as Hs.
  rewrite !calculateRangeTimeout_eq. unfold timeoutDuration.
  split; [|split; [|split]].
  - destruct (gtb (scaleFactor (Sub end_ start)) 1) eqn:G;
      destruct (gtb (scaleFactor (Sub end_' start')) 1) eqn:G'.
    + apply Z.min_le_compat_l, scaled_le; assumption.
    + apply gtb_true in G. apply gtb_false in G'. exfalso. lra.
    + apply gtb_true in G'.
      pose proof (scaled_ge_base (timeout eg) _ Hb53 (Qlt_le_weak _ _ G')).
      lia.
    + lia.
  - destruct (gtb (scaleFactor (Sub end_ start)) 1); lia.
  - intros Hshort.
    assert (G : gtb (scaleFactor (Sub end_ start)) 1 = false).
    { apply gtb_false. rewrite <- scaleFactor_Hour.
      apply scaleFactor_le. unfold Sub. unfold Hour, Second in *. lia. }
    rewrite G. reflexivity.
  - intros Hlong.
    assert (G : gtb (scaleFactor (Sub end_ start)) 1 = true).
    { apply gtb_true. apply (Qlt_le_trans _ _ _ scaleFactor_past_Hour).
      apply scaleFactor_le. unfold Sub. unfold Hour, Second in *. lia. }
    rewrite G. split; [reflexivity | apply Hacc; exact Hlong].
Qed.

Lemma C6_witness :
  let eg := SetTimeout (NewEnhancedGatherer "prom") (5 * Second) in
  calculateRangeTimeout eg 0 (30 * 60 * Second)
  <= calculateRangeTimeout eg 0 (24 * Hour) /\
  calculateRangeTimeout eg 0 (30 * 60 * Second) <= MaxTimeout /\
  calculateRangeTimeout eg 0 (30 * 60 * Second) = 5 * Second.
Proof.
  cbv zeta.
  destruct (C6_range_timeout
              (SetTimeout (NewEnhancedGatherer "prom") (5 * Second))
              0 (30 * 60 * Second) 0 (24 * Hour)
              (reachable_SetTimeout _ _ (reachable_new "prom"))
              ltac:(vm_compute; discriminate))
    as (Hmono & Hmax & Hshort & _).
  split; [exact Hmono|]. split; [exact Hmax|].
  apply Hshort. vm_compute. discriminate.
Defined.

(** The cases of the test of [calculateRangeTimeout]. *)
Example calculateRangeTimeout_cases :
  let eg := SetTimeout (NewEnhancedGatherer "test-ds") (5 * Second) in
  calculateRangeTimeout eg 0 (30 * 60 * Second) = 5 * Second /\
  calculateRangeTimeout eg 0 (24 * Hour) = MaxTimeout /\
  calculateRangeTimeout eg 0 (5 * 60 * Second) = 5 * Second /\
  calculateRangeTimeout eg 0 (2 * Hour) = 10 * Second /\
  calculateRangeTimeout eg 0 (Hour + Hour / 3) = 6666666666.
Proof. vm_compute. repeat split. Qed.

(** *** The unit tests of the package, run on the model *)

Example SetTimeout_cases :
  let eg := NewEnhancedGatherer "test-ds" in
  timeoutDuration (SetTimeout eg (3 * Second)) = 3 * Second /\
  timeoutDuration (SetTimeout eg (500 * Millisecond)) = MinTimeout /\
  timeoutDuration (SetTimeout eg (60 * Second)) = MaxTimeout /\
  timeoutDuration (SetTimeout eg 0) = DefaultTimeout /\
  timeoutDuration (SetTimeout eg (-5 * Second)) = DefaultTimeout.
Proof. vm_compute. repeat split. Qed.

Example MetricsTracking :
  let eg := NewEnhancedGatherer "test-ds" in
  let stats := GetMetrics (markTimeout (markFailure (markSuccess eg))) in
  (TotalQueries stats, SuccessfulQueries stats, FailedQueries stats,
   TimeoutQueries stats) = (3, 1, 1, 1).
Proof. vm_compute. reflexivity. Qed.

Example RecordExecutionTime :
  let eg := recordExecutionTime (NewEnhancedGatherer "test-ds")
                                (100 * Millisecond) in
  getLastExecutionTime eg = 100 * Millisecond /\
  getLastExecutionTime
    (recordExecutionTime (markSuccess eg) (200 * Millisecond))
  = 150 * Millisecond.
Proof. vm_compute. split; reflexivity. Qed.

Example IsContextError_cases :
  isContextError None = false /\
  isContextError (Some (ErrorsNew "context deadline exceeded")) = true /\
  isContextError (Some (ErrorsNew "context canceled")) = true /\
  isContextError (Some (ErrorsNew "request timeout")) = true /\
  isContextError (Some (ErrorsNew "connection refused")) = false /\
  isContextError (Some DeadlineExceeded) = true /\
  isContextError (Some Canceled) = true.
Proof. vm_compute. repeat split. Qed.

End prometheus_facts.

(** ** The router *)
Module datasource_facts.
Import model datasource.

Section Router.
Variable client : Type.
Variable clientGatherSingle :
  client -> Query -> Z -> result (list MetricSeries).
Variable clientGatherRange :
  client -> Query -> Z -> Z -> Z -> result (list MetricSeries).
Variable defaultCreateFake : FakeDatasource -> result client.
Variable defaultCreatePrometheus : PrometheusDatasource -> result client.
Variable defaultCreateGraphite : GraphiteDatasource -> result client.
Variable defaultCreateInfluxDB : InfluxDBDatasource -> result client.

Abbreviation defaults :=
  (defaults client defaultCreateFake defaultCreatePrometheus
            defaultCreateGraphite defaultCreateInfluxDB).
Abbreviation createGatherer :=
  (createGatherer client defaultCreateFake defaultCreatePrometheus
                  defaultCreateGraphite defaultCreateInfluxDB).
Abbreviation createAll :=
  (createAll client defaultCreateFake defaultCreatePrometheus
             defaultCreateGraphite defaultCreateInfluxDB).
Abbreviation NewGatherer :=
  (NewGatherer client defaultCreateFake defaultCreatePrometheus
               defaultCreateGraphite defaultCreateInfluxDB).

(** Where the entries of a pass come from. *)
Lemma createAll_lookup cfg o dss : forall i gs m id g,
  createAll cfg o i dss gs = Ok m ->
  m !! id = Some g ->
  gs !! id = Some g \/
  (made g = o /\
   exists ds, ds ∈ dss /\ ID ds = id /\
              createGatherer cfg ds id = Ok (backend g)).
Proof.
  induction dss as [|ds rest IH]; intros i gs m id g Hrun Hg;
    cbn [datasource.createAll] in Hrun.
  - injection Hrun as <-. auto.
  - destruct (createGatherer cfg ds (ID ds)) as [c|e] eqn:Hc;
      [|discriminate].
    destruct (IH _ _ _ _ _ Hrun Hg) as [Hin|(Ho & ds' & Hds' & Hid & Hmk)].
    + destruct (decide (ID ds = id)) as [Heq|Hne].
      * subst id. rewrite lookup_insert_eq in Hin. injection Hin as <-.
        right. split; [reflexivity|]. exists ds.
        split; [left|]. auto.
      * rewrite lookup_insert_ne in Hin by exact Hne. auto.
    + right. split; [exact Ho|]. exists ds'.
      split; [right; exact Hds'|]. auto.
Qed.

(** A pass that succeeds has an entry for every data source it went
    through, and keeps the keys it started from. *)
Lemma createAll_is_Some cfg o dss : forall i gs m id,
  createAll cfg o i dss gs = Ok m ->
  is_Some (gs !! id) \/ (exists ds, ds ∈ dss /\ ID ds = id) ->
  is_Some (m !! id).
Proof.
  induction dss as [|ds rest IH]; intros i gs m id Hrun Hid;
    cbn [datasource.createAll] in Hrun.
  - injection Hrun as <-. destruct Hid as [H|(ds & Hds & _)]; [exact H|].
    inversion Hds.
  - destruct (createGatherer cfg ds (ID ds)) as [c|e] eqn:Hc;
      [|discriminate].
    apply (IH _ _ _ _ Hrun).
    destruct (decide (ID ds = id)) as [Heq|Hne].
    + left. subst id. rewrite lookup_insert_eq. eauto.
    + destruct Hid as [H|(ds' & Hds' & Hid')].
      * left. rewrite lookup_insert_ne by exact Hne. exact H.
      * apply elem_of_cons in Hds' as [->|Hds']; [contradiction|].
        right. eauto.
Qed.

Lemma useUserDatasources_lookup (ags gs : gmap string (Gatherer client)) id :
  useUserDatasources ags gs !! id
  = match gs !! id with
    | Some g => Some (default g (ags !! id))
    | None => None
    end.
Proof.
  unfold useUserDatasources. rewrite map_lookup_imap.
  destruct (gs !! id); reflexivity.
Qed.

Lemma applyAliases_other order : forall (ags gs gs' : gmap string (Gatherer client)) id,
  applyAliases order ags gs = Ok gs' ->
  id ∉ order.*1 ->
  gs' !! id = gs !! id.
Proof.
  induction order as [|[id0 alias0] rest IH]; intros ags gs gs' id Hrun Hid;
    cbn [applyAliases] in Hrun.
  - injection Hrun as <-. reflexivity.
  - destruct (ags !! alias0) as [ag|] eqn:Hag; [|discriminate].
    rewrite fmap_cons in Hid. cbn in Hid.
    apply not_elem_of_cons in Hid as [Hne Hid].
    rewrite (IH _ _ _ _ Hrun Hid).
    rewrite lookup_insert_ne by congruence. reflexivity.
Qed.

Lemma applyAliases_entry order : forall (ags gs gs' : gmap string (Gatherer client)) id alias,
  NoDup order.*1 ->
  applyAliases order ags gs = Ok gs' ->
  (id, alias) ∈ order ->
  is_Some (ags !! alias) /\ gs' !! id = ags !! alias.
Proof.
  induction order as [|[id0 alias0] rest IH];
    intros ags gs gs' id alias Hnd Hrun Hin; cbn [applyAliases] in Hrun.
  - inversion Hin.
  - destruct (ags !! alias0) as [ag|] eqn:Hag; [|discriminate].
    rewrite fmap_cons in Hnd. cbn in Hnd.
    apply NoDup_cons in Hnd as [Hfresh Hnd].
    apply elem_of_cons in Hin as [[= -> ->]|Hin].
    + rewrite (applyAliases_other _ _ _ _ _ Hrun Hfresh).
      rewrite lookup_insert_eq, Hag. eauto.
    + apply (IH _ _ _ _ _ Hnd Hrun Hin).
Qed.

Lemma applyAliases_missing order : forall (ags gs : gmap string (Gatherer client)) id alias,
  (id, alias) ∈ order ->
  ags !! alias = None ->
  exists e, applyAliases order ags gs = Err e.
Proof.
  induction order as [|[id0 alias0] rest IH]; intros ags gs id alias Hin Hnone;
    cbn [applyAliases].
  - inversion Hin.
  - destruct (ags !! alias0) as [ag|] eqn:Hag; [|eauto].
    apply elem_of_cons in Hin as [[= -> ->]|Hin]; [congruence|].
    eapply IH; eauto.
Qed.

(** The aliases are applied when each of them names a gatherer of the
    user. *)
Lemma applyAliases_succeeds order : forall (ags gs : gmap string (Gatherer client)),
  (forall id alias, (id, alias) ∈ order -> is_Some (ags !! alias)) ->
  exists gs', applyAliases order ags gs = Ok gs'.
Proof.
  induction order as [|[id0 alias0] rest IH]; intros ags gs Hall;
    cbn [applyAliases].
  - eauto.
  - destruct (Hall id0 alias0 ltac:(left)) as [ag ->].
    apply IH. intros id alias Hin. apply (Hall id alias). right. exact Hin.
Qed.

(** A pass succeeds when each of its data sources can be given a
    gatherer. *)
Lemma createAll_succeeds cfg o dss : forall i gs,
  (forall ds, ds ∈ dss -> exists c, createGatherer cfg ds (ID ds) = Ok c) ->
  exists m, createAll cfg o i dss gs = Ok m.
Proof.
  induction dss as [|ds rest IH]; intros i gs Hall;
    cbn [datasource.createAll].
  - eauto.
  - destruct (Hall ds ltac:(left)) as [c ->].
    apply IH. intros ds' Hin. apply Hall. right. exact Hin.
Qed.

(** C4: a router is built when each data source can be given a gatherer
    and every alias names a data source of the user, and construction
    fails when an alias names none.  In a router that was built, an
    aliased ID is served by the gatherer made for the user data source
    the alias names, and an ID without alias that both the dashboard and
    the user declare is served by the gatherer made for the user data
    source of that ID. *)
Theorem C4_router_priorities cfg order :
  order ≡ₚ map_to_list (Aliases cfg) ->
  ((forall ds,
      ds ∈ DashboardDatasources cfg \/ ds ∈ UserDatasources cfg ->
      exists c, createGatherer (defaults cfg) ds (ID ds) = Ok c) ->
   (forall id alias,
      Aliases cfg !! id = Some alias ->
      exists ds, ds ∈ UserDatasources cfg /\ ID ds = alias) ->
   exists router, NewGatherer cfg order = Ok router) /\
  ((exists id alias,
      Aliases cfg !! id = Some alias /\
      forall ds, ds ∈ UserDatasources cfg -> ID ds <> alias) ->
   exists e, NewGatherer cfg order = Err e) /\
  (forall router,
     NewGatherer cfg order = Ok router ->
     (forall id alias,
        Aliases cfg !! id = Some alias ->
        exists g ds,
          metricGatherer router id = Ok g /\
          made g = FromUser /\
          ds ∈ UserDatasources cfg /\ ID ds = alias /\
          createGatherer (defaults cfg) ds alias = Ok (backend g) /\
          (forall q t, DatasourceID q = id ->
             GatherSingle clientGatherSingle router q t
             = clientGatherSingle (backend g) q t) /\
          (forall q t u step, DatasourceID q = id ->
             GatherRange clientGatherRange router q t u step
             = clientGatherRange (backend g) q t u step)) /\
     (forall id,
        Aliases cfg !! id = None ->
        (exists ds, ds ∈ DashboardDatasources cfg /\ ID ds = id) ->
        (exists ds, ds ∈ UserDatasources cfg /\ ID ds = id) ->
        exists g ds,
          metricGatherer router id = Ok g /\
          made g = FromUser /\
          ds ∈ UserDatasources cfg /\ ID ds = id /\
          createGatherer (defaults cfg) ds id = Ok (backend g) /\
          (forall q t, DatasourceID q = id ->
             GatherSingle clientGatherSingle router q t
             = clientGatherSingle (backend g) q t) /\
          (forall q t u step, DatasourceID q = id ->
             GatherRange clientGatherRange router q t u step
             = clientGatherRange (backend g) q t u step))).
Proof.
  intros Horder.
  assert (Hnd : NoDup order.*1).
  { rewrite Horder. apply NoDup_fst_map_to_list. }
  assert (Hin : forall id alias,
            (id, alias) ∈ order <-> Aliases cfg !! id = Some alias).
  { intros id alias. rewrite Horder. apply elem_of_map_to_list. }
  split.
  { intros Hmake Htarget. unfold datasource.NewGatherer.
    cbn [DashboardDatasources UserDatasources datasource.defaults].
    destruct (createAll_succeeds (defaults cfg) FromDashboard
                (DashboardDatasources cfg) 0%nat ∅) as [gs ->].
    { intros ds Hds. apply Hmake. left. exact Hds. }
    destruct (createAll_succeeds (defaults cfg) FromUser
                (UserDatasources cfg) 0%nat ∅) as [ags Hags].
    { intros ds Hds. apply Hmake. right. exact Hds. }
    rewrite Hags.
    destruct (applyAliases_succeeds order ags (useUserDatasources ags gs))
      as [gs' ->]; [|eauto].
    intros id alias Hp. apply Hin in Hp.
    apply (createAll_is_Some _ _ _ _ _ _ alias Hags).
    right. exact (Htarget id alias Hp). }
  unfold datasource.NewGatherer. cbn [DashboardDatasources UserDatasources
    datasource.defaults].
  destruct (createAll (defaults cfg) FromDashboard 0
              (DashboardDatasources cfg) ∅) as [gs|e] eqn:Hgs.
  2:{ split; [eauto | discriminate]. }
  destruct (createAll (defaults cfg) FromUser 0
              (UserDatasources cfg) ∅) as [ags|e] eqn:Hags.
  2:{ split; [eauto | discriminate]. }
  assert (Huser : forall id g, ags !! id = Some g ->
            made g = FromUser /\
            exists ds, ds ∈ UserDatasources cfg /\ ID ds = id /\
                       createGatherer (defaults cfg) ds id = Ok (backend g)).
  { intros id g Hg.
    destruct (createAll_lookup _ _ _ _ _ _ _ _ Hags Hg) as [H|H];
      [rewrite lookup_empty in H; discriminate | exact H]. }
  split.
  - intros (id & alias & Halias & Hnone).
    assert (Hmiss : ags !! alias = None).
    { destruct (ags !! alias) as [g|] eqn:Hg; [|reflexivity].
      destruct (Huser _ _ Hg) as (_ & ds & Hds & Hid & _).
      exfalso. exact (Hnone ds Hds Hid). }
    apply Hin in Halias.
    destruct (applyAliases_missing _ _ (useUserDatasources ags gs)
                _ _ Halias Hmiss) as [e ->].
    eauto.
  - intros router Hrouter.
    destruct (applyAliases order ags (useUserDatasources ags gs))
      as [gs'|e] eqn:Hgs'; [|discriminate].
    injection Hrouter as <-.
    unfold datasource.GatherSingle, datasource.GatherRange,
      datasource.metricGatherer.
    cbn [gatherers]. split.
    + intros id alias Halias. apply Hin in Halias.
      destruct (applyAliases_entry _ _ _ _ _ _ Hnd Hgs' Halias)
        as [[g Hg] Hlook].
      destruct (Huser _ _ Hg) as (Hmade & ds & Hds & Hid & Hmk).
      exists g, ds. rewrite Hlook, Hg.
      repeat split; auto.
      * intros q t ->. rewrite Hlook, Hg. reflexivity.
      * intros q t u step ->. rewrite Hlook, Hg. reflexivity.
    + intros id Hnone Hdash Husr.
      assert (Hnotin : id ∉ order.*1).
      { intros Hid. apply list_elem_of_fmap in Hid as [[id0 alias] [-> Hp]].
        apply Hin in Hp. cbn in Hnone. congruence. }
      pose proof (applyAliases_other _ _ _ _ _ Hgs' Hnotin) as Hlook.
      rewrite useUserDatasources_lookup in Hlook.
      destruct (createAll_is_Some _ _ _ _ _ _ id Hgs (or_intror Hdash))
        as [gd Hgd].
      destruct (createAll_is_Some _ _ _ _ _ _ id Hags (or_intror Husr))
        as [g Hg].
      rewrite Hgd, Hg in Hlook. cbn in Hlook.
      destruct (Huser _ _ Hg) as (Hmade & ds & Hds & Hid & Hmk).
      exists g, ds. rewrite Hlook.
      repeat split; auto.
      * intros q t ->. rewrite Hlook. reflexivity.
      * intros q t u step ->. rewrite Hlook. reflexivity.
Qed.

End Router.

(** The two router cases of the specification, run on the samples. *)
Example router_prefers_user :
  match samples.newRouter ∅ with
  | Ok router =>
      metricGatherer router "prometheus"
      = Ok {| made := FromUser; index := 0; backend := "http://user:9090" |}
  | Err _ => False
  end.
Proof. vm_compute. reflexivity. Qed.

Example router_alias :
  match samples.newRouter {["prom2" := "localprom"]} with
  | Ok router =>
      metricGatherer router "prom2"
      = Ok {| made := FromUser; index := 1;
              backend := "http://127.0.0.1:9090" |}
  | Err _ => False
  end.
Proof. vm_compute. reflexivity. Qed.

Example router_alias_missing :
  samples.newRouter {["prom2" := "nowhere"]}
  = Err (ErrorsNew "alias nowhere for ID prom2 not found").
Proof. vm_compute. reflexivity. Qed.

Lemma C4_witness :
  (exists e, samples.newRouter {["prom2" := "nowhere"]} = Err e) /\
  (exists router g,
     samples.newRouter {["prom2" := "localprom"]} = Ok router /\
     metricGatherer router "prom2" = Ok g /\
     made g = FromUser /\
     backend g = "http://127.0.0.1:9090").
Proof.
  split.
  - apply (proj1 (proj2 (C4_router_priorities string
                    (fun _ _ _ => Ok []) (fun _ _ _ _ _ => Ok [])
                    samples.fakeClient samples.promClient
                    samples.graphiteClient samples.influxClient
                    (samples.routerConfig {["prom2" := "nowhere"]})
                    (map_to_list {["prom2" := "nowhere"]})
                    (Permutation_refl _)))).
    exists "prom2", "nowhere". split; [reflexivity|].
    intros ds Hds. vm_compute in Hds.
    apply elem_of_cons in Hds as [->|Hds]; [discriminate|].
    apply elem_of_cons in Hds as [->|Hds]; [discriminate|].
    inversion Hds.
  - destruct (C4_router_priorities string
                (fun _ _ _ => Ok []) (fun _ _ _ _ _ => Ok [])
                samples.fakeClient samples.promClient
                samples.graphiteClient samples.influxClient
                (samples.routerConfig {["prom2" := "localprom"]})
                (map_to_list {["prom2" := "localprom"]})
                (Permutation_refl _))
      as (Hbuilt & _ & Hserved).
    destruct Hbuilt as [router Hrouter].
    + intros ds [Hds|Hds]; cbn in Hds;
        repeat (apply elem_of_cons in Hds as [->|Hds];
                [eexists; reflexivity|]);
        inversion Hds.
    + intros id alias Ha. cbn in Ha.
      apply lookup_singleton_Some in Ha as [_ <-].
      exists (samples.promDatasource "localprom" "http://127.0.0.1:9090").
      split; [|reflexivity]. cbn. right. left.
    + destruct (proj1 (Hserved router Hrouter) "prom2" "localprom" eq_refl)
        as (g & ds & Hg & Hmade & Hds & Hid & Hmk & _).
      exists router, g.
      split; [exact Hrouter|]. split; [exact Hg|]. split; [exact Hmade|].
      cbn in Hds.
      apply elem_of_cons in Hds as [->|Hds]; [discriminate Hid|].
      apply elem_of_cons in Hds as [->|Hds]; [|inversion Hds].
      injection Hmk as <-. reflexivity.
Defined.

End datasource_facts.

(** ** The dashboard wave *)
Module page_facts.
Import page.

Lemma omap_widgetTask_quiet before w after :
  widgetTask w = None ->
  omap widgetTask (before ++ w :: after) = omap widgetTask (before ++ after).
Proof.
  intros Hw. rewrite !omap_app. cbn [omap list_omap]. rewrite Hw. reflexivity.
Qed.

Lemma omap_widgetTask_send before w after e :
  widgetTask w = Some e ->
  omap widgetTask (before ++ w :: after)
  = omap widgetTask before ++ e :: omap widgetTask after.
Proof.
  intros Hw. rewrite !omap_app. cbn [omap list_omap]. rewrite Hw. reflexivity.
Qed.

(** The errors sent and those still to be sent are, together, the errors
    of the wave. *)
Lemma step_errors s s' :
  step s s' ->
  errorChan s' ++ omap widgetTask (running s')
  ≡ₚ errorChan s ++ omap widgetTask (running s).
Proof.
  intros [before w after buf cap Hw | before w after buf cap e Hw Hroom];
    cbn [errorChan running].
  - rewrite (omap_widgetTask_quiet _ _ _ Hw). reflexivity.
  - rewrite (omap_widgetTask_send _ _ _ _ Hw), !omap_app.
    rewrite <- !app_assoc. apply Permutation_app_head. cbn [app].
    apply Permutation_middle.
Qed.

Lemma steps_errors s s' :
  steps s s' ->
  errorChan s' ++ omap widgetTask (running s')
  ≡ₚ errorChan s ++ omap widgetTask (running s).
Proof.
  induction 1 as [s|s1 s2 s3 Hstep _ IH]; [reflexivity|].
  rewrite IH. apply step_errors. exact Hstep.
Qed.

Lemma step_roomy s s' : step s s' -> roomy s -> roomy s'.
Proof.
  unfold roomy.
  intros [before w after buf cap Hw | before w after buf cap e Hw Hroom];
    cbn [errorChan running capacity]; rewrite !length_app; cbn [length]; lia.
Qed.

Lemma steps_roomy s s' : steps s s' -> roomy s -> roomy s'.
Proof. induction 1; eauto using step_roomy. Qed.

Lemma start_roomy widgets : roomy (start widgets).
Proof. unfold roomy, start. cbn. lia. Qed.

Lemma step_finishes_one s s' :
  step s s' -> S (length (running s')) = length (running s).
Proof.
  intros [before w after buf cap Hw | before w after buf cap e Hw Hroom];
    cbn [running]; rewrite !length_app; cbn [length]; lia.
Qed.

(** With room in the buffer no goroutine waits. *)
Lemma roomy_progress s before w after :
  roomy s ->
  running s = before ++ w :: after ->
  exists s', step s s' /\ running s' = before ++ after.
Proof.
  unfold roomy. destruct s as [run buf cap]. cbn [errorChan running capacity].
  intros Hroom ->. rewrite length_app in Hroom. cbn [length] in Hroom.
  destruct (widgetTask w) as [e|] eqn:Hw.
  - eexists. split; [apply (step_send _ _ _ _ _ e Hw); lia | reflexivity].
  - eexists. split; [apply (step_quiet _ _ _ _ _ Hw) | reflexivity].
Qed.

(** The goroutines taken in the order of the widgets. *)
Lemma steps_in_order cap : forall widgets buf,
  (length buf + length widgets <= cap)%nat ->
  steps {| running := widgets; errorChan := buf; capacity := cap |}
        {| running := []; errorChan := buf ++ omap widgetTask widgets;
           capacity := cap |}.
Proof.
  induction widgets as [|w rest IH]; intros buf Hroom.
  - cbn [omap list_omap]. rewrite app_nil_r. apply steps_refl.
  - cbn [length] in Hroom. cbn [omap list_omap].
    destruct (widgetTask w) as [e|] eqn:Hw.
    + eapply steps_step.
      * apply (step_send [] w rest buf cap e Hw). lia.
      * cbn [app].
        replace (buf ++ e :: omap widgetTask rest)
          with ((buf ++ [e]) ++ omap widgetTask rest)
          by (rewrite <- app_assoc; reflexivity).
        apply IH. rewrite length_app. cbn [length]. lia.
    + eapply steps_step.
      * apply (step_quiet [] w rest buf cap Hw).
      * cbn [app]. apply IH. lia.
Qed.

(** A goroutine sends an error exactly when its widget did not sync. *)
Lemma widgetTask_failed w :
  failed w = match widgetTask w with Some _ => true | None => false end.
Proof.
  destruct w as [[[err|] c|v]|]; try reflexivity.
  destruct c as [[[|]| | |]|]; reflexivity.
Qed.

Lemma length_omap_widgetTask widgets :
  length (omap widgetTask widgets) = length (List.filter failed widgets).
Proof.
  induction widgets as [|w rest IH]; [reflexivity|].
  cbn [omap list_omap List.filter]. rewrite (widgetTask_failed w).
  destruct (widgetTask w); cbn [length]; rewrite IH; reflexivity.
Qed.

(** The error of a widget of the wave is among the lines logged. *)
Lemma widgetTask_logged widgets logged w e :
  logged ≡ₚ map Error (omap widgetTask widgets) ->
  w ∈ widgets -> widgetTask w = Some e -> Error e ∈ logged.
Proof.
  intros Hlogged Hw He. rewrite Hlogged.
  apply (list_elem_of_fmap_2 Error), list_elem_of_omap. eauto.
Qed.

(** C8: in every schedule of a wave a goroutine that is still running
    can finish, whatever its widget did, so the wave is never blocked;
    each step finishes one goroutine, and from every state the wave
    reaches it can run to the point where all are done;
    [dashboard.Sync] does return; and whenever it returns, it returns
    nil after logging one line for each widget that did not sync and
    none for the others: a nil widget, a panic with its value, and an
    error returned by a widget, under the heading that the state of the
    context selects, are each in the log. *)
Theorem C8_wave_completes (widgets : list widget) :
  (forall s before w after,
     steps (start widgets) s ->
     running s = before ++ w :: after ->
     exists s', step s s' /\ running s' = before ++ after) /\
  (forall s s',
     steps (start widgets) s -> step s s' ->
     S (length (running s')) = length (running s)) /\
  (forall s,
     steps (start widgets) s ->
     exists s', steps s s' /\ running s' = []) /\
  Sync_returns widgets (fst (Sync_in_order widgets))
               (snd (Sync_in_order widgets)) /\
  (forall logged ret,
     Sync_returns widgets logged ret ->
     ret = None /\
     logged ≡ₚ map Error (omap widgetTask widgets) /\
     length logged = length (List.filter failed widgets) /\
     (None ∈ widgets -> "widget is nil, skipping sync" ∈ logged) /\
     (forall v,
        Some (Panicked v) ∈ widgets ->
        "widget sync panic recovered: " +:+ v ∈ logged) /\
     (forall err,
        Some (Returned (Some err) (Some DeadlineExceeded)) ∈ widgets ->
        "widget sync timeout: " +:+ Error err ∈ logged) /\
     (forall err,
        Some (Returned (Some err) (Some Canceled)) ∈ widgets ->
        "widget sync canceled: " +:+ Error err ∈ logged) /\
     (forall err c,
        Some (Returned (Some err) c) ∈ widgets ->
        c <> Some DeadlineExceeded -> c <> Some Canceled ->
        "error syncing widget: " +:+ Error err ∈ logged)).
Proof.
  split; [|split; [|split; [|split]]].
  - intros s before w after Hs Hrun.
    apply (roomy_progress s before w after); [|exact Hrun].
    apply (steps_roomy _ _ Hs), start_roomy.
  - intros s s' _ Hstep. apply step_finishes_one. exact Hstep.
  - intros s Hs.
    pose proof (steps_roomy _ _ Hs (start_roomy widgets)) as Hroom.
    destruct s as [run buf cap]. unfold roomy in Hroom. cbn in Hroom.
    eexists. split; [apply steps_in_order; exact Hroom | reflexivity].
  - unfold Sync_returns, Sync_in_order. cbn [fst snd].
    exists {| running := []; errorChan := omap widgetTask widgets;
              capacity := length widgets |}.
    split; [|auto].
    apply (steps_in_order (length widgets) widgets []). cbn. lia.
  - intros logged ret (s & Hs & Hdone & -> & ->).
    split; [reflexivity|].
    assert (Hlogged : map Error (errorChan s)
                      ≡ₚ map Error (omap widgetTask widgets)).
    { pose proof (steps_errors _ _ Hs) as Hperm.
      rewrite Hdone in Hperm. cbn in Hperm. rewrite app_nil_r in Hperm.
      rewrite Hperm. reflexivity. }
    split; [exact Hlogged|].
    split.
    { rewrite Hlogged, length_map. apply length_omap_widgetTask. }
    split.
    { intros Hw. exact (widgetTask_logged _ _ _ _ Hlogged Hw eq_refl). }
    split.
    { intros v Hw. exact (widgetTask_logged _ _ _ _ Hlogged Hw eq_refl). }
    split.
    { intros err Hw. exact (widgetTask_logged _ _ _ _ Hlogged Hw eq_refl). }
    split.
    { intros err Hw. exact (widgetTask_logged _ _ _ _ Hlogged Hw eq_refl). }
    intros err c Hw Hd Hc.
    apply (widgetTask_logged _ _ _ (Errorf "error syncing widget: " err)
             Hlogged Hw).
    destruct c as [[[|]| | |]|]; try reflexivity; congruence.
Qed.

Lemma C8_witness :
  let widgets :=
    [Some (Returned None None);
     Some (Returned (Some (ErrorsNew "no data")) (Some DeadlineExceeded));
     Some (Panicked "index out of range");
     None] in
  Sync_returns widgets
    ["widget sync timeout: no data";
     "widget sync panic recovered: index out of range";
     "widget is nil, skipping sync"] None /\
  forall logged ret,
    Sync_returns widgets logged ret ->
    ret = None /\ length logged = 3%nat /\
    "widget sync timeout: no data" ∈ logged /\
    "widget sync panic recovered: index out of range" ∈ logged /\
    "widget is nil, skipping sync" ∈ logged.
Proof.
  cbv zeta.
  destruct (C8_wave_completes
              [Some (Returned None None);
               Some (Returned (Some (ErrorsNew "no data"))
                              (Some DeadlineExceeded));
               Some (Panicked "index out of range");
               None])
    as (_ & _ & _ & Hreturns & Hall).
  split; [exact Hreturns|].
  intros logged ret Hsync.
  destruct (Hall logged ret Hsync)
    as (Hret & _ & Hlen & Hnil & Hpanic & Htimeout & _).
  split; [exact Hret|]. split; [exact Hlen|].
  split; [|split].
  - apply (Htimeout (ErrorsNew "no data")). right. left.
  - apply (Hpanic "index out of range"). right. right. left.
  - apply Hnil. right. right. right. left.
Defined.

(** A wave of four: a widget that is fine, one that fails after the
    deadline, one that panics, and a nil one. *)
Example wave_of_four :
  Sync_in_order
    [Some (Returned None None);
     Some (Returned (Some (ErrorsNew "no data")) (Some DeadlineExceeded));
     Some (Panicked "index out of range");
     None]
  = (["widget sync timeout: no data";
      "widget sync panic recovered: index out of range";
      "widget is nil, skipping sync"], None).
Proof. reflexivity. Qed.

End page_facts.

(** ** float64: the numbers that need no rounding *)
Module float64_exact.
Import float64 float64_facts.
Local Open Scope Q_scope.

Lemma ilog2_int_range (n : Z) :
  (0 < n <= 2 ^ 53)%Z -> (0 <= ilog2 (inject_Z n) <= 53)%Z.
Proof.
  intros Hn.
  assert (Hx : 0 < inject_Z n) by (rewrite <- (Zlt_Qlt 0); lia).
  destruct (ilog2_spec _ Hx) as [Hlo Hhi]. split.
  - assert (H : 2 ^ 0 < 2 ^ (ilog2 (inject_Z n) + 1)).
    { apply (Qle_lt_trans _ (inject_Z n)); [|exact Hhi].
      change (2 ^ 0) with (inject_Z 1). rewrite <- Zle_Qle. lia. }
    apply pow2_lt_inv in H. lia.
  - assert (H : 2 ^ ilog2 (inject_Z n) < 2 ^ 54).
    { apply (Qle_lt_trans _ (inject_Z n)); [exact Hlo|].
      rewrite (pow2_inject 54) by lia. rewrite <- Zlt_Qlt. lia. }
    apply pow2_lt_inv in H. lia.
Qed.

(** A number [n * 2^p] with [n] of at most 53 bits and [p] not below the
    least exponent is a binary64 number. *)
Lemma rnd_pos_dyadic (n p : Z) :
  (0 < n <= 2 ^ 53)%Z -> (-1074 <= p)%Z ->
  rnd_pos (inject_Z n * 2 ^ p) == inject_Z n * 2 ^ p.
Proof.
  intros Hn Hp.
  assert (Hn0 : 0 < inject_Z n) by (rewrite <- (Zlt_Qlt 0); lia).
  pose proof (pow2_pos p) as Hpp.
  assert (Hx : 0 < inject_Z n * 2 ^ p) by (apply Qmult_lt_0_compat; assumption).
  destruct (ilog2_spec _ Hn0) as [Hlo Hhi].
  pose proof (ilog2_int_range n Hn) as Hm.
  set (m := ilog2 (inject_Z n)) in *.
  assert (He : ilog2 (inject_Z n * 2 ^ p) = (m + p)%Z).
  { apply ilog2_unique.
    - rewrite pow2_add. apply Qmult_le_compat_r; [exact Hlo | lra].
    - replace (m + p + 1)%Z with ((m + 1) + p)%Z by lia. rewrite pow2_add.
      apply Qmult_lt_compat_r; assumption. }
  destruct (Z.eq_dec m 53%Z) as [E53|N53].
  - assert (Hn53 : n = (2 ^ 53)%Z).
    { rewrite E53, (pow2_inject 53), <- Zle_Qle in Hlo by lia. lia. }
    assert (Hu : ulp_exp (inject_Z n * 2 ^ p) = (p + 1)%Z).
    { unfold ulp_exp. rewrite He. lia. }
    apply (rnd_pos_exact _ (2 ^ 52)); [exact Hx|].
    rewrite Hu, Hn53, pow2_add.
    change (inject_Z (2 ^ 53)) with (2 * inject_Z (2 ^ 52)).
    change (2 ^ 1) with 2. field. lra.
  - set (u := ulp_exp (inject_Z n * 2 ^ p)).
    assert (Hu : (u <= p)%Z) by (unfold u, ulp_exp; rewrite He; lia).
    apply (rnd_pos_exact _ (n * 2 ^ (p - u))); [exact Hx|].
    fold u. rewrite inject_Z_mult, <- pow2_inject by lia.
    rewrite pow2_sub. pose proof (pow2_pos u). field. lra.
Qed.

Lemma rnd_opp_neg (x : Q) : x < 0 -> rnd x == - rnd (- x).
Proof.
  intros Hx. unfold rnd.
  destruct (Qcompare_spec x 0) as [H|H|H]; try (exfalso; lra).
  destruct (Qcompare_spec (- x) 0) as [H'|H'|H']; try (exfalso; lra).
  reflexivity.
Qed.

Lemma rnd_dyadic (n p : Z) :
  (- 2 ^ 53 <= n <= 2 ^ 53)%Z -> (-1074 <= p)%Z ->
  rnd (inject_Z n * 2 ^ p) == inject_Z n * 2 ^ p.
Proof.
  intros Hn Hp. pose proof (pow2_pos p) as Hpp.
  assert (Hpos : forall k, (0 < k <= 2 ^ 53)%Z ->
            rnd (inject_Z k * 2 ^ p) == inject_Z k * 2 ^ p).
  { intros k Hk.
    assert (Hk0 : 0 < inject_Z k) by (rewrite <- (Zlt_Qlt 0); lia).
    pose proof (Qmult_lt_0_compat _ _ Hk0 Hpp) as Hx.
    unfold rnd.
    destruct (Qcompare_spec (inject_Z k * 2 ^ p) 0) as [H|H|H];
      try (exfalso; lra).
    apply rnd_pos_dyadic; assumption. }
  destruct (Z.lt_trichotomy n 0) as [Hneg|[->|Hgt]].
  - assert (Hk0 : 0 < inject_Z (- n)) by (rewrite <- (Zlt_Qlt 0); lia).
    pose proof (Qmult_lt_0_compat _ _ Hk0 Hpp) as Hx.
    assert (E : - (inject_Z n * 2 ^ p) == inject_Z (- n) * 2 ^ p)
      by (rewrite inject_Z_opp; ring).
    rewrite rnd_opp_neg by lra. rewrite E, Hpos by lia.
    rewrite inject_Z_opp. ring.
  - assert (E : inject_Z 0 * 2 ^ p == 0) by ring.
    rewrite E. reflexivity.
  - apply Hpos. lia.
Qed.

(** Half of an integer of at most 53 bits is a binary64 number. *)
Lemma rnd_half (n : Z) :
  (- 2 ^ 53 <= n <= 2 ^ 53)%Z -> rnd (inject_Z n / 2) == inject_Z n / 2.
Proof.
  intros Hn. pose proof (rnd_dyadic n (-1) Hn ltac:(lia)) as H.
  change (2 ^ (-1)) with (/ 2) in H. exact H.
Qed.

Lemma rnd_pow2 (k : Z) : (-1074 <= k)%Z -> rnd (2 ^ k) == 2 ^ k.
Proof.
  intros Hk. pose proof (rnd_dyadic 1 k ltac:(lia) Hk) as H.
  change (inject_Z 1) with 1 in H.
  assert (E : 1 * 2 ^ k == 2 ^ k) by ring.
  rewrite E in H. exact H.
Qed.

Lemma to_int_half (s : Z) : (0 <= s)%Z -> to_int (inject_Z s / 2) = (s / 2)%Z.
Proof.
  intros Hs. unfold to_int.
  assert (H0 : 0 <= inject_Z s / 2).
  { apply Qle_shift_div_l; [reflexivity|].
    change (0 * 2) with (inject_Z 0). rewrite <- Zle_Qle. exact Hs. }
  apply Qle_bool_iff in H0. rewrite H0.
  unfold Qfloor, Qdiv, Qmult, Qinv, inject_Z. cbn.
  rewrite Z.mul_1_r. reflexivity.
Qed.

Lemma ltb_true (x y : Q) : ltb x y = true <-> x < y.
Proof. unfold ltb. apply (gtb_true y x). Qed.

Lemma ltb_false (x y : Q) : ltb x y = false <-> y <= x.
Proof. unfold ltb. apply (gtb_false y x). Qed.

Lemma sub_mono (x y a b : Q) : x <= y -> b <= a -> sub x a <= sub y b.
Proof. intros H1 H2. apply rnd_le. lra. Qed.

End float64_exact.

(** ** The cache, call by call *)
Module cache_facts.
Import model metric.

Section Cache.
Variable sha256hex : string -> string.

Abbreviation cacheKey := (cacheKey sha256hex).
Abbreviation MetricCache_Get := (MetricCache_Get sha256hex).
Abbreviation MetricCache_Set := (MetricCache_Set sha256hex).

Lemma entries_evictOldEntries mc now k e :
  entries (evictOldEntries mc now) !! k = Some e <->
  entries mc !! k = Some e /\ now <= expires e.
Proof.
  unfold evictOldEntries. cbn [entries].
  rewrite map_lookup_filter_Some. cbn. intuition lia.
Qed.

(** X1: An eviction removes the entries whose expiry lies before the
    instant it reads, and only those; it is idempotent, and a later pass
    does the work of an earlier one. *)
Theorem evictOldEntries_removes_expired mc now :
  (forall k e,
     entries (evictOldEntries mc now) !! k = Some e <->
     entries mc !! k = Some e /\ now <= expires e) /\
  (forall now', now <= now' ->
     evictOldEntries (evictOldEntries mc now) now' = evictOldEntries mc now') /\
  (forall ticks,
     Forall (fun t => t <= now) ticks ->
     cleanupRoutine mc (ticks ++ [now]) = evictOldEntries mc now) /\
  (size (entries (evictOldEntries mc now)) <= size (entries mc))%nat /\
  hits (evictOldEntries mc now) = hits mc /\
  misses (evictOldEntries mc now) = misses mc.
Proof.
  assert (Hcomp : forall m t t', t <= t' ->
            evictOldEntries (evictOldEntries m t) t' = evictOldEntries m t').
  { intros m t t' Ht. unfold evictOldEntries at 1 3. cbn [maxSize maxAge hits misses].
    f_equal. apply map_eq. intros k. apply option_eq. intros e.
    rewrite map_lookup_filter_Some, entries_evictOldEntries,
      map_lookup_filter_Some. cbn. intuition lia. }
  split; [intros k e; apply entries_evictOldEntries|].
  split; [intros now'; apply Hcomp|].
  split.
  { intros ticks. revert mc. unfold cleanupRoutine.
    induction ticks as [|t ticks IH]; intros mc Hticks; [reflexivity|].
    apply Forall_cons in Hticks as [Ht Hticks].
    cbn [app fold_left]. rewrite (IH _ Hticks). apply Hcomp. exact Ht. }
  split.
  { unfold evictOldEntries. cbn [entries].
    apply map_subseteq_size, map_filter_subseteq. }
  split; reflexivity.
Qed.


(** X2: A lookup touches the entry under its own index and nothing else: the
    other entries stay as they are, the cache never grows, and after a
    miss no entry is left under the index. *)
Theorem Get_touches_one_entry mc key now :
  let mc' := fst (MetricCache_Get mc key now) in
  (forall k', k' <> cacheKey key -> entries mc' !! k' = entries mc !! k') /\
  (size (entries mc') <= size (entries mc))%nat /\
  maxSize mc' = maxSize mc /\ maxAge mc' = maxAge mc /\
  (snd (snd (MetricCache_Get mc key now)) = false ->
   entries mc' !! cacheKey key = None /\
   fst (snd (MetricCache_Get mc key now)) = []).
Proof.
  cbv zeta. unfold metric.MetricCache_Get. cbv zeta.
  destruct (entries mc !! cacheKey key) as [entry|] eqn:Hentry;
    [destruct (now <? expires entry)|]; cbn [fst snd entries maxSize maxAge].
  - split; [intros k' Hk'; apply lookup_insert_ne; congruence|].
    split; [rewrite map_size_insert_Some by eauto; lia|].
    repeat split; discriminate.
  - split; [intros k' Hk'; apply lookup_delete_ne; congruence|].
    split; [rewrite map_size_delete_Some by eauto; lia|].
    repeat split. apply lookup_delete_eq.
  - repeat split; auto.
Qed.

(** X3: Reading an entry does not extend its life: a hit returns the data
    and counts, the entry keeps the expiry it was stored with, a later
    lookup before that instant hits again with the same data, and one at
    or after it misses however often the entry was read. *)
Theorem Get_hit_keeps_expiry mc key e now now' :
  entries mc !! cacheKey key = Some e ->
  now < expires e ->
  let mc1 := fst (MetricCache_Get mc key now) in
  snd (MetricCache_Get mc key now) = (data e, true) /\
  entries mc1 !! cacheKey key
  = Some {| data := data e; created := created e; expires := expires e;
            entry_hits := int64 (entry_hits e + 1) |} /\
  hits mc1 = int64 (hits mc + 1) /\ misses mc1 = misses mc /\
  (now' < expires e ->
   snd (MetricCache_Get mc1 key now') = (data e, true)) /\
  (expires e <= now' ->
   snd (MetricCache_Get mc1 key now') = ([], false)).
Proof.
  intros He Hnow. cbv zeta.
  assert (Hget : metric.MetricCache_Get sha256hex mc key now
                 = ({| entries := <[cacheKey key := bump e]> (entries mc);
                       maxSize := maxSize mc; maxAge := maxAge mc;
                       hits := int64 (hits mc + 1); misses := misses mc |},
                    (data e, true))).
  { unfold metric.MetricCache_Get. cbv zeta. rewrite He.
    apply Z.ltb_lt in Hnow. rewrite Hnow. reflexivity. }
  rewrite Hget. cbn [fst snd entries hits misses].
  split; [reflexivity|].
  split; [apply lookup_insert_eq|].
  split; [reflexivity|]. split; [reflexivity|].
  unfold metric.MetricCache_Get. cbv zeta. cbn [entries].
  rewrite lookup_insert_eq. cbn [bump expires data].
  split; intros H.
  - apply Z.ltb_lt in H. rewrite H. reflexivity.
  - apply Z.ltb_ge in H. rewrite H. reflexivity.
Qed.

(** X4: At the very instant an entry expires a lookup no longer serves it,
    and removes it, while an eviction pass at that instant still keeps
    it; a nanosecond later the pass removes it too. *)
Theorem expiry_instant mc key e :
  entries mc !! cacheKey key = Some e ->
  snd (MetricCache_Get mc key (expires e)) = ([], false) /\
  entries (fst (MetricCache_Get mc key (expires e))) !! cacheKey key = None /\
  entries (evictOldEntries mc (expires e)) !! cacheKey key = Some e /\
  entries (evictOldEntries mc (expires e + 1)) !! cacheKey key = None.
Proof.
  intros He.
  unfold metric.MetricCache_Get. cbv zeta. rewrite He, Z.ltb_irrefl.
  cbn [fst snd entries].
  split; [reflexivity|]. split; [apply lookup_delete_eq|].
  split.
  - apply entries_evictOldEntries. split; [exact He | lia].
  - destruct (entries (evictOldEntries mc (expires e + 1)) !! cacheKey key)
      as [e'|] eqn:He'; [|reflexivity].
    apply entries_evictOldEntries in He' as [He' Hlive].
    rewrite He in He'. injection He' as <-. lia.
Qed.

Lemma entries_Set_ne mc key d clk k' :
  k' <> cacheKey key ->
  entries (MetricCache_Set mc key d clk) !! k'
  = entries (if maxSize mc <? int64 (int64 (Z.of_nat (size (entries mc))) * 2)
             then evictOldEntries mc (nowEvict clk) else mc) !! k'.
Proof.
  intros Hk. unfold metric.MetricCache_Set. cbv zeta. cbn [entries].
  apply lookup_insert_ne. congruence.
Qed.

(** X5: Storing an entry never removes a live entry of another index; and
    while the cache holds no more than half of [maxSize] entries,
    storing removes no other entry at all, expired or not. *)
Theorem Set_keeps_live_entries mc key d clk k' e :
  entries mc !! k' = Some e ->
  k' <> cacheKey key ->
  nowEvict clk <= expires e \/
  (Z.of_nat (size (entries mc)) < 2 ^ 62 /\
   Z.of_nat (size (entries mc)) * 2 <= maxSize mc) ->
  entries (MetricCache_Set mc key d clk) !! k' = Some e.
Proof.
  intros He Hk Hcase. rewrite entries_Set_ne by exact Hk.
  destruct (maxSize mc <? _) eqn:Hfull; [|exact He].
  destruct Hcase as [Hlive|[Hsmall Hhalf]].
  - apply entries_evictOldEntries. auto.
  - exfalso. apply Z.ltb_lt in Hfull.
    rewrite (int64_small (Z.of_nat _)) in Hfull by lia.
    rewrite int64_small in Hfull by lia. lia.
Qed.

(** X6: [maxSize] does not bound the cache: a pass of eviction removes
    expired entries only, so storing under a new index while every entry
    is live adds one entry whatever [maxSize] is. *)
Theorem Set_grows_past_maxSize mc key d clk :
  entries mc !! cacheKey key = None ->
  (forall k e, entries mc !! k = Some e -> nowEvict clk <= expires e) ->
  size (entries (MetricCache_Set mc key d clk)) = S (size (entries mc)).
Proof.
  intros Hnew Hlive.
  assert (Hevict : entries (evictOldEntries mc (nowEvict clk)) = entries mc).
  { apply map_eq. intros k. apply option_eq. intros e.
    rewrite entries_evictOldEntries. split; [tauto|].
    intros He. split; [exact He | eapply Hlive; exact He]. }
  unfold metric.MetricCache_Set. cbv zeta. cbn [entries].
  destruct (maxSize mc <? _); rewrite ?Hevict;
    apply map_size_insert_None; exact Hnew.
Qed.

Lemma lookupsSinceClear_le cs : forall n,
  0 <= n -> 0 <= lookupsSinceClear n cs <= n + Z.of_nat (length cs).
Proof.
  unfold lookupsSinceClear.
  induction cs as [|c cs IH]; intros n Hn; cbn [fold_left length].
  - lia.
  - destruct c; [specialize (IH (n + 1) ltac:(lia))
                | specialize (IH n Hn)
                | specialize (IH 0 ltac:(lia))
                | specialize (IH n Hn)]; lia.
Qed.

(** X7: The two counters count the lookups: after any calls on a cache, one
    at a time, [hits] and [misses] add up to the number of [Get]s made
    since the cache was made or last cleared, and [Stats] reports these
    counters and the number of entries. *)
Theorem lookups_are_counted cs : forall mc,
  0 <= hits mc -> 0 <= misses mc ->
  hits mc + misses mc + Z.of_nat (length cs) < 2 ^ 63 ->
  let mc' := calls sha256hex mc cs in
  0 <= hits mc' /\ 0 <= misses mc' /\
  hits mc' + misses mc' = lookupsSinceClear (hits mc + misses mc) cs /\
  Hits (MetricCache_Stats mc') + Misses (MetricCache_Stats mc')
  = lookupsSinceClear (hits mc + misses mc) cs.
Proof.
  cbv zeta.
  assert (H : forall mc,
    0 <= hits mc -> 0 <= misses mc ->
    hits mc + misses mc + Z.of_nat (length cs) < 2 ^ 63 ->
    0 <= hits (calls sha256hex mc cs) /\ 0 <= misses (calls sha256hex mc cs) /\
    hits (calls sha256hex mc cs) + misses (calls sha256hex mc cs)
    = lookupsSinceClear (hits mc + misses mc) cs).
  { unfold calls, lookupsSinceClear.
    induction cs as [|c cs IH]; intros mc Hh Hm Hsum; cbn [fold_left length] in *.
    - auto.
    - destruct c as [key now|key d clk| |now]; cbn [call].
      + destruct (metric_facts.Get_counters sha256hex mc key now
                    ltac:(lia) ltac:(lia)) as (Hh' & Hm' & Hsum').
        destruct (IH (fst (MetricCache_Get mc key now)) Hh' Hm' ltac:(lia))
          as (H1 & H2 & H3).
        rewrite Hsum' in H3. auto.
      + destruct (metric_facts.Set_counters sha256hex mc key d clk)
          as [Hh' Hm'].
        destruct (IH (MetricCache_Set mc key d clk)
                     ltac:(lia) ltac:(lia) ltac:(lia)) as (H1 & H2 & H3).
        rewrite Hh', Hm' in H3. auto.
      + destruct (IH (MetricCache_Clear mc)
                     ltac:(cbn; lia) ltac:(cbn; lia) ltac:(cbn; lia))
          as (H1 & H2 & H3).
        auto.
      + destruct (IH (evictOldEntries mc now)
                     ltac:(cbn; lia) ltac:(cbn; lia) ltac:(cbn; lia))
          as (H1 & H2 & H3).
        auto. }
  intros mc Hh Hm Hsum.
  destruct (H mc Hh Hm Hsum) as (H1 & H2 & H3).
  repeat split; auto.
Qed.

End Cache.

Lemma Get_hit_keeps_expiry_witness :
  let k := samples.upKey samples.firstMinute in
  let mc1 :=
    fst (MetricCache_Get samples.plainDigest samples.warmCache k Second) in
  snd (MetricCache_Get samples.plainDigest samples.warmCache k Second)
  = (samples.upSeries, true) /\
  snd (MetricCache_Get samples.plainDigest mc1 k (29 * Second))
  = (samples.upSeries, true) /\
  snd (MetricCache_Get samples.plainDigest mc1 k (30 * Second)) = ([], false).
Proof.
  cbv zeta.
  pose proof (Get_hit_keeps_expiry samples.plainDigest samples.warmCache
                (samples.upKey samples.firstMinute) samples.upEntry Second)
    as H.
  destruct (H (29 * Second) ltac:(vm_compute; reflexivity)
              ltac:(vm_compute; reflexivity)) as (Hhit & _ & _ & _ & Hagain & _).
  destruct (H (30 * Second) ltac:(vm_compute; reflexivity)
              ltac:(vm_compute; reflexivity)) as (_ & _ & _ & _ & _ & Hlate).
  split; [exact Hhit|]. split.
  - apply Hagain. vm_compute. reflexivity.
  - apply Hlate. vm_compute. discriminate.
Defined.

Lemma expiry_instant_witness :
  let k := samples.upKey samples.firstMinute in
  snd (MetricCache_Get samples.plainDigest samples.warmCache k (30 * Second))
  = ([], false) /\
  entries (evictOldEntries samples.warmCache (30 * Second))
    !! metric.cacheKey samples.plainDigest k
  = Some samples.upEntry.
Proof.
  cbv zeta.
  destruct (expiry_instant samples.plainDigest samples.warmCache
              (samples.upKey samples.firstMinute) samples.upEntry
              ltac:(vm_compute; reflexivity)) as (Hget & _ & Hkept & _).
  split; [exact Hget | exact Hkept].
Defined.

Lemma Set_keeps_live_entries_witness :
  entries (MetricCache_Set samples.plainDigest samples.warmCache
             samples.downKey [] samples.atZero) !! "prom:up"
  = Some samples.upEntry.
Proof.
  apply (Set_keeps_live_entries samples.plainDigest samples.warmCache
           samples.downKey [] samples.atZero "prom:up" samples.upEntry).
  - vm_compute. reflexivity.
  - vm_compute. discriminate.
  - left. vm_compute. discriminate.
Defined.

Lemma Set_grows_past_maxSize_witness :
  maxSize samples.fullCache = 1 /\
  size (entries samples.fullCache) = 1%nat /\
  size (entries (MetricCache_Set samples.plainDigest samples.fullCache
                   samples.downKey [] samples.atZero)) = 2%nat.
Proof.
  split; [reflexivity|]. split; [vm_compute; reflexivity|].
  apply (Set_grows_past_maxSize samples.plainDigest samples.fullCache
           samples.downKey [] samples.atZero).
  - vm_compute. reflexivity.
  - intros k e He.
    change (entries samples.fullCache)
      with (<["prom:up" := samples.upEntry]> (∅ : gmap string cacheEntry)) in He.
    apply lookup_insert_Some in He as [[_ <-]|[_ He]].
    + vm_compute. discriminate.
    + rewrite lookup_empty in He. discriminate.
Defined.

Lemma lookups_are_counted_witness :
  let mc := calls samples.plainDigest (NewMetricCache 100 (30 * Second))
                  samples.someCalls in
  hits mc + misses mc = 1 /\
  Hits (MetricCache_Stats mc) + Misses (MetricCache_Stats mc) = 1.
Proof.
  cbv zeta.
  destruct (lookups_are_counted samples.plainDigest samples.someCalls
              (NewMetricCache 100 (30 * Second))
              ltac:(vm_compute; discriminate) ltac:(vm_compute; discriminate)
              ltac:(vm_compute; reflexivity)) as (_ & _ & Hsum & Hstats).
  split; [exact Hsum | exact Hstats].
Defined.

End cache_facts.

(** ** The query executor *)
Module executor_facts.
Import model metric.

Ltac cases_of_retryLoop :=
  repeat match goal with
         | |- context [match ctxAtTop ?e with _ => _ end] =>
             destruct (ctxAtTop e) eqn:?
         | |- context [match backoffSelect ?e with _ => _ end] =>
             destruct (backoffSelect e) eqn:?
         | |- context [match gathered ?e with _ => _ end] =>
             destruct (gathered e) eqn:?
         | |- context [if isContextError ?e then _ else _] =>
             destruct (isContextError e) eqn:?
         | |- context [match ctxAfter ?e with _ => _ end] =>
             destruct (ctxAfter e) eqn:?
         | _ => progress cbn [Nat.ltb Nat.leb fst snd]
         end.

(** X8: Whatever the backend and the context do, the retry loop of the
    executor makes at most three attempts and sleeps at most 500ms
    between them; it returns data exactly when the attempt it made last
    answered, and the data are that answer. *)
Theorem executeWithRetry_bounds env :
  let run := executeWithRetry env in
  (attemptsMade (fst run) <= 3)%nat /\
  0 <= sleptTotal (fst run) <= 500 * Millisecond /\
  (forall r, snd run = Ok r ->
     exists n, (n < 3)%nat /\ gathered (env n) = Ok r /\
               attemptsMade (fst run) = S n) /\
  (forall n r, (n < 3)%nat -> gathered (env n) = Ok r ->
     (S n <= attemptsMade (fst run))%nat -> snd run = Ok r).
Proof.
  cbv zeta. unfold executeWithRetry, MaxRetransmission.
  cbn [retryLoop]. cases_of_retryLoop.
  all: split; [vm_compute; lia|].
  all: split; [vm_compute; split; discriminate|].
  all: split.
  all: try (intros r [= <-];
            first [exists 0%nat; split; [lia|]; split;
                     [assumption | vm_compute; reflexivity]
                  |exists 1%nat; split; [lia|]; split;
                     [assumption | vm_compute; reflexivity]
                  |exists 2%nat; split; [lia|]; split;
                     [assumption | vm_compute; reflexivity]]).
  all: try (intros r [=]).
  all: intros n r Hn Hg Hle; vm_compute in Hle;
    destruct n as [|[|[|n]]]; try congruence; exfalso; lia.
Qed.

(** X9: When three attempts in a row are refused with errors that are not
    context errors, under a context that stays live, the loop sleeps
    100ms and then 400ms, gives up after the third attempt, and returns
    the last error wrapped with the number of attempts: the message says
    so, [errors.Unwrap] of the result is the last error itself, and
    [errors.Is] finds a context sentinel in the result exactly when it
    finds it in the last error. *)
Theorem executeWithRetry_exhausted env e0 e1 e2 :
  (forall n, (n < 3)%nat ->
     ctxAtTop (env n) = None /\ ctxAfter (env n) = None /\
     backoffSelect (env n) = TimerFired) ->
  gathered (env 0%nat) = Err e0 -> isContextError (Some e0) = false ->
  gathered (env 1%nat) = Err e1 -> isContextError (Some e1) = false ->
  gathered (env 2%nat) = Err e2 -> isContextError (Some e2) = false ->
  let wrapped := Errorf "query failed after 3 attempts: " e2 in
  executeWithRetry env
  = ([Attempt 0; Sleep (100 * Millisecond); Attempt 1;
      Sleep (400 * Millisecond); Attempt 2], Err wrapped) /\
  Error wrapped = "query failed after 3 attempts: " +:+ Error e2 /\
  Unwrap wrapped = Some e2 /\
  (forall target, errorsIs wrapped target = errorsIs e2 target).
Proof.
  intros Hlive Hg0 Hi0 Hg1 Hi1 Hg2 Hi2. cbv zeta.
  destruct (Hlive 0%nat ltac:(lia)) as (Ht0 & Ha0 & _).
  destruct (Hlive 1%nat ltac:(lia)) as (Ht1 & Ha1 & Hb1).
  destruct (Hlive 2%nat ltac:(lia)) as (Ht2 & Ha2 & Hb2).
  split; [|split; [reflexivity|split; [reflexivity|]]].
  - unfold executeWithRetry, MaxRetransmission. cbn [retryLoop].
    rewrite Ht0, Hg0, Hi0, Ha0. cbn [Nat.ltb Nat.leb].
    rewrite Ht1, Hb1, Hg1, Hi1, Ha1. cbn [Nat.ltb Nat.leb].
    rewrite Ht2, Hb2, Hg2, Hi2, Ha2. reflexivity.
  - intros target. reflexivity.
Qed.

Lemma executeWithRetry_exhausted_witness :
  let timedOut := Errorf "query deadline exceeded: " DeadlineExceeded in
  let wrapped := Errorf "query failed after 3 attempts: " timedOut in
  executeWithRetry samples.gathererTimedOut
  = ([Attempt 0; Sleep (100 * Millisecond); Attempt 1;
      Sleep (400 * Millisecond); Attempt 2], Err wrapped) /\
  Unwrap wrapped = Some timedOut /\
  errorsIs wrapped context.DeadlineExceeded = true.
Proof.
  cbv zeta.
  destruct (executeWithRetry_exhausted samples.gathererTimedOut
              (Errorf "query deadline exceeded: " DeadlineExceeded)
              (Errorf "query deadline exceeded: " DeadlineExceeded)
              (Errorf "query deadline exceeded: " DeadlineExceeded)
              ltac:(intros n Hn; repeat split)
              eq_refl eq_refl eq_refl eq_refl eq_refl eq_refl)
    as (Hrun & _ & Hun & His).
  split; [exact Hrun|]. split; [exact Hun|].
  rewrite His. reflexivity.
Defined.

(** X10: The executor takes an error for a context error only when its
    message is, to the letter, that of one of the two context sentinels.
    Every such error is context-classified by the enhanced gatherer too;
    but an error that wraps a sentinel behind a prefix, as the errors
    the enhanced gatherer and the executor make of a context that is
    done, is not a context error for the executor. *)
Theorem isContextError_exact_message :
  (forall e,
     isContextError (Some e) = true <->
     Error e = "context deadline exceeded" \/ Error e = "context canceled") /\
  (forall e,
     isContextError (Some e) = true ->
     prometheus.isContextError (Some e) = true) /\
  (forall c prefix,
     In c [DeadlineExceeded; Canceled] ->
     In prefix ["query deadline exceeded: ";
                "range query deadline exceeded: ";
                "query execution timeout waiting for rate limit: "] ->
     carriesContextSignal (Errorf prefix c) = true /\
     prometheus.isContextError (Some (Errorf prefix c)) = true /\
     isContextError (Some (Errorf prefix c)) = false).
Proof.
  assert (Hiff : forall e,
     isContextError (Some e) = true <->
     Error e = "context deadline exceeded" \/ Error e = "context canceled").
  { intros e. unfold isContextError. rewrite orb_true_iff, !String.eqb_eq.
    reflexivity. }
  split; [exact Hiff|]. split.
  - intros e He. apply Hiff in He. unfold prometheus.isContextError.
    destruct He as [-> | ->]; vm_compute; reflexivity.
  - intros c prefix Hc Hp. cbn [In] in Hc, Hp.
    destruct Hc as [<-|[<-|[]]]; destruct Hp as [<-|[<-|[<-|[]]]];
      vm_compute; repeat split.
Qed.

Section Executor.
Variable sha256hex : string -> string.
Variable timeRange_Range : TimeRange -> Z.

Abbreviation ExecuteQuery := (ExecuteQuery sha256hex timeRange_Range).
Abbreviation ExecuteQuery_range := (ExecuteQuery_range sha256hex timeRange_Range).
Abbreviation ExecuteQuery_body := (ExecuteQuery_body sha256hex timeRange_Range).

Lemma Get_maxAge mc key now :
  maxAge (fst (MetricCache_Get sha256hex mc key now)) = maxAge mc.
Proof.
  unfold metric.MetricCache_Get. cbv zeta.
  destruct (entries mc !! _) as [entry|];
    [destruct (now <? expires entry)|]; reflexivity.
Qed.

Lemma ExecuteQuery_body_then_cached qe id expr tr env qe1 log r :
  ExecuteQuery_body qe id expr tr env = (qe1, log, Ok r) ->
  (0 < attemptsMade log)%nat ->
  forall tr' env',
    getNow env' < nowExpires (setNow env) + maxAge (cache qe) ->
    exists c2,
      ExecuteQuery_body qe1 id expr tr' env'
      = ({| cache := c2; metrics := RecordCacheHit (metrics qe1) |}, [], Ok r).
Proof.
  unfold metric.ExecuteQuery_body.
  destruct (MetricCache_Get sha256hex (cache qe) _ (getNow env))
    as [c1 [cached found]] eqn:Hget.
  destruct found.
  { intros [= <- <- <-] Hlog. vm_compute in Hlog. lia. }
  destruct (admitted env); [|discriminate].
  destruct (executeWithRetry (attempts env)) as [l [v|err]];
    [|discriminate].
  intros [= <- <- <-] _ tr' env' Hnow. cbn [cache metrics].
  assert (Hage : maxAge c1 = maxAge (cache qe)).
  { change c1 with (fst (c1, (cached, false))). rewrite <- Hget.
    apply Get_maxAge. }
  pose proof (metric_facts.Get_after_Set sha256hex c1
                (NewCacheKey timeRange_Range id expr tr)
                (NewCacheKey timeRange_Range id expr tr')
                v (setNow env) (getNow env') eq_refl
                ltac:(rewrite Hage; exact Hnow)) as Hhit.
  destruct (MetricCache_Get sha256hex (MetricCache_Set sha256hex c1 _ v _) _ _)
    as [c2 [cached' found']].
  cbn [snd] in Hhit. injection Hhit as -> ->.
  eexists. reflexivity.
Qed.

(** X11: A query that went to the backend and came back with data is served
    from the cache afterwards: until the entry expires, [maxAge] after
    it was stored, a query with the same text on the same data source,
    whatever its instant or range, returns the same data without any
    attempt on the backend, and is counted as a cache hit. *)
Theorem ExecuteQuery_then_cached qe id query t env qe1 log r :
  ExecuteQuery qe id query t env = (qe1, log, Ok r) ->
  (0 < attemptsMade log)%nat ->
  forall query' t' tr' env',
    Expr query' = Expr query ->
    getNow env' < nowExpires (setNow env) + maxAge (cache qe) ->
    (exists c2,
       ExecuteQuery qe1 id query' t' env'
       = ({| cache := c2; metrics := RecordCacheHit (metrics qe1) |},
          [], Ok r)) /\
    (exists c2,
       ExecuteQuery_range qe1 id (Expr query) tr' env'
       = ({| cache := c2; metrics := RecordCacheHit (metrics qe1) |},
          [], Ok r)).
Proof.
  unfold metric.ExecuteQuery, metric.ExecuteQuery_range.
  intros Hrun Hlog query' t' tr' env' -> Hnow.
  split; eapply ExecuteQuery_body_then_cached; eauto.
Qed.

Lemma tallied_Record em :
  tallied em ->
  tallied (RecordCacheHit em) /\
  (forall err, tallied (RecordError em err)) /\
  tallied (RecordSuccess em).
Proof.
  unfold tallied. intros H.
  split; [|split; [intros err|]];
    cbn [RecordCacheHit RecordError RecordSuccess totalQueries cacheHits
         errors successes]; rewrite H.
  - rewrite <- prometheus_facts.int64_sum_succ. reflexivity.
  - replace (cacheHits em + int64 (errors em + 1) + successes em)
      with (int64 (errors em + 1) + cacheHits em + successes em) by lia.
    rewrite <- prometheus_facts.int64_sum_succ. do 3 f_equal. lia.
  - replace (cacheHits em + errors em + int64 (successes em + 1))
      with (int64 (successes em + 1) + cacheHits em + errors em) by lia.
    rewrite <- prometheus_facts.int64_sum_succ. do 3 f_equal. lia.
Qed.

Lemma ExecuteQuery_body_accounts qe id expr tr env :
  tallied (metrics qe) ->
  let run := ExecuteQuery_body qe id expr tr env in
  let qe' := fst (fst run) in
  tallied (metrics qe') /\
  match snd run, admitted env with
  | Ok _, _ =>
      (metrics qe' = RecordCacheHit (metrics qe) /\ snd (fst run) = []) \/
      metrics qe' = RecordSuccess (metrics qe)
  | Err e, SlotAcquired => metrics qe' = RecordError (metrics qe) e
  | Err e, WaitCtxDone c =>
      metrics qe' = metrics qe /\ snd (fst run) = [] /\
      e = Errorf "query execution timeout waiting for rate limit: " c
  end.
Proof.
  intros Ht. cbv zeta. unfold metric.ExecuteQuery_body.
  destruct (tallied_Record _ Ht) as (Hhit & Herr & Hsucc).
  destruct (MetricCache_Get sha256hex (cache qe) _ (getNow env))
    as [c1 [cached found]].
  destruct found; [cbn; destruct (admitted env); auto|].
  destruct (admitted env) eqn:Hadm.
  - destruct (executeWithRetry (attempts env)) as [l [v|err]]; cbn; auto.
  - cbn. auto.
Qed.

(** X12: The executor accounts for its queries: the total that [Stats]
    reports stays the sum, in int64, of the cache hits, errors and
    successes it reports; a query answered from
    the cache, one that ends in an error after it was admitted and one
    that succeeds are each counted once under their heading; and a query
    that gives up while waiting for a slot of the rate limit is not
    counted at all, makes no attempt, and returns the error of the
    context wrapped. *)
Theorem ExecuteQuery_accounts qe id query t tr env :
  tallied (metrics qe) ->
  let run := ExecuteQuery qe id query t env in
  let qe' := fst (fst run) in
  let stats := ExecutionMetrics_Stats (metrics qe') in
  TotalQueries stats
  = int64 (CacheHits stats + Errors stats + Successes stats) /\
  tallied (metrics (fst (fst (ExecuteQuery_range qe id (Expr query) tr env)))) /\
  match snd run, admitted env with
  | Ok _, _ =>
      (metrics qe' = RecordCacheHit (metrics qe) /\ snd (fst run) = []) \/
      metrics qe' = RecordSuccess (metrics qe)
  | Err e, SlotAcquired => metrics qe' = RecordError (metrics qe) e
  | Err e, WaitCtxDone c =>
      metrics qe' = metrics qe /\ snd (fst run) = [] /\
      e = Errorf "query execution timeout waiting for rate limit: " c
  end.
Proof.
  intros Ht. cbv zeta. unfold metric.ExecuteQuery, metric.ExecuteQuery_range.
  cbn [ExecutionMetrics_Stats TotalQueries CacheHits Errors Successes].
  pose proof (ExecuteQuery_body_accounts qe id (Expr query)
                {| Start := t; End := t |} env Ht) as [H1 H2].
  pose proof (ExecuteQuery_body_accounts qe id (Expr query) tr env Ht)
    as [H3 _].
  auto.
Qed.

End Executor.

Lemma ExecuteQuery_then_cached_witness :
  let qe := NewQueryExecutor (NewMetricCache 100 (30 * Second)) in
  let first :=
    ExecuteQuery samples.plainDigest samples.span qe "prom" samples.upQuery 0
      samples.answeredAtZero in
  snd first = Ok samples.upSeries /\
  exists c2,
    ExecuteQuery samples.plainDigest samples.span (fst (fst first)) "prom"
      samples.upQuery (29 * Second) samples.refusedAt29s
    = ({| cache := c2; metrics := RecordCacheHit (metrics (fst (fst first))) |},
       [], Ok samples.upSeries).
Proof.
  cbv zeta.
  destruct (ExecuteQuery samples.plainDigest samples.span
              (NewQueryExecutor (NewMetricCache 100 (30 * Second))) "prom"
              samples.upQuery 0 samples.answeredAtZero)
    as [[qe1 log] r] eqn:Hrun.
  assert (Hr : r = Ok samples.upSeries).
  { change r with (snd (qe1, log, r)). rewrite <- Hrun.
    vm_compute. reflexivity. }
  assert (Hlog : log = [Attempt 0]).
  { change log with (snd (fst (qe1, log, r))). rewrite <- Hrun.
    vm_compute. reflexivity. }
  subst r log. cbn [fst snd]. split; [reflexivity|].
  apply (proj1 (ExecuteQuery_then_cached samples.plainDigest samples.span
                  _ _ _ _ _ _ _ _ Hrun ltac:(vm_compute; lia)
                  samples.upQuery (29 * Second) samples.firstMinute
                  samples.refusedAt29s eq_refl
                  ltac:(vm_compute; reflexivity))).
Defined.

Lemma ExecuteQuery_accounts_witness :
  let qe := NewQueryExecutor samples.warmCache in
  let run :=
    ExecuteQuery samples.plainDigest samples.span qe "prom" samples.upQuery 0
      samples.noSlotAt31s in
  tallied (metrics (fst (fst run))) /\
  snd run
  = Err (Errorf "query execution timeout waiting for rate limit: "
                DeadlineExceeded) /\
  metrics (fst (fst run)) = NewExecutionMetrics.
Proof.
  cbv zeta.
  destruct (ExecuteQuery_accounts samples.plainDigest samples.span
              (NewQueryExecutor samples.warmCache) "prom" samples.upQuery 0
              samples.firstMinute samples.noSlotAt31s eq_refl)
    as (Ht & _ & Hacc).
  split; [exact Ht|].
  destruct (ExecuteQuery samples.plainDigest samples.span
              (NewQueryExecutor samples.warmCache) "prom" samples.upQuery 0
              samples.noSlotAt31s) as [[qe1 log] r] eqn:Hrun.
  assert (Hr : r = Err (Errorf "query execution timeout waiting for rate limit: "
                               DeadlineExceeded)).
  { change r with (snd (qe1, log, r)). rewrite <- Hrun.
    vm_compute. reflexivity. }
  subst r. cbn [fst snd] in *. split; [reflexivity|].
  exact (proj1 Hacc).
Defined.

End executor_facts.

(** ** The parallel executor *)
Module parallel_facts.
Import model metric.

Lemma fanStep_roomy s s' : fanStep s s' -> fanRoomy s -> fanRoomy s'.
Proof.
  unfold fanRoomy. intros [ | | | ];
    cbn [resultsCh workers chanCap]; rewrite ?length_app; cbn [length]; lia.
Qed.

Lemma fanSteps_roomy s s' : fanSteps s s' -> fanRoomy s -> fanRoomy s'.
Proof. induction 1; eauto using fanStep_roomy. Qed.

Lemma fanSteps_trans s1 s2 s3 : fanSteps s1 s2 -> fanSteps s2 s3 -> fanSteps s1 s3.
Proof. induction 1; eauto using fanSteps_step. Qed.

Lemma result_ID_widgetResult w : result_ID (widgetResult w) = widget_ID w.
Proof. unfold widgetResult. destruct (widget_answer w); reflexivity. Qed.

Lemma fan_collect_all done cap ws : forall buf res,
  fanSteps {| workers := ws; resultsCh := buf; results := res;
              ctxDone := done; chanCap := cap |}
           {| workers := ws; resultsCh := []; results := collected buf res;
              ctxDone := done; chanCap := cap |}.
Proof.
  induction buf as [|r buf IH]; intros res; cbn [collected fold_left].
  - apply fanSteps_refl.
  - eapply fanSteps_step; [apply fan_collect | apply IH].
Qed.

Lemma fan_send_all done cap : forall ws buf res,
  (length buf + length ws <= cap)%nat ->
  fanSteps {| workers := ws; resultsCh := buf; results := res;
              ctxDone := done; chanCap := cap |}
           {| workers := []; resultsCh := buf ++ map widgetResult ws;
              results := res; ctxDone := done; chanCap := cap |}.
Proof.
  induction ws as [|w ws IH]; intros buf res Hroom; cbn [map length] in *.
  - rewrite app_nil_r. apply fanSteps_refl.
  - eapply fanSteps_step.
    + apply (fan_send [] w ws buf res done cap). lia.
    + cbn [app].
      replace (buf ++ widgetResult w :: map widgetResult ws)
        with ((buf ++ [widgetResult w]) ++ map widgetResult ws)
        by (rewrite <- app_assoc; reflexivity).
      apply IH. rewrite length_app. cbn [length]. lia.
Qed.

Lemma fan_drop_all cap : forall ws buf res,
  fanSteps {| workers := ws; resultsCh := buf; results := res;
              ctxDone := true; chanCap := cap |}
           {| workers := []; resultsCh := buf; results := res;
              ctxDone := true; chanCap := cap |}.
Proof.
  induction ws as [|w ws IH]; intros buf res.
  - apply fanSteps_refl.
  - eapply fanSteps_step; [apply (fan_drop [] w ws) | apply IH].
Qed.

Lemma in_order_collected ws : forall res,
  fold_left (fun res w => <[widget_ID w := widgetResult w]> res) ws res
  = collected (map widgetResult ws) res.
Proof.
  unfold collected.
  induction ws as [|w ws IH]; intros res; cbn [map fold_left]; [reflexivity|].
  rewrite result_ID_widgetResult. apply IH.
Qed.

Lemma fanInv_start widgets done : fanInv widgets (fanStart widgets done).
Proof.
  unfold fanInv, fanStart. cbn [workers resultsCh results ctxDone].
  split; [auto|]. split; [intros r Hr; inversion Hr|].
  split; [intros id r Hr; rewrite lookup_empty in Hr; discriminate|].
  auto.
Qed.

Lemma fanStep_inv widgets s s' :
  fanStep s s' -> fanInv widgets s -> fanInv widgets s'.
Proof.
  unfold fanInv.
  intros [before w after buf res done cap Hroom
         |before w after buf res cap
         |ws buf res cap
         |ws r buf res done cap];
    cbn [workers resultsCh results ctxDone];
    intros (Hw & Hb & Hr & Hlive).
  - assert (Hin_w : w ∈ widgets).
    { apply Hw. apply elem_of_app. right. left. }
    split; [|split; [|split]].
    + intros w' Hw'. apply Hw.
      apply elem_of_app in Hw' as [Hw'|Hw']; apply elem_of_app;
        [left | right; right]; exact Hw'.
    + intros r Hin. apply elem_of_app in Hin as [Hin|Hin]; [auto|].
      apply list_elem_of_singleton in Hin as ->.
      exists w. split; [exact Hin_w | reflexivity].
    + exact Hr.
    + intros Hd w' Hw'. destruct (Hlive Hd w' Hw') as [Hin|[Hin|Hin]].
      * apply elem_of_app in Hin as [Hin|Hin].
        { left. apply elem_of_app. left. exact Hin. }
        apply elem_of_cons in Hin as [->|Hin].
        { right. left. exists (widgetResult w).
          split; [apply elem_of_app; right; left
                 | apply result_ID_widgetResult]. }
        left. apply elem_of_app. right. exact Hin.
      * destruct Hin as (r & Hin & Hid). right. left. exists r.
        split; [apply elem_of_app; left; exact Hin | exact Hid].
      * right. right. exact Hin.
  - split; [|split; [|split]].
    + intros w' Hw'. apply Hw.
      apply elem_of_app in Hw' as [Hw'|Hw']; apply elem_of_app;
        [left | right; right]; exact Hw'.
    + exact Hb.
    + exact Hr.
    + discriminate.
  - split; [|split; [|split]].
    + exact Hw.
    + exact Hb.
    + exact Hr.
    + discriminate.
  - split; [|split; [|split]].
    + exact Hw.
    + intros r' Hin. apply Hb. right. exact Hin.
    + intros id r' Hlook.
      destruct (decide (result_ID r = id)) as [<-|Hne].
      * rewrite lookup_insert_eq in Hlook. injection Hlook as <-.
        destruct (Hb r ltac:(left)) as (w & Hin & ->).
        exists w. rewrite result_ID_widgetResult. auto.
      * rewrite lookup_insert_ne in Hlook by exact Hne. auto.
    + intros Hd w' Hw'. destruct (Hlive Hd w' Hw') as [Hin|[Hin|Hin]].
      * left. exact Hin.
      * destruct Hin as (r' & Hin & Hid).
        apply elem_of_cons in Hin as [->|Hin].
        -- right. right. rewrite <- Hid, lookup_insert_eq. eauto.
        -- right. left. eauto.
      * right. right.
        destruct (decide (result_ID r = widget_ID w')) as [<-|Hne].
        -- rewrite lookup_insert_eq. eauto.
        -- rewrite lookup_insert_ne by exact Hne. exact Hin.
Qed.

Lemma fanSteps_inv widgets s s' :
  fanSteps s s' -> fanInv widgets s -> fanInv widgets s'.
Proof. induction 1; eauto using fanStep_inv. Qed.

Lemma NoDup_widget_ID (widgets : list WidgetData) w w' :
  NoDup (map widget_ID widgets) ->
  w ∈ widgets -> w' ∈ widgets -> widget_ID w = widget_ID w' -> w = w'.
Proof.
  induction widgets as [|x xs IH]; intros Hnd Hw Hw' Hid; [inversion Hw|].
  cbn [map] in Hnd. apply NoDup_cons in Hnd as [Hx Hnd].
  apply elem_of_cons in Hw as [->|Hw]; apply elem_of_cons in Hw' as [->|Hw'].
  - reflexivity.
  - exfalso. apply Hx. rewrite Hid. apply list_elem_of_fmap. eauto.
  - exfalso. apply Hx. rewrite <- Hid. apply list_elem_of_fmap. eauto.
  - auto.
Qed.

(** X13: [ExecuteWidgetQueries] never blocks and always returns: a goroutine
    at its [select] can send at once, and from every state a run reaches
    it can run to its end.  Every entry of the map it returns is the
    result of a widget with that ID.  When the context is still live at
    the end, every widget has an entry under its ID, and with distinct
    IDs the entry of each widget is its own result. *)
Theorem ExecuteWidgetQueries_collects widgets done0 :
  (forall s before w after,
     fanSteps (fanStart widgets done0) s ->
     workers s = before ++ w :: after ->
     exists s', fanStep s s' /\ workers s' = before ++ after /\
                resultsCh s' = resultsCh s ++ [widgetResult w]) /\
  (forall s,
     fanSteps (fanStart widgets done0) s ->
     exists s', fanSteps s s' /\ workers s' = [] /\ resultsCh s' = []) /\
  ExecuteWidgetQueries_returns widgets false
    (ExecuteWidgetQueries_in_order widgets) false /\
  (forall res done,
     ExecuteWidgetQueries_returns widgets done0 res done ->
     (forall id r, res !! id = Some r ->
        exists w, w ∈ widgets /\ widget_ID w = id /\ r = widgetResult w) /\
     (done = false ->
      forall w, w ∈ widgets -> is_Some (res !! widget_ID w)) /\
     (done = false -> NoDup (map widget_ID widgets) ->
      forall w, w ∈ widgets -> res !! widget_ID w = Some (widgetResult w))).
Proof.
  assert (Hroom0 : fanRoomy (fanStart widgets done0)).
  { unfold fanRoomy, fanStart. cbn. lia. }
  split; [|split; [|split]].
  - intros s before w after Hs Hws.
    pose proof (fanSteps_roomy _ _ Hs Hroom0) as Hroom.
    destruct s as [ws buf res done cap]. unfold fanRoomy in Hroom.
    cbn [workers resultsCh chanCap] in *. subst ws.
    rewrite length_app in Hroom. cbn [length] in Hroom.
    eexists. split; [apply fan_send; lia|]. split; reflexivity.
  - intros s Hs.
    pose proof (fanSteps_roomy _ _ Hs Hroom0) as Hroom.
    destruct s as [ws buf res done cap]. unfold fanRoomy in Hroom.
    cbn [workers resultsCh chanCap] in Hroom.
    eexists. split.
    + eapply fanSteps_trans; [apply fan_send_all; exact Hroom|].
      apply fan_collect_all.
    + split; reflexivity.
  - unfold ExecuteWidgetQueries_returns, ExecuteWidgetQueries_in_order.
    eexists. split.
    + eapply fanSteps_trans;
        [apply (fan_send_all false (length widgets) widgets [] ∅); cbn; lia|].
      apply fan_collect_all.
    + cbn [workers resultsCh results ctxDone app].
      rewrite in_order_collected. auto.
  - intros res done (s & Hs & Hws & Hbuf & -> & ->).
    destruct (fanSteps_inv widgets _ _ Hs (fanInv_start widgets done0))
      as (_ & _ & Hsound & Hlive).
    assert (Hall : ctxDone s = false ->
              forall w, w ∈ widgets -> is_Some (results s !! widget_ID w)).
    { intros Hd w Hw. destruct (Hlive Hd w Hw) as [Hin|[(r & Hin & _)|Hin]].
      - rewrite Hws in Hin. inversion Hin.
      - rewrite Hbuf in Hin. inversion Hin.
      - exact Hin. }
    split; [exact Hsound|]. split; [exact Hall|].
    intros Hd Hnd w Hw. destruct (Hall Hd w Hw) as [r Hr].
    destruct (Hsound _ _ Hr) as (w' & Hw' & Hid & ->).
    rewrite Hr. f_equal. f_equal.
    apply (NoDup_widget_ID widgets); auto.
Qed.

(** X14: Once the context of the caller is done results may be lost: a
    goroutine whose query has answered may return without sending, and
    [ExecuteWidgetQueries] may come back with an empty map whatever the
    widgets returned. *)
Theorem ExecuteWidgetQueries_may_drop widgets done0 :
  ExecuteWidgetQueries_returns widgets done0 ∅ true.
Proof.
  unfold ExecuteWidgetQueries_returns, fanStart.
  exists {| workers := []; resultsCh := []; results := ∅; ctxDone := true;
            chanCap := length widgets |}.
  split; [|auto].
  destruct done0.
  - apply fan_drop_all.
  - eapply fanSteps_step; [apply fan_cancel | apply fan_drop_all].
Qed.

End parallel_facts.

(** ** The enhanced gatherer, call by call *)
Module gatherer_facts.
Import model prometheus float64_facts float64_exact.
Import float64.

(** X15: [SetTimeout] keeps the timeout between one and thirty seconds: a
    duration in that range is taken as it is, one that is zero or
    negative gives the default of five seconds, a positive one below a
    second gives one second, one above thirty seconds gives thirty.
    Setting the timeout a gatherer already has changes nothing, and the
    identifier and the counters are never touched. *)
Theorem SetTimeout_clamps eg d :
  let eg' := SetTimeout eg d in
  MinTimeout <= timeoutDuration eg' <= MaxTimeout /\
  (d <= 0 -> timeoutDuration eg' = DefaultTimeout) /\
  (0 < d < MinTimeout -> timeoutDuration eg' = MinTimeout) /\
  (MinTimeout <= d <= MaxTimeout -> timeoutDuration eg' = d) /\
  (MaxTimeout < d -> timeoutDuration eg' = MaxTimeout) /\
  SetTimeout eg' (timeoutDuration eg') = eg' /\
  ID eg' = ID eg /\ metrics eg' = metrics eg.
Proof.
  cbv zeta. unfold SetTimeout, timeoutDuration, ID. cbn [id timeout metrics lastExecTime].
  unfold MinTimeout, MaxTimeout, DefaultTimeout, Second.
  destruct (Z.leb_spec d 0);
    repeat match goal with
           | |- context [?a <? ?b] =>
               lazymatch a with
               | context [if _ then _ else _] => fail
               | _ => lazymatch b with
                      | context [if _ then _ else _] => fail
                      | _ => destruct (Z.ltb_spec a b)
                      end
               end
           | |- context [?a <=? ?b] =>
               lazymatch a with
               | context [if _ then _ else _] => fail
               | _ => destruct (Z.leb_spec a b)
               end
           end;
    repeat split; try f_equal; lia.
Qed.


Lemma average_exact (a d : Z) :
  (0 <= a)%Z -> (0 <= d)%Z -> (a + d <= 2 ^ 53)%Z ->
  to_int (div (add (of_int a) (of_int d)) 2) = ((a + d) / 2)%Z.
Proof.
  intros Ha Hd Hsum. unfold div, add.
  rewrite (of_int_small a), (of_int_small d) by lia.
  rewrite <- inject_Z_plus, (rnd_int (a + d)) by lia.
  rewrite (rnd_half (a + d)) by lia.
  apply to_int_half. lia.
Qed.

(** X16: Once a query has succeeded, recording an execution time replaces
    the stored time by the mean of the stored time and the new one,
    rounded down: exactly so for times that add up to at most 2^53ns.
    The result lies between the two, and it is what
    [GetLastExecutionTime] and the two time fields of [GetMetrics]
    report, so these give a running mean and not the time of the last
    execution.  The counters are not touched. *)
Theorem recordExecutionTime_halves eg m d :
  metrics eg = Some m ->
  0 < queriesSuccessful m ->
  0 <= averageExecTime m -> 0 <= d -> averageExecTime m + d <= 2 ^ 53 ->
  let eg' := recordExecutionTime eg d in
  getLastExecutionTime eg' = (averageExecTime m + d) / 2 /\
  Z.min (averageExecTime m) d <= getLastExecutionTime eg'
    <= Z.max (averageExecTime m) d /\
  LastExecutionTime (GetMetrics eg') = getLastExecutionTime eg' /\
  AverageExecTime (GetMetrics eg') = getLastExecutionTime eg' /\
  TotalQueries (GetMetrics eg') = TotalQueries (GetMetrics eg) /\
  SuccessfulQueries (GetMetrics eg') = SuccessfulQueries (GetMetrics eg).
Proof.
  intros Hm Hs Ha Hd Hsum. cbv zeta.
  assert (Hlast : getLastExecutionTime (recordExecutionTime eg d)
                  = (averageExecTime m + d) / 2).
  { unfold recordExecutionTime, getLastExecutionTime. rewrite Hm.
    cbn [withMetrics metrics averageExecTime].
    apply Z.ltb_lt in Hs. rewrite Hs. apply average_exact; assumption. }
  split; [exact Hlast|]. split.
  { rewrite Hlast.
    pose proof (Z.div_le_lower_bound (averageExecTime m + d) 2
                  (Z.min (averageExecTime m) d) ltac:(lia) ltac:(lia)).
    pose proof (Z.div_le_upper_bound (averageExecTime m + d) 2
                  (Z.max (averageExecTime m) d) ltac:(lia) ltac:(lia)).
    lia. }
  unfold GetMetrics, getLastExecutionTime, recordExecutionTime.
  rewrite Hm. cbn [withMetrics metrics averageExecTime queriesTotal
                   queriesSuccessful LastExecutionTime AverageExecTime
                   TotalQueries SuccessfulQueries].
  repeat split.
Qed.

(** The gatherer a call leaves before its execution time is recorded,
    by the way the call ends. *)
Lemma retryLoop_outcome msg step env eg :
  let run := retryLoop msg step env maxRetries 0%nat None eg [] in
  match snd run with
  | Ok r =>
      fst (fst run) = ifMetrics markSuccess eg /\
      exists n, (n < 2)%nat /\ queried (env n) = Ok r /\
                attemptsMade (snd (fst run)) = S n
  | Err e =>
      fst (fst run) = ifMetrics markTimeout eg \/
      fst (fst run) = ifMetrics markFailure eg \/
      fst (fst run) = eg
  end.
Proof.
  cbv zeta. unfold maxRetries. cbn [retryLoop].
  repeat match goal with
         | |- context [match prometheus.ctxAtTop ?e with _ => _ end] =>
             destruct (prometheus.ctxAtTop e) eqn:?
         | |- context [match prometheus.backoffSelect ?e with _ => _ end] =>
             destruct (prometheus.backoffSelect e) eqn:?
         | |- context [match queried ?e with _ => _ end] =>
             destruct (queried e) eqn:?
         | |- context [if isContextError ?e then _ else _] =>
             destruct (isContextError e) eqn:?
         | _ => progress cbn [Nat.ltb Nat.leb Nat.sub maxRetries fst snd]
         end;
    auto;
    (split; [reflexivity|]);
    first [exists 0%nat; split; [lia|]; split; [assumption|reflexivity]
          |exists 1%nat; split; [lia|]; split; [assumption|reflexivity]].
Qed.

Lemma GetMetrics_ifMetrics eg m :
  metrics eg = Some m ->
  ifMetrics markSuccess eg = markSuccess eg /\
  ifMetrics markFailure eg = markFailure eg /\
  ifMetrics markTimeout eg = markTimeout eg.
Proof. unfold ifMetrics. intros ->. auto. Qed.

(** X17: A call is counted for what it returned: when [GatherSingle] or
    [GatherRange] returns data, the data are the answer of the attempt
    made last, the success counter goes up by one and the two others
    stay; when it returns an error the success counter stays, and at
    most one of the failure and the timeout counter goes up by one. *)
Theorem Gather_outcome_is_counted eg m env elapsed start end_ :
  metrics eg = Some m ->
  let counted (run : enhancedGatherer * list event * result (list MetricSeries)) :=
    let s := GetMetrics eg in
    let s' := GetMetrics (fst (fst run)) in
    match snd run with
    | Ok r =>
        (exists n, (n < 2)%nat /\ queried (env n) = Ok r /\
                   attemptsMade (snd (fst run)) = S n) /\
        SuccessfulQueries s' = int64 (SuccessfulQueries s + 1) /\
        FailedQueries s' = FailedQueries s /\
        TimeoutQueries s' = TimeoutQueries s
    | Err e =>
        SuccessfulQueries s' = SuccessfulQueries s /\
        ((FailedQueries s' = int64 (FailedQueries s + 1) /\
          TimeoutQueries s' = TimeoutQueries s) \/
         (FailedQueries s' = FailedQueries s /\
          TimeoutQueries s' = int64 (TimeoutQueries s + 1)) \/
         (FailedQueries s' = FailedQueries s /\
          TimeoutQueries s' = TimeoutQueries s))
    end in
  counted (GatherSingle eg env elapsed) /\
  counted (GatherRange eg start end_ env elapsed).
Proof.
  intros Hm. cbv zeta.
  destruct (GetMetrics_ifMetrics eg m Hm) as (HS & HF & HT).
  destruct (prometheus_facts.GetMetrics_markSuccess eg m Hm) as (_ & S1 & S2 & S3).
  destruct (prometheus_facts.GetMetrics_markFailure eg m Hm) as (_ & F1 & F2 & F3).
  destruct (prometheus_facts.GetMetrics_markTimeout eg m Hm) as (_ & T1 & T2 & T3).
  assert (H : forall msg step,
    let run := retryLoop msg step env maxRetries 0%nat None eg [] in
    forall d t,
    let s := GetMetrics eg in
    let s' := GetMetrics (recordExecutionTime (fst (fst run)) d) in
    match snd run with
    | Ok r =>
        (exists n, (n < 2)%nat /\ queried (env n) = Ok r /\
                   attemptsMade (WithTimeout t :: snd (fst run)) = S n) /\
        SuccessfulQueries s' = int64 (SuccessfulQueries s + 1) /\
        FailedQueries s' = FailedQueries s /\
        TimeoutQueries s' = TimeoutQueries s
    | Err e =>
        SuccessfulQueries s' = SuccessfulQueries s /\
        ((FailedQueries s' = int64 (FailedQueries s + 1) /\
          TimeoutQueries s' = TimeoutQueries s) \/
         (FailedQueries s' = FailedQueries s /\
          TimeoutQueries s' = int64 (TimeoutQueries s + 1)) \/
         (FailedQueries s' = FailedQueries s /\
          TimeoutQueries s' = TimeoutQueries s))
    end).
  { intros msg step. cbv zeta. intros d t.
    pose proof (retryLoop_outcome msg step env eg) as Hout. cbv zeta in Hout.
    destruct (retryLoop msg step env maxRetries 0 None eg []) as [[eg1 log] r].
    cbn [fst snd] in *.
    destruct (prometheus_facts.GetMetrics_recordExecutionTime eg1 d)
      as (_ & -> & -> & ->).
    destruct r as [v|e].
    - destruct Hout as [-> (n & Hn & Hq & Ha)]. rewrite HS.
      split; [|auto].
      exists n. split; [exact Hn|]. split; [exact Hq|]. exact Ha.
    - destruct Hout as [-> | [-> | ->]]; rewrite ?HT, ?HF; auto 6. }
  unfold GatherSingle, GatherRange, executeWithRetry, executeWithRetryForRange.
  split.
  - pose proof (H "query deadline exceeded: " 100 elapsed (timeoutDuration eg))
      as H1. cbv zeta in H1.
    destruct (retryLoop "query deadline exceeded: " 100 env maxRetries 0 None
                eg []) as [[eg1 log] r].
    exact H1.
  - pose proof (H "range query deadline exceeded: " 250 elapsed
                  (calculateRangeTimeout eg start end_)) as H1.
    cbv zeta in H1.
    destruct (retryLoop "range query deadline exceeded: " 250 env maxRetries
                0 None eg []) as [[eg1 log] r].
    exact H1.
Qed.


(** X18: The success of a call is counted before its execution time is
    recorded, so the time of a call that succeeds is always averaged
    with the stored time: after the first successful [GatherSingle] or
    [GatherRange] of a new gatherer, [GetLastExecutionTime] is half the
    time the call took.  A call that fails on a gatherer that has never
    succeeded stores its own time. *)
Theorem first_success_records_half datasourceID env elapsed start end_ :
  0 <= elapsed <= 2 ^ 53 ->
  let eg := NewEnhancedGatherer datasourceID in
  let recorded (run : enhancedGatherer * list event * result (list MetricSeries)) :=
    match snd run with
    | Ok _ => getLastExecutionTime (fst (fst run)) = elapsed / 2
    | Err _ => getLastExecutionTime (fst (fst run)) = elapsed
    end in
  recorded (GatherSingle eg env elapsed) /\
  recorded (GatherRange eg start end_ env elapsed).
Proof.
  intros Hel. cbv zeta.
  assert (H : forall msg step,
    let run := retryLoop msg step env maxRetries 0%nat None
                 (NewEnhancedGatherer datasourceID) [] in
    match snd run with
    | Ok _ =>
        getLastExecutionTime (recordExecutionTime (fst (fst run)) elapsed)
        = elapsed / 2
    | Err _ =>
        getLastExecutionTime (recordExecutionTime (fst (fst run)) elapsed)
        = elapsed
    end).
  { intros msg step. cbv zeta.
    pose proof (retryLoop_outcome msg step env
                  (NewEnhancedGatherer datasourceID)) as Hout.
    cbv zeta in Hout.
    destruct (retryLoop msg step env maxRetries 0 None _ []) as [[eg1 log] r].
    cbn [fst snd] in *.
    destruct r as [v|e].
    - destruct Hout as [-> _].
      unfold recordExecutionTime, getLastExecutionTime, ifMetrics, markSuccess,
        NewEnhancedGatherer, withMetrics.
      cbn [metrics averageExecTime queriesSuccessful].
      change (0 <? int64 (0 + 1)) with true. cbv iota.
      rewrite (average_exact 0 elapsed) by lia. f_equal.
    - destruct Hout as [-> | [-> | ->]]; reflexivity. }
  unfold GatherSingle, GatherRange, executeWithRetry, executeWithRetryForRange.
  split.
  - pose proof (H "query deadline exceeded: " 100) as H1. cbv zeta in H1.
    destruct (retryLoop "query deadline exceeded: " 100 env maxRetries 0 None
                _ []) as [[eg1 log] r].
    exact H1.
  - pose proof (H "range query deadline exceeded: " 250) as H1.
    cbv zeta in H1.
    destruct (retryLoop "range query deadline exceeded: " 250 env maxRetries
                0 None _ []) as [[eg1 log] r].
    exact H1.
Qed.

(** X19: A call whose context is done before the first attempt makes no
    attempt on the backend.  It returns the error of the context
    wrapped, with a message that speaks of a deadline whether the
    context was cancelled or timed out; [errors.Unwrap] of the result
    is the error of the context itself.  When that error is a context
    sentinel, bare or behind [%w] wrappings, [errors.Is] finds the
    sentinel in the result and the result is context-classified.  The
    call is counted as a timeout. *)
Theorem Gather_context_done eg m env elapsed start end_ c :
  metrics eg = Some m ->
  ctxAtTop (env 0%nat) = Some c ->
  let single := GatherSingle eg env elapsed in
  let range := GatherRange eg start end_ env elapsed in
  snd single = Err (Errorf "query deadline exceeded: " c) /\
  snd range = Err (Errorf "range query deadline exceeded: " c) /\
  attemptsMade (snd (fst single)) = 0%nat /\
  attemptsMade (snd (fst range)) = 0%nat /\
  Unwrap (Errorf "query deadline exceeded: " c) = Some c /\
  Unwrap (Errorf "range query deadline exceeded: " c) = Some c /\
  (forall prefixes s,
     c = wrapAll prefixes (Sentinel s) ->
     errorsIs (Errorf "query deadline exceeded: " c) s = true /\
     errorsIs (Errorf "range query deadline exceeded: " c) s = true /\
     isContextError (Some (Errorf "query deadline exceeded: " c)) = true /\
     isContextError (Some (Errorf "range query deadline exceeded: " c))
     = true) /\
  fst (fst range) = fst (fst single) /\
  TimeoutQueries (GetMetrics (fst (fst single)))
    = int64 (TimeoutQueries (GetMetrics eg) + 1) /\
  TotalQueries (GetMetrics (fst (fst single)))
    = int64 (TotalQueries (GetMetrics eg) + 1) /\
  FailedQueries (GetMetrics (fst (fst single))) = FailedQueries (GetMetrics eg) /\
  SuccessfulQueries (GetMetrics (fst (fst single)))
    = SuccessfulQueries (GetMetrics eg).
Proof.
  intros Hm Hc. cbv zeta.
  unfold GatherSingle, GatherRange, executeWithRetry, executeWithRetryForRange,
    maxRetries.
  cbn [retryLoop]. rewrite Hc. cbn [fst snd].
  destruct (GetMetrics_ifMetrics eg m Hm) as (_ & _ & ->).
  do 6 (split; [reflexivity|]).
  split.
  { intros prefixes s ->.
    change (Errorf "query deadline exceeded: " (wrapAll prefixes (Sentinel s)))
      with (wrapAll ("query deadline exceeded: " :: prefixes) (Sentinel s)).
    change (Errorf "range query deadline exceeded: "
                   (wrapAll prefixes (Sentinel s)))
      with (wrapAll ("range query deadline exceeded: " :: prefixes)
                    (Sentinel s)).
    rewrite !errorsIs_wrapAll.
    rewrite !prometheus_facts.isContextError_wrapAll.
    destruct s; repeat split; reflexivity. }
  split; [reflexivity|].
  destruct (prometheus_facts.GetMetrics_recordExecutionTime (markTimeout eg)
              elapsed) as (-> & -> & -> & ->).
  destruct (prometheus_facts.GetMetrics_markTimeout eg m Hm)
    as (-> & -> & -> & ->).
  auto.
Qed.

(** X20: What a call may cost: [GatherSingle] and [GatherRange] make at most
    two attempts each, and sleep between them at most 100ms and 250ms;
    the deadline they put on the context is the timeout of the gatherer
    for a single query, and for a range the timeout scaled to the size
    of the range. *)
Theorem Gather_cost_is_bounded eg env elapsed start end_ :
  let single := snd (fst (GatherSingle eg env elapsed)) in
  let range := snd (fst (GatherRange eg start end_ env elapsed)) in
  (attemptsMade single <= 2)%nat /\ (attemptsMade range <= 2)%nat /\
  0 <= sleptTotal single <= 100 * Millisecond /\
  0 <= sleptTotal range <= 250 * Millisecond /\
  head single = Some (WithTimeout (timeoutDuration eg)) /\
  head range = Some (WithTimeout (calculateRangeTimeout eg start end_)).
Proof.
  cbv zeta.
  unfold GatherSingle, GatherRange, executeWithRetry, executeWithRetryForRange,
    maxRetries.
  cbn [retryLoop].
  repeat match goal with
         | |- context [match prometheus.ctxAtTop ?e with _ => _ end] =>
             destruct (prometheus.ctxAtTop e) eqn:?
         | |- context [match prometheus.backoffSelect ?e with _ => _ end] =>
             destruct (prometheus.backoffSelect e) eqn:?
         | |- context [match queried ?e with _ => _ end] =>
             destruct (queried e) eqn:?
         | |- context [if isContextError ?e then _ else _] =>
             destruct (isContextError e) eqn:?
         | _ => progress cbn [Nat.ltb Nat.leb Nat.sub maxRetries fst snd]
         end;
    cbn [app head];
    (split; [unfold attemptsMade; cbn; lia|]);
    (split; [unfold attemptsMade; cbn; lia|]);
    (split; [vm_compute; split; discriminate|]);
    (split; [vm_compute; split; discriminate|]);
    split; reflexivity.
Qed.

Lemma recordExecutionTime_halves_witness :
  getLastExecutionTime samples.oneSuccess = 100 * Millisecond /\
  getLastExecutionTime
    (recordExecutionTime samples.oneSuccess (200 * Millisecond))
  = 150 * Millisecond.
Proof.
  split; [reflexivity|].
  destruct (recordExecutionTime_halves samples.oneSuccess
              {| queriesTotal := 1; queriesSuccessful := 1;
                 queriesFailed := 0; queriesTimeout := 0;
                 averageExecTime := 100 * Millisecond |}
              (200 * Millisecond)
              ltac:(vm_compute; reflexivity) ltac:(vm_compute; reflexivity)
              ltac:(vm_compute; discriminate) ltac:(vm_compute; discriminate)
              ltac:(vm_compute; discriminate)) as (Hlast & _).
  rewrite Hlast. reflexivity.
Defined.

Lemma Gather_outcome_is_counted_witness :
  let run :=
    GatherSingle (NewEnhancedGatherer "prom") samples.answeringProm Second in
  snd run = Ok samples.upSeries /\
  SuccessfulQueries (GetMetrics (fst (fst run))) = 1 /\
  FailedQueries (GetMetrics (fst (fst run))) = 0 /\
  TimeoutQueries (GetMetrics (fst (fst run))) = 0.
Proof.
  cbv zeta.
  pose proof (proj1 (Gather_outcome_is_counted (NewEnhancedGatherer "prom") _
                       samples.answeringProm Second 0 Hour eq_refl)) as H.
  cbv zeta in H.
  destruct (GatherSingle (NewEnhancedGatherer "prom") samples.answeringProm
              Second) as [[eg1 log] r] eqn:Hrun.
  assert (Hr : r = Ok samples.upSeries).
  { change r with (snd (eg1, log, r)). rewrite <- Hrun.
    vm_compute. reflexivity. }
  subst r. cbn [fst snd] in *.
  destruct H as (_ & Hs & Hf & Ht).
  split; [reflexivity|]. split; [exact Hs|]. split; [exact Hf | exact Ht].
Defined.

Lemma first_success_records_half_witness :
  let run :=
    GatherSingle (NewEnhancedGatherer "prom") samples.answeringProm Second in
  snd run = Ok samples.upSeries /\
  getLastExecutionTime (fst (fst run)) = 500 * Millisecond.
Proof.
  cbv zeta.
  pose proof (proj1 (first_success_records_half "prom" samples.answeringProm
                       Second 0 Hour
                       ltac:(vm_compute; split; discriminate))) as H.
  cbv zeta in H.
  destruct (GatherSingle (NewEnhancedGatherer "prom") samples.answeringProm
              Second) as [[eg1 log] r] eqn:Hrun.
  assert (Hr : r = Ok samples.upSeries).
  { change r with (snd (eg1, log, r)). rewrite <- Hrun.
    vm_compute. reflexivity. }
  subst r. cbn [fst snd] in *. split; [reflexivity|].
  rewrite H. reflexivity.
Defined.

Lemma Gather_context_done_witness :
  let run :=
    GatherSingle (NewEnhancedGatherer "test-ds") samples.cancelled Second in
  snd run = Err (Errorf "query deadline exceeded: " Canceled) /\
  Error (Errorf "query deadline exceeded: " Canceled)
  = "query deadline exceeded: context canceled" /\
  errorsIs (Errorf "query deadline exceeded: " Canceled) context.Canceled
  = true /\
  isContextError (Some (Errorf "query deadline exceeded: " Canceled)) = true /\
  attemptsMade (snd (fst run)) = 0%nat /\
  TimeoutQueries (GetMetrics (fst (fst run))) = 1.
Proof.
  cbv zeta.
  destruct (Gather_context_done (NewEnhancedGatherer "test-ds") _
              samples.cancelled Second 0 Hour Canceled eq_refl eq_refl)
    as (Hr & _ & Ha & _ & _ & _ & Hs & _ & Ht & _).
  destruct (Hs [] context.Canceled eq_refl) as (His & _ & Hc & _).
  split; [exact Hr|]. split; [reflexivity|].
  split; [exact His|]. split; [exact Hc|].
  split; [exact Ha | exact Ht].
Defined.

End gatherer_facts.

(** ** The router: what it knows and what it refuses *)
Module router_facts.
Import model datasource.

Section Router.
Variable client : Type.
Variable clientGatherSingle :
  client -> Query -> Z -> result (list MetricSeries).
Variable clientGatherRange :
  client -> Query -> Z -> Z -> Z -> result (list MetricSeries).
Variable defaultCreateFake : FakeDatasource -> result client.
Variable defaultCreatePrometheus : PrometheusDatasource -> result client.
Variable defaultCreateGraphite : GraphiteDatasource -> result client.
Variable defaultCreateInfluxDB : InfluxDBDatasource -> result client.

Abbreviation defaults :=
  (defaults client defaultCreateFake defaultCreatePrometheus
            defaultCreateGraphite defaultCreateInfluxDB).
Abbreviation createGatherer :=
  (createGatherer client defaultCreateFake defaultCreatePrometheus
                  defaultCreateGraphite defaultCreateInfluxDB).
Abbreviation createAll :=
  (createAll client defaultCreateFake defaultCreatePrometheus
             defaultCreateGraphite defaultCreateInfluxDB).
Abbreviation NewGatherer :=
  (NewGatherer client defaultCreateFake defaultCreatePrometheus
               defaultCreateGraphite defaultCreateInfluxDB).

Lemma createAll_dom cfg o dss i gs m id :
  createAll cfg o i dss gs = Ok m ->
  is_Some (m !! id) <->
  is_Some (gs !! id) \/ exists ds, ds ∈ dss /\ ID ds = id.
Proof.
  intros Hrun. split.
  - intros [g Hg].
    destruct (datasource_facts.createAll_lookup _ _ _ _ _ _ _ _ _ _ _ _ _
                Hrun Hg) as [H|(_ & ds & Hds & Hid & _)]; eauto.
  - apply (datasource_facts.createAll_is_Some _ _ _ _ _ _ _ _ _ _ _ _ Hrun).
Qed.

Lemma applyAliases_dom order (ags gs gs' : gmap string (Gatherer client)) id :
  NoDup order.*1 ->
  applyAliases order ags gs = Ok gs' ->
  is_Some (gs' !! id) <-> is_Some (gs !! id) \/ id ∈ order.*1.
Proof.
  intros Hnd Hrun.
  destruct (decide (id ∈ order.*1)) as [Hin|Hout].
  - split; [auto|]. intros _.
    apply list_elem_of_fmap in Hin as [[id0 alias] [-> Hp]]. cbn.
    destruct (datasource_facts.applyAliases_entry _ _ _ _ _ _ _ Hnd Hrun Hp)
      as [Hsome ->].
    exact Hsome.
  - rewrite (datasource_facts.applyAliases_other _ _ _ _ _ _ Hrun Hout).
    tauto.
Qed.

(** X21: A router answers for the IDs the dashboard declares and for the IDs
    that have an alias, and for no other: a data source of the user that
    the dashboard does not name and no alias stands for cannot be
    queried.  A query for an ID the router does not know returns the
    error "datasource ... does not exists", for one instant and for a
    range alike. *)
Theorem router_serves_dashboard_and_aliases cfg order router :
  order ≡ₚ map_to_list (Aliases cfg) ->
  NewGatherer cfg order = Ok router ->
  forall id,
    let known :=
      (exists ds, ds ∈ DashboardDatasources cfg /\ ID ds = id) \/
      is_Some (Aliases cfg !! id) in
    ((exists g, metricGatherer router id = Ok g) <-> known) /\
    (~ known ->
     forall q t u step, DatasourceID q = id ->
       GatherSingle clientGatherSingle router q t
       = Err (ErrorsNew ("datasource " +:+ id +:+ " does not exists")) /\
       GatherRange clientGatherRange router q t u step
       = Err (ErrorsNew ("datasource " +:+ id +:+ " does not exists"))).
Proof.
  intros Horder Hrouter id. cbv zeta.
  assert (Hnd : NoDup order.*1).
  { rewrite Horder. apply NoDup_fst_map_to_list. }
  assert (Hkeys : id ∈ order.*1 <-> is_Some (Aliases cfg !! id)).
  { rewrite Horder. split.
    - intros Hin. apply list_elem_of_fmap in Hin as [[id0 alias] [-> Hp]].
      apply elem_of_map_to_list in Hp. cbn. eauto.
    - intros [alias Ha]. apply list_elem_of_fmap. exists (id, alias).
      split; [reflexivity | apply elem_of_map_to_list; exact Ha]. }
  unfold datasource.NewGatherer in Hrouter.
  cbn [DashboardDatasources UserDatasources datasource.defaults] in Hrouter.
  destruct (createAll (defaults cfg) FromDashboard 0
              (DashboardDatasources cfg) ∅) as [gs|e] eqn:Hgs; [|discriminate].
  destruct (createAll (defaults cfg) FromUser 0
              (UserDatasources cfg) ∅) as [ags|e] eqn:Hags; [|discriminate].
  destruct (applyAliases order ags (useUserDatasources ags gs))
    as [gs'|e] eqn:Hgs'; [|discriminate].
  injection Hrouter as <-.
  assert (Hdom : is_Some (gs' !! id) <->
            (exists ds, ds ∈ DashboardDatasources cfg /\ ID ds = id) \/
            is_Some (Aliases cfg !! id)).
  { rewrite (applyAliases_dom _ _ _ _ id Hnd Hgs'), Hkeys.
    rewrite datasource_facts.useUserDatasources_lookup.
    pose proof (createAll_dom _ _ _ _ _ _ id Hgs) as Hd.
    rewrite lookup_empty in Hd.
    assert (Hsome : is_Some (match gs !! id with
                             | Some g => Some (default g (ags !! id))
                             | None => None
                             end) <-> is_Some (gs !! id)).
    { destruct (gs !! id); split; intros [x Hx]; eauto; discriminate. }
    rewrite Hsome, Hd. split.
    - intros [[[x Hx]|H]|H]; [discriminate|auto|auto].
    - intros [H|H]; auto. }
  unfold datasource.metricGatherer, datasource.GatherSingle,
    datasource.GatherRange, datasource.metricGatherer.
  cbn [gatherers]. split.
  - rewrite <- Hdom. destruct (gs' !! id) as [g|]; split.
    + eauto.
    + eauto.
    + intros [g Hg]. discriminate.
    + intros [g Hg]. discriminate.
  - intros Hnot q t u step Hq. rewrite Hq.
    destruct (gs' !! id) as [g|] eqn:Hg; [|split; reflexivity].
    exfalso. apply Hnot, Hdom. eauto.
Qed.

Lemma applyAliases_lookup order (ags gs gs' : gmap string (Gatherer client))
    (aliases : gmap string string) id :
  order ≡ₚ map_to_list aliases ->
  applyAliases order ags gs = Ok gs' ->
  gs' !! id = match aliases !! id with
              | Some alias => ags !! alias
              | None => gs !! id
              end.
Proof.
  intros Horder Hrun.
  assert (Hnd : NoDup order.*1).
  { rewrite Horder. apply NoDup_fst_map_to_list. }
  destruct (aliases !! id) as [alias|] eqn:Ha.
  - apply elem_of_map_to_list in Ha. rewrite <- Horder in Ha.
    apply (datasource_facts.applyAliases_entry _ _ _ _ _ _ _ Hnd Hrun Ha).
  - apply (datasource_facts.applyAliases_other _ _ _ _ _ _ Hrun).
    intros Hin. apply list_elem_of_fmap in Hin as [[id0 alias] [-> Hp]].
    rewrite Horder in Hp. apply elem_of_map_to_list in Hp. cbn in Ha.
    congruence.
Qed.

(** X22: The order in which Go ranges over the map of aliases has no effect
    on the router: two runs of [NewGatherer] on the same configuration
    both fail or both return the same router.  (When they fail on
    aliases, the alias named in the error may differ.) *)
Theorem router_ignores_alias_order cfg order1 order2 :
  order1 ≡ₚ map_to_list (Aliases cfg) ->
  order2 ≡ₚ map_to_list (Aliases cfg) ->
  match NewGatherer cfg order1, NewGatherer cfg order2 with
  | Ok router1, Ok router2 => router1 = router2
  | Err _, Err _ => True
  | _, _ => False
  end.
Proof.
  intros H1 H2.
  assert (Hnd1 : NoDup order1.*1).
  { rewrite H1. apply NoDup_fst_map_to_list. }
  assert (Hnd2 : NoDup order2.*1).
  { rewrite H2. apply NoDup_fst_map_to_list. }
  unfold datasource.NewGatherer.
  cbn [DashboardDatasources UserDatasources datasource.defaults].
  destruct (createAll (defaults cfg) FromDashboard 0
              (DashboardDatasources cfg) ∅) as [gs|e]; [|exact I].
  destruct (createAll (defaults cfg) FromUser 0
              (UserDatasources cfg) ∅) as [ags|e]; [|exact I].
  set (base := useUserDatasources ags gs).
  destruct (applyAliases order1 ags base) as [gs1|e1] eqn:E1;
    destruct (applyAliases order2 ags base) as [gs2|e2] eqn:E2.
  - f_equal. apply map_eq. intros id.
    rewrite (applyAliases_lookup _ _ _ _ _ id H1 E1).
    rewrite (applyAliases_lookup _ _ _ _ _ id H2 E2). reflexivity.
  - destruct (datasource_facts.applyAliases_succeeds _ order2 ags base) as [gs2 Hgs2];
      [|congruence].
    intros id alias Hin. rewrite H2, <- H1 in Hin.
    destruct (datasource_facts.applyAliases_entry _ _ _ _ _ _ _ Hnd1 E1 Hin)
      as [Hsome _].
    exact Hsome.
  - destruct (datasource_facts.applyAliases_succeeds _ order1 ags base) as [gs1 Hgs1];
      [|congruence].
    intros id alias Hin. rewrite H1, <- H2 in Hin.
    destruct (datasource_facts.applyAliases_entry _ _ _ _ _ _ _ Hnd2 E2 Hin)
      as [Hsome _].
    exact Hsome.
  - exact I.
Qed.

Lemma createAll_fails cfg o dss : forall i gs ds e0,
  ds ∈ dss -> createGatherer cfg ds (ID ds) = Err e0 ->
  exists e, createAll cfg o i dss gs = Err e.
Proof.
  induction dss as [|d rest IH]; intros i gs ds e0 Hin Hfail;
    [inversion Hin|].
  cbn [datasource.createAll].
  destruct (createGatherer cfg d (ID d)) as [c|e] eqn:Hc; [|eauto].
  apply elem_of_cons in Hin as [->|Hin]; [congruence|].
  eapply IH; eauto.
Qed.

(** X23: Construction is all or nothing: if a single data source of the
    dashboard or of the user cannot be given a gatherer, [NewGatherer]
    returns an error and no router, even when that data source would
    have been replaced by another; and a data source that sets none of
    the four kinds fails with "not a valid datasource". *)
Theorem router_needs_every_datasource cfg order ds :
  ds ∈ DashboardDatasources cfg \/ ds ∈ UserDatasources cfg ->
  (exists e0, createGatherer (defaults cfg) ds (ID ds) = Err e0) ->
  (exists e, NewGatherer cfg order = Err e) /\
  (forall ds',
     Prometheus ds' = None -> Graphite ds' = None ->
     InfluxDB ds' = None -> Fake ds' = None ->
     createGatherer (defaults cfg) ds' (ID ds')
     = Err (ErrorsNew "not a valid datasource")).
Proof.
  intros Hin [e0 Hfail]. split.
  - unfold datasource.NewGatherer.
    cbn [DashboardDatasources UserDatasources datasource.defaults].
    destruct (createAll (defaults cfg) FromDashboard 0
                (DashboardDatasources cfg) ∅) as [gs|e] eqn:Hgs; [|eauto].
    destruct (createAll (defaults cfg) FromUser 0
                (UserDatasources cfg) ∅) as [ags|e] eqn:Hags; [|eauto].
    exfalso. destruct Hin as [Hin|Hin].
    + destruct (createAll_fails (defaults cfg) FromDashboard _ 0%nat ∅ _ _
                  Hin Hfail) as [e He].
      congruence.
    + destruct (createAll_fails (defaults cfg) FromUser _ 0%nat ∅ _ _
                  Hin Hfail) as [e He].
      congruence.
  - intros ds' Hp Hg Hi Hf. unfold datasource.createGatherer.
    rewrite Hp, Hg, Hi, Hf. reflexivity.
Qed.

Lemma createAll_last_wins cfg o l2 : forall l1 ds i gs m,
  createAll cfg o i (l1 ++ ds :: l2) gs = Ok m ->
  (forall ds', ds' ∈ l2 -> ID ds' <> ID ds) ->
  exists c,
    createGatherer cfg ds (ID ds) = Ok c /\
    m !! ID ds = Some {| made := o; index := (i + length l1)%nat; backend := c |}.
Proof.
  induction l1 as [|d l1 IH]; intros ds i gs m Hrun Hlast;
    cbn [app datasource.createAll length] in Hrun |- *.
  - destruct (createGatherer cfg ds (ID ds)) as [c|e] eqn:Hc; [|discriminate].
    exists c. split; [reflexivity|].
    rewrite Nat.add_0_r.
    assert (Hkeep : forall l j gs0 m0 g,
              createAll cfg o j l gs0 = Ok m0 ->
              (forall ds', ds' ∈ l -> ID ds' <> ID ds) ->
              gs0 !! ID ds = Some g -> m0 !! ID ds = Some g).
    { induction l as [|d l IHl]; intros j gs0 m0 g Hr Hne Hg;
        cbn [datasource.createAll] in Hr.
      - injection Hr as <-. exact Hg.
      - destruct (createGatherer cfg d (ID d)) as [c'|e']; [|discriminate].
        apply (IHl _ _ _ _ Hr).
        + intros ds' Hds'. apply Hne. right. exact Hds'.
        + rewrite lookup_insert_ne; [exact Hg|]. apply Hne. left. }
    apply (Hkeep _ _ _ _ _ Hrun Hlast). apply lookup_insert_eq.
  - destruct (createGatherer cfg d (ID d)) as [c'|e'] eqn:Hc';
      [|discriminate].
    destruct (IH _ _ _ _ Hrun Hlast) as (c & Hc & Hm).
    exists c. split; [exact Hc|]. rewrite Hm. do 2 f_equal. lia.
Qed.

(** X24: Two data sources of the dashboard that share an ID: the one that
    comes later in the list is used, without any error.  Of the data
    sources of the dashboard with an ID that has no alias and that the
    user does not declare, the router serves the last. *)
Theorem router_takes_last_duplicate cfg order router l1 ds l2 :
  order ≡ₚ map_to_list (Aliases cfg) ->
  NewGatherer cfg order = Ok router ->
  DashboardDatasources cfg = l1 ++ ds :: l2 ->
  (forall ds', ds' ∈ l2 -> ID ds' <> ID ds) ->
  Aliases cfg !! ID ds = None ->
  (forall ds', ds' ∈ UserDatasources cfg -> ID ds' <> ID ds) ->
  exists c,
    createGatherer (defaults cfg) ds (ID ds) = Ok c /\
    metricGatherer router (ID ds)
    = Ok {| made := FromDashboard; index := length l1; backend := c |}.
Proof.
  intros Horder Hrouter Hdash Hlast Hnoalias Hnouser.
  unfold datasource.NewGatherer in Hrouter.
  cbn [DashboardDatasources UserDatasources datasource.defaults] in Hrouter.
  rewrite Hdash in Hrouter.
  destruct (createAll (defaults cfg) FromDashboard 0 (l1 ++ ds :: l2) ∅)
    as [gs|e] eqn:Hgs; [|discriminate].
  destruct (createAll (defaults cfg) FromUser 0
              (UserDatasources cfg) ∅) as [ags|e] eqn:Hags; [|discriminate].
  destruct (applyAliases order ags (useUserDatasources ags gs))
    as [gs'|e] eqn:Hgs'; [|discriminate].
  injection Hrouter as <-.
  destruct (createAll_last_wins _ _ _ _ _ _ _ _ Hgs Hlast) as (c & Hc & Hm).
  exists c. split; [exact Hc|].
  unfold datasource.metricGatherer. cbn [gatherers].
  rewrite (applyAliases_lookup _ _ _ _ _ (ID ds) Horder Hgs'), Hnoalias.
  rewrite datasource_facts.useUserDatasources_lookup, Hm.
  assert (Hnone : ags !! ID ds = None).
  { destruct (ags !! ID ds) as [g|] eqn:Hg; [|reflexivity]. exfalso.
    destruct (proj1 (createAll_dom _ _ _ _ _ _ (ID ds) Hags)
                ltac:(rewrite Hg; eauto)) as [[x Hx]|(ds' & Hds' & Hid)].
    - rewrite lookup_empty in Hx. discriminate.
    - exact (Hnouser ds' Hds' Hid). }
  rewrite Hnone. reflexivity.
Qed.

End Router.
Lemma router_serves_dashboard_and_aliases_witness :
  match samples.newRouter {["prom2" := "localprom"]} with
  | Ok router =>
      (exists g, metricGatherer router "prometheus" = Ok g) /\
      GatherSingle (fun _ _ _ => Ok []) router
        {| Expr := "up"; DatasourceID := "localprom" |} 0
      = Err (ErrorsNew "datasource localprom does not exists")
  | Err _ => False
  end.
Proof.
  destruct (samples.newRouter {["prom2" := "localprom"]})
    as [router|e] eqn:Hrouter; [|vm_compute in Hrouter; discriminate].
  pose proof (router_serves_dashboard_and_aliases string
                (fun _ _ _ => Ok []) (fun _ _ _ _ _ => Ok [])
                samples.fakeClient samples.promClient
                samples.graphiteClient samples.influxClient
                (samples.routerConfig {["prom2" := "localprom"]})
                (map_to_list {["prom2" := "localprom"]}) router
                (Permutation_refl _) Hrouter) as H.
  split.
  - apply (proj1 (H "prometheus")). left.
    exists (samples.promDatasource "prometheus" "http://dashboard:9090").
    split; [left | reflexivity].
  - apply (proj2 (H "localprom")); [|exact 0 | exact 0 | reflexivity].
    intros [(ds & Hds & Hid)|[alias Ha]].
    + cbn in Hds.
      apply elem_of_cons in Hds as [->|Hds]; [discriminate|].
      apply elem_of_cons in Hds as [->|Hds]; [discriminate|].
      inversion Hds.
    + vm_compute in Ha. discriminate.
Defined.

Lemma router_ignores_alias_order_witness :
  match samples.newRouterOf (samples.routerConfig samples.twoAliases)
          (map_to_list samples.twoAliases),
        samples.newRouterOf (samples.routerConfig samples.twoAliases)
          (rev (map_to_list samples.twoAliases)) with
  | Ok router1, Ok router2 => router1 = router2
  | Err _, Err _ => True
  | _, _ => False
  end.
Proof.
  apply (router_ignores_alias_order string
           samples.fakeClient samples.promClient
           samples.graphiteClient samples.influxClient
           (samples.routerConfig samples.twoAliases)).
  - reflexivity.
  - symmetry. apply Permutation_rev.
Defined.

Lemma router_needs_every_datasource_witness :
  exists e, samples.newRouterOf samples.unusedBroken [] = Err e.
Proof.
  apply (router_needs_every_datasource string
           samples.fakeClient samples.promClient
           samples.graphiteClient samples.influxClient
           samples.unusedBroken [] (samples.emptyDatasource "spare")).
  - right. left.
  - eexists. reflexivity.
Defined.

Lemma router_takes_last_duplicate_witness :
  match samples.newRouterOf samples.twicePrometheus [] with
  | Ok router =>
      metricGatherer router "prometheus"
      = Ok {| made := FromDashboard; index := 1;
              backend := "http://second:9090" |}
  | Err _ => False
  end.
Proof.
  destruct (samples.newRouterOf samples.twicePrometheus [])
    as [router|e] eqn:Hrouter; [|vm_compute in Hrouter; discriminate].
  destruct (router_takes_last_duplicate string
              samples.fakeClient samples.promClient
              samples.graphiteClient samples.influxClient
              samples.twicePrometheus [] router
              [samples.promDatasource "prometheus" "http://first:9090"]
              (samples.promDatasource "prometheus" "http://second:9090") []
              ltac:(reflexivity) Hrouter eq_refl
              ltac:(intros ds' Hds'; inversion Hds')
              ltac:(reflexivity)
              ltac:(intros ds' Hds'; inversion Hds'))
    as (c & Hc & Hg).
  injection Hc as <-. exact Hg.
Defined.

End router_facts.

(** ** The application *)
Module view_facts.
Import view.

Lemma requests_app evs1 evs2 :
  requests (evs1 ++ evs2) = requests evs1 ++ requests evs2.
Proof. apply omap_app. Qed.

Lemma requests_sync a s k now :
  syncer a = Some s -> requests (sync a k now) = [syncRequest a now].
Proof.
  unfold sync. intros ->. cbn [requests omap list_omap].
  destruct (s k (syncRequest a now)) as [[err|] [[[|]| | |]|]|v]; reflexivity.
Qed.

Lemma requests_syncs a s nows : forall ks,
  syncer a = Some s ->
  requests (concat (map (fun k => sync a k (nows k)) ks))
  = map (fun k => syncRequest a (nows k)) ks.
Proof.
  intros ks Hs. induction ks as [|k ks IH]; [reflexivity|].
  cbn [map concat]. rewrite requests_app, (requests_sync _ _ _ _ Hs), IH.
  reflexivity.
Qed.

Lemma requests_nil_syncer a nows : forall ks,
  syncer a = None ->
  requests (concat (map (fun k => sync a k (nows k)) ks)) = [].
Proof.
  intros ks Hs. induction ks as [|k ks IH]; [reflexivity|].
  cbn [map concat]. rewrite requests_app, IH. unfold sync. rewrite Hs.
  reflexivity.
Qed.

(** X25: An application runs once.  [Run] on a new application syncs at
    once and then once per tick until the context is done, and returns
    nil whatever the syncer did, errors and panics included; with a
    negative refresh interval, which [NewApp] does not replace, it syncs
    once and then panics in [time.NewTicker].  Any later [Run] of the
    same application, even after the first has returned, returns
    "already running" and syncs nothing. *)
Theorem Run_runs_once cfg s nows ticks nows' ticks' :
  let run := Run (NewApp cfg (Some s)) nows ticks in
  let a1 := fst (fst run) in
  (0 <= RefreshInterval cfg ->
   snd run = RunReturned None /\
   requests (snd (fst run))
   = map (fun k => syncRequest a1 (nows k)) (seq 0 (S ticks))) /\
  (RefreshInterval cfg < 0 ->
   snd run = RunPanicked "non-positive interval for NewTicker" /\
   requests (snd (fst run)) = [syncRequest a1 (nows 0%nat)]) /\
  Run a1 nows' ticks'
  = (a1, [], RunReturned (Some (ErrorsNew "already running"))).
Proof.
  cbv zeta. unfold Run, NewApp. cbn [running syncer view.cfg].
  set (a1 := {| syncer := Some s; cfg := defaults cfg; running := true |}).
  assert (Hint : RefreshInterval (defaults cfg)
                 = if RefreshInterval cfg =? 0 then defRefreshInterval
                   else RefreshInterval cfg) by reflexivity.
  rewrite Hint.
  destruct (Z.eqb_spec (RefreshInterval cfg) 0) as [E0|N0].
  - change (defRefreshInterval <=? 0) with false. cbn [fst snd running].
    split; [intros _|split; [lia|reflexivity]].
    split; [reflexivity|].
    rewrite requests_app, (requests_sync a1 s) by reflexivity.
    rewrite (requests_syncs a1 s) by reflexivity. reflexivity.
  - destruct (Z.leb_spec (RefreshInterval cfg) 0) as [Hneg|Hpos];
      cbn [fst snd running].
    + split; [lia|]. split; [|reflexivity]. intros _.
      split; [reflexivity|]. apply (requests_sync a1 s). reflexivity.
    + split; [|split; [lia|reflexivity]]. intros _.
      split; [reflexivity|].
      rewrite requests_app, (requests_sync a1 s) by reflexivity.
      rewrite (requests_syncs a1 s) by reflexivity. reflexivity.
Qed.

(** X26: The range a sync asks for.  With no fixed instants every sync asks
    for the range that ends at the instant it reads the clock and
    spans the relative time range, one hour when none is configured;
    with both instants fixed every sync asks for that same range
    whatever the clock reads. *)
Theorem syncRequest_window cfg s now :
  - 2 ^ 63 < RelativeTimeRange cfg < 2 ^ 63 ->
  let a := NewApp cfg s in
  let span :=
    if RelativeTimeRange cfg =? 0 then 1 * Hour else RelativeTimeRange cfg in
  (TimeRangeStart cfg = 0 -> TimeRangeEnd cfg = 0 ->
   syncRequest a now
   = {| req_TimeRangeStart := now - span; req_TimeRangeEnd := now |}) /\
  (TimeRangeStart cfg = 0 -> TimeRangeEnd cfg <> 0 ->
   syncRequest a now
   = {| req_TimeRangeStart := TimeRangeEnd cfg - span;
        req_TimeRangeEnd := TimeRangeEnd cfg |}) /\
  (TimeRangeStart cfg <> 0 -> TimeRangeEnd cfg = 0 ->
   syncRequest a now
   = {| req_TimeRangeStart := TimeRangeStart cfg; req_TimeRangeEnd := now |}) /\
  (TimeRangeStart cfg <> 0 -> TimeRangeEnd cfg <> 0 ->
   syncRequest a now
   = {| req_TimeRangeStart := TimeRangeStart cfg;
        req_TimeRangeEnd := TimeRangeEnd cfg |}).
Proof.
  intros Hrel. cbv zeta.
  unfold syncRequest, NewApp, defaults, IsZero, defRelativeTimeRange.
  cbn [view.cfg TimeRangeStart TimeRangeEnd RelativeTimeRange].
  assert (Hspan : int64 (-1 * (if RelativeTimeRange cfg =? 0 then 1 * Hour
                               else RelativeTimeRange cfg))
                  = - (if RelativeTimeRange cfg =? 0 then 1 * Hour
                       else RelativeTimeRange cfg)).
  { apply int64_small.
    destruct (RelativeTimeRange cfg =? 0); unfold Hour, Second; lia. }
  rewrite Hspan.
  repeat split; intros Hs He;
    repeat match goal with
           | H : _ = 0 |- _ => rewrite H
           | H : _ <> 0 |- _ => apply Z.eqb_neq in H; rewrite H
           end;
    cbn [Z.eqb]; f_equal; lia.
Qed.

Lemma syncRequest_window_witness :
  syncRequest (NewApp samples.plainConfig None) (10 * Hour)
  = {| req_TimeRangeStart := 9 * Hour; req_TimeRangeEnd := 10 * Hour |}.
Proof.
  apply (proj1 (syncRequest_window samples.plainConfig None (10 * Hour)
                  ltac:(vm_compute; split; reflexivity)));
    reflexivity.
Defined.

End view_facts.

(** ** The gauge *)
Module widget_facts.
Import widget float64 float64_facts float64_exact.
Local Open Scope Q_scope.

Lemma clamp_bounds (v : Q) :
  let val2 := if gtb v (inject_Z 100) then inject_Z 100 else v in
  0 <= (if ltb val2 0 then 0 else val2) <= 100.
Proof.
  cbv zeta. change (inject_Z 100) with 100.
  destruct (gtb v 100) eqn:Hg.
  - destruct (ltb 100 0) eqn:Hl; [apply ltb_true in Hl; lra|]. lra.
  - apply gtb_false in Hg.
    destruct (ltb v 0) eqn:Hl; [lra|]. apply ltb_false in Hl. lra.
Qed.

Lemma clamp_le (v v' : Q) :
  v <= v' ->
  (if ltb (if gtb v (inject_Z 100) then inject_Z 100 else v) 0 then 0
   else if gtb v (inject_Z 100) then inject_Z 100 else v)
  <= (if ltb (if gtb v' (inject_Z 100) then inject_Z 100 else v') 0 then 0
      else if gtb v' (inject_Z 100) then inject_Z 100 else v').
Proof.
  intros Hv. change (inject_Z 100) with 100.
  destruct (gtb v 100) eqn:Hg; destruct (gtb v' 100) eqn:Hg';
    try apply gtb_true in Hg; try apply gtb_true in Hg';
    try apply gtb_false in Hg; try apply gtb_false in Hg';
    repeat match goal with
           | |- context [ltb ?a ?b] =>
               let H := fresh "Hl" in
               destruct (ltb a b) eqn:H;
               [apply ltb_true in H | apply ltb_false in H]
           end; lra.
Qed.

Lemma clamp_eq (v w : Q) :
  v == w -> 0 <= w <= 100 ->
  (if ltb (if gtb v (inject_Z 100) then inject_Z 100 else v) 0 then 0
   else if gtb v (inject_Z 100) then inject_Z 100 else v) == w.
Proof.
  intros Hv Hw. change (inject_Z 100) with 100.
  destruct (gtb v 100) eqn:Hg;
    [apply gtb_true in Hg | apply gtb_false in Hg];
    repeat match goal with
           | |- context [ltb ?a ?b] =>
               let H := fresh "Hl" in
               destruct (ltb a b) eqn:H;
               [apply ltb_true in H | apply ltb_false in H]
           end; lra.
Qed.

Lemma rnd_bounded (x : Q) (k : Z) :
  (-1074 <= k)%Z -> - 2 ^ k <= x <= 2 ^ k -> - 2 ^ k <= rnd x <= 2 ^ k.
Proof.
  intros Hk [Hlo Hhi].
  pose proof (rnd_pow2 k Hk) as Ep.
  pose proof (rnd_dyadic (-1) k ltac:(lia) Hk) as En.
  assert (E : inject_Z (-1) * 2 ^ k == - 2 ^ k) by (change (inject_Z (-1)) with (-1); ring).
  rewrite E in En.
  split.
  - rewrite <- En. apply rnd_le. exact Hlo.
  - rewrite <- Ep. apply rnd_le. exact Hhi.
Qed.

Lemma of_int_apart (c : Z) :
  (- 2 ^ 63 <= c < 2 ^ 63)%Z -> c <> 0%Z ->
  1 <= of_int c \/ of_int c <= -1.
Proof.
  intros Hc Hne. destruct (Z.lt_trichotomy c 0) as [Hneg|[->|Hpos]].
  - right. pose proof (of_int_small (-1) ltac:(lia)) as E.
    change (inject_Z (-1)) with (-1) in E. rewrite <- E.
    apply of_int_le. lia.
  - contradiction.
  - left. apply of_int_pos. exact Hpos.
Qed.

Lemma quotient_bounded (x c B : Q) :
  0 <= B -> - B <= x <= B -> (1 <= c \/ c <= -1) -> - B <= x / c <= B.
Proof.
  intros HB [Hlo Hhi] [Hc|Hc].
  - split.
    + apply Qle_shift_div_l; [lra|]. nra.
    + apply Qle_shift_div_r; [lra|]. nra.
  - assert (E : x / c == (- x) / (- c)) by (field; lra).
    rewrite E. split.
    + apply Qle_shift_div_l; [lra|]. nra.
    + apply Qle_shift_div_r; [lra|]. nra.
Qed.

(** X27: The value a gauge shows as a percentage lies between 0 and 100,
    whatever the metric and the bounds of the gauge; on the way no
    divisor is zero and no float64 value overflows. *)
Theorem getPercentValue_is_a_percentage g val :
  Qabs val <= 2 ^ 1000 ->
  (- 2 ^ 62 <= Min g < 2 ^ 62)%Z -> (- 2 ^ 62 <= Max g < 2 ^ 62)%Z ->
  (Max g = 0 \/ Max g <> Min g)%Z ->
  0 <= getPercentValue g val <= 100 /\
  (Max g <> 0%Z ->
   let val' := sub val (of_int (Min g)) in
   let cap := of_int (int64 (Max g - Min g)) in
   ~ cap == 0 /\ finite val' /\ finite (div val' cap) /\
   finite (mul (div val' cap) (inject_Z 100))).
Proof.
  intros Hval Hmin Hmax Hcap. split.
  { unfold getPercentValue. apply clamp_bounds. }
  intros Hmax0. cbv zeta.
  assert (Hne : (Max g <> Min g)%Z) by (destruct Hcap; [contradiction|assumption]).
  rewrite int64_small by lia.
  destruct (of_int_apart (Max g - Min g) ltac:(lia) ltac:(lia)) as [Hc|Hc].
  all: assert (Hv : - 2 ^ 1000 <= val <= 2 ^ 1000)
         by (revert Hval; apply Qabs_case; intros; lra).
  all: assert (HM : - 2 ^ 1000 <= of_int (Min g) <= 2 ^ 1000)
         by (pose proof (of_int_int64 (Min g) ltac:(lia)) as [Hm1 Hm2];
             assert (H63 : inject_Z (2 ^ 63) <= 2 ^ 1000)
               by (rewrite <- (pow2_inject 63) by lia; apply pow2_le; lia);
             revert Hm1 Hm2 H63; generalize (inject_Z (2 ^ 63));
             intros; lra).
  all: assert (E1 : 2 ^ 1001 == 2 * 2 ^ 1000)
         by (change 1001%Z with (1 + 1000)%Z; rewrite pow2_add; reflexivity).
  all: assert (E8 : 2 ^ 1008 == 128 * 2 ^ 1001)
         by (change 1008%Z with (7 + 1001)%Z; rewrite pow2_add; reflexivity).
  all: pose proof (pow2_pos 1000) as P0.
  all: assert (Hs : - 2 ^ 1001 <= sub val (of_int (Min g)) <= 2 ^ 1001)
         by (apply rnd_bounded; [lia | lra]).
  all: assert (Hd : - 2 ^ 1001
                    <= div (sub val (of_int (Min g))) (of_int (Max g - Min g))
                    <= 2 ^ 1001)
         by (apply rnd_bounded; [lia|];
             apply quotient_bounded; [lra | exact Hs | auto]).
  all: assert (Hm : - 2 ^ 1008
                    <= mul (div (sub val (of_int (Min g)))
                                (of_int (Max g - Min g))) (inject_Z 100)
                    <= 2 ^ 1008)
         by (apply rnd_bounded; [lia|]; change (inject_Z 100) with 100; lra).
  all: assert (L1 : 2 ^ 1001 < 2 ^ 1024) by (apply pow2_lt; lia).
  all: assert (L8 : 2 ^ 1008 < 2 ^ 1024) by (apply pow2_lt; lia).
  all: split; [lra|].
  all: split; [apply (finite_bounds _ _ _ (proj1 Hs) (proj2 Hs)); lra|].
  all: split; [apply (finite_bounds _ _ _ (proj1 Hd) (proj2 Hd)); lra|].
  all: apply (finite_bounds _ _ _ (proj1 Hm) (proj2 Hm)); lra.
Qed.


(** X28: The scale of a gauge with bounds: the lower bound shows as 0, the
    upper bound as 100, and a larger metric never shows as a smaller
    percentage.  A gauge whose upper bound is 0 has no scale: the metric
    is shown as it is, cut to the range from 0 to 100, and the lower
    bound plays no part. *)
Theorem getPercentValue_scale g :
  (- 2 ^ 52 <= Min g)%Z -> (Max g <= 2 ^ 52)%Z ->
  ((Max g <> 0)%Z -> (Min g < Max g)%Z ->
   getPercentValue g (inject_Z (Min g)) == 0 /\
   getPercentValue g (inject_Z (Max g)) == 100 /\
   (forall v v', v <= v' -> getPercentValue g v <= getPercentValue g v')) /\
  (Max g = 0%Z ->
   forall v,
     (v < 0 -> getPercentValue g v == 0) /\
     (0 <= v <= 100 -> getPercentValue g v == v) /\
     (100 < v -> getPercentValue g v == 100)).
Proof.
  intros Hmin Hmax. split.
  - intros Hne Hlt.
    assert (Hz : (Max g =? 0)%Z = false) by (apply Z.eqb_neq; exact Hne).
    assert (Hcap : of_int (int64 (Max g - Min g)) == inject_Z (Max g - Min g)).
    { rewrite int64_small by lia. apply of_int_small. lia. }
    assert (Hcap0 : 0 < inject_Z (Max g - Min g)).
    { rewrite <- (Zlt_Qlt 0). lia. }
    assert (HofMin : of_int (Min g) == inject_Z (Min g))
      by (apply of_int_small; lia).
    split; [|split].
    + unfold getPercentValue. rewrite Hz. cbn [negb].
      apply clamp_eq; [|lra].
      unfold mul, div, sub. rewrite HofMin.
      assert (E : inject_Z (Min g) - inject_Z (Min g) == 0) by ring.
      rewrite E. change (rnd 0) with 0.
      assert (E2 : 0 / of_int (int64 (Max g - Min g)) == 0)
        by (unfold Qdiv; ring).
      rewrite E2. change (rnd 0) with 0.
      assert (E3 : 0 * inject_Z 100 == 0) by ring.
      rewrite E3. reflexivity.
    + unfold getPercentValue. rewrite Hz. cbn [negb].
      apply clamp_eq; [|lra].
      unfold mul, div, sub. rewrite HofMin, Hcap.
      assert (E : inject_Z (Max g) - inject_Z (Min g)
                  == inject_Z (Max g - Min g)).
      { unfold Z.sub. rewrite inject_Z_plus, inject_Z_opp. ring. }
      rewrite E, (rnd_int (Max g - Min g)) by lia.
      assert (E2 : inject_Z (Max g - Min g) / inject_Z (Max g - Min g) == 1)
        by (field; lra).
      rewrite E2.
      pose proof (rnd_int 1 ltac:(lia)) as E1.
      change (inject_Z 1) with 1 in E1. rewrite E1.
      assert (E3 : 1 * inject_Z 100 == inject_Z 100) by ring.
      rewrite E3. apply rnd_int. lia.
    + intros v v' Hv. unfold getPercentValue. rewrite Hz. cbn [negb].
      apply clamp_le. unfold mul. apply rnd_le.
      change (inject_Z 100) with 100.
      assert (Hd : div (sub v (of_int (Min g))) (of_int (int64 (Max g - Min g)))
                   <= div (sub v' (of_int (Min g)))
                          (of_int (int64 (Max g - Min g)))).
      { apply div_le; [rewrite Hcap; exact Hcap0|].
        apply sub_mono; [exact Hv | apply Qle_refl]. }
      lra.
  - intros Hz v. unfold getPercentValue. rewrite Hz. cbn [Z.eqb negb].
    change (inject_Z 100) with 100.
    destruct (gtb v 100) eqn:Hg;
      [apply gtb_true in Hg | apply gtb_false in Hg];
      repeat match goal with
             | |- context [ltb ?a ?b] =>
                 let H := fresh "Hl" in
                 destruct (ltb a b) eqn:H;
                 [apply ltb_true in H | apply ltb_false in H]
             end;
      repeat split; intros; lra.
Qed.



Lemma getPercentValue_is_a_percentage_witness :
  0 <= getPercentValue samples.percentGauge 150 <= 100 /\
  Qeq_bool (getPercentValue samples.percentGauge 150) 50 = true.
Proof.
  split; [|vm_compute; reflexivity].
  apply (getPercentValue_is_a_percentage samples.percentGauge 150).
  - vm_compute. discriminate.
  - vm_compute. split; [discriminate | reflexivity].
  - vm_compute. split; [discriminate | reflexivity].
  - right. vm_compute. discriminate.
Defined.

Lemma getPercentValue_scale_witness :
  getPercentValue samples.percentGauge 100 == 0 /\
  getPercentValue samples.percentGauge 200 == 100.
Proof.
  destruct (proj1 (getPercentValue_scale samples.percentGauge
                     ltac:(vm_compute; discriminate)
                     ltac:(vm_compute; discriminate))
              ltac:(vm_compute; discriminate) ltac:(vm_compute; reflexivity))
    as (Hlo & Hhi & _).
  split; [exact Hlo | exact Hhi].
Defined.


Local Close Scope Q_scope.

(** X30: A widget repaints only when its colour changes.  [SetColor] is
    called at most once, with the colour picked from the thresholds, and
    only when that colour is not the current one; the current colour
    changes only when [SetColor] returned nil.  After a call that
    returned nil, a second call that picks the same colour does not call
    [SetColor] at all; after one where [SetColor] failed, the current
    colour is unchanged, so the same colour is tried again. *)
Theorem changeWidgetColor_repaints_on_change thresholds current picked setColor :
  let run := changeWidgetColor thresholds current picked setColor in
  let current' := fst (fst run) in
  (snd (fst run) = [] \/
   exists color, snd (fst run) = [color] /\ picked = Ok color /\
                 color <> current) /\
  (current' <> current ->
   snd run = None /\ picked = Ok current' /\ setColor current' = None) /\
  (snd run <> None -> current' = current) /\
  (snd run = None ->
   forall setColor',
     changeWidgetColor thresholds current' picked setColor'
     = (current', [], None)).
Proof.
  cbv zeta. unfold changeWidgetColor.
  destruct (thresholds =? 0)%nat; cbn [fst snd].
  { repeat split; auto; congruence. }
  destruct picked as [color|err0]; cbn [fst snd].
  2:{ repeat split; auto; congruence. }
  destruct (String.eqb_spec color current) as [->|Hne]; cbn [fst snd].
  { rewrite String.eqb_refl. repeat split; auto; congruence. }
  destruct (setColor color) as [err|] eqn:Hset; cbn [fst snd].
  - split; [right; eauto|]. split; [congruence|]. split; [reflexivity|].
    discriminate.
  - split; [right; eauto|]. split; [auto|]. split; [congruence|].
    intros _ setColor'. rewrite String.eqb_refl. reflexivity.
Qed.

End widget_facts.
